(** * cron-manage: the validator, the renderer and the deployer of
      [cron_manager.py], embedded in Rocq

    Part I holds the embedding, one module per Python class.  Part II holds
    the lemmas about the string primitives and the properties of the
    program.  The statistics of [cron-monitor.py] ([get_stats] and
    [check_health]) are embedded too, in the module [CronMonitor].

    Conventions of the embedding.
    - A Python [str] is a [string]; a character is a code point below 256
      (the Latin-1 block), so [isspace] lists the white space of that block.
    - A Python [int] is a [Z].
    - The configuration is the dictionary [yaml.safe_load] returns, with the
      value types of the documented file format: a key that may be absent is
      an [option] field.
    - The texts of the messages are Chinese f-strings; each message is a
      constructor that carries the values the f-string interpolates. *)

From Stdlib Require Import String Ascii List ZArith NArith Bool Lia.
From Stdlib Require Import Sorted Permutation.
Import ListNotations.

Local Open Scope string_scope.
Local Open Scope Z_scope.

(* ================================================================== *)
(** * Part I.  The embedding                                           *)
(* ================================================================== *)

(** ** The [str] and [int] primitives the program calls *)

Module PyStr.

Definition code (c : ascii) : N := N_of_ascii c.

(** [str.isspace] for one character, restricted to code points < 256:
    TAB..CR, FS..US, SPACE, NEL and NBSP. *)
Definition isspace (c : ascii) : bool :=
  let n := code c in
  (((9 <=? n) && (n <=? 13)) || ((28 <=? n) && (n <=? 32))
   || (n =? 133) || (n =? 160))%N.

Definition is_digit (c : ascii) : bool :=
  let n := code c in ((48 <=? n) && (n <=? 57))%N.

Definition digit_val (c : ascii) : Z := Z.of_N (code c) - 48.

(** [c in s] for a one-character [c]. *)
Fixpoint contains (c : ascii) (s : string) : bool :=
  match s with
  | EmptyString => false
  | String d s' => Ascii.eqb d c || contains c s'
  end.

(** [s.startswith(p)] *)
Fixpoint startswith (p s : string) : bool :=
  match p, s with
  | EmptyString, _ => true
  | String a p', String b s' => Ascii.eqb a b && startswith p' s'
  | String _ _, EmptyString => false
  end.

(** [s[n:]] *)
Fixpoint drop (n : nat) (s : string) : string :=
  match n, s with
  | O, _ => s
  | S n', String _ s' => drop n' s'
  | S _, EmptyString => EmptyString
  end.

(** [sep.join(l)] *)
Fixpoint join (sep : string) (l : list string) : string :=
  match l with
  | [] => ""
  | [x] => x
  | x :: rest => x ++ sep ++ join sep rest
  end.

Definition cons_nonempty (w : string) (ws : list string) : list string :=
  match w with EmptyString => ws | _ => w :: ws end.

(** The scan behind [s.split()]: the word being read at the head of the
    text, and the words completed after it. *)
Fixpoint words (s : string) : string * list string :=
  match s with
  | EmptyString => (EmptyString, [])
  | String c s' =>
      let (w, ws) := words s' in
      if isspace c then (EmptyString, cons_nonempty w ws)
      else (String c w, ws)
  end.

(** [s.split()]: the maximal runs of non-space characters. *)
Definition split_ws (s : string) : list string :=
  let (w, ws) := words s in cons_nonempty w ws.

Fixpoint pieces (sep : ascii) (s : string) : string * list string :=
  match s with
  | EmptyString => (EmptyString, [])
  | String c s' =>
      let (w, ws) := pieces sep s' in
      if Ascii.eqb c sep then (EmptyString, w :: ws) else (String c w, ws)
  end.

(** [s.split(sep)] for a one-character separator: never empty, and empty
    pieces are kept. *)
Definition split_on (sep : ascii) (s : string) : list string :=
  let (w, ws) := pieces sep s in w :: ws.

(** The text without the characters of the class [space] at its left
    end, at its right end, at both ends. *)
Fixpoint lstrip_of (space : ascii -> bool) (s : string) : string :=
  match s with
  | EmptyString => EmptyString
  | String c s' => if space c then lstrip_of space s' else s
  end.

Fixpoint rstrip_of (space : ascii -> bool) (s : string) : string :=
  match s with
  | EmptyString => EmptyString
  | String c s' =>
      match rstrip_of space s' with
      | EmptyString => if space c then EmptyString else String c EmptyString
      | r => String c r
      end
  end.

Definition strip_of (space : ascii -> bool) (s : string) : string :=
  rstrip_of space (lstrip_of space s).

(** [s.strip()] *)
Definition strip (s : string) : string := strip_of isspace s.

(** The white space [int()] drops around a literal, for code points < 256:
    TAB..CR, SPACE, NEL and NBSP (FS..US are not dropped). *)
Definition int_space (c : ascii) : bool :=
  let n := code c in
  (((9 <=? n) && (n <=? 13)) || (n =? 32) || (n =? 133) || (n =? 160))%N.

(** The digits of a base-10 literal as [int()] reads them: a digit first
    and last, single underscores allowed between digits.  [after_digit]
    says that the previous character was a digit. *)
Fixpoint int_digits (s : string) (acc : Z) (after_digit : bool) : option Z :=
  match s with
  | EmptyString => if after_digit then Some acc else None
  | String c s' =>
      if is_digit c then int_digits s' (10 * acc + digit_val c) true
      else if Ascii.eqb c "_" && after_digit then int_digits s' acc false
      else None
  end.

(** [sys.get_int_max_str_digits()]: the limit of the interpreter on the
    digits of a text that [int()] converts, at its default (the program
    does not change it). *)
Definition int_max_str_digits : Z := 4300.

(** The digits of a text: leading zeros count, signs, underscores and
    white space do not. *)
Fixpoint count_digits (s : string) : Z :=
  match s with
  | EmptyString => 0
  | String c s' =>
      if is_digit c then 1 + count_digits s' else count_digits s'
  end.

(** [int(s)] for a [str] argument, [None] for [ValueError]: the white
    space of [int_space] is dropped at both ends, then comes an optional
    sign, then the digits.  A text of more than [int_max_str_digits]
    digits raises [ValueError] too. *)
Definition py_int (s : string) : option Z :=
  let text := strip_of int_space s in
  if int_max_str_digits <? count_digits text then None
  else
    match text with
    | EmptyString => None
    | String c t =>
        if Ascii.eqb c "-" then option_map Z.opp (int_digits t 0 false)
        else if Ascii.eqb c "+" then int_digits t 0 false
        else int_digits (String c t) 0 false
    end.

End PyStr.

(** ** The fragment of [re] the dangerous-command patterns use *)

Module Regex.
Import PyStr.

(** Patterns, with the meaning [re.IGNORECASE] gives them on [str]. *)
Inductive re : Type :=
| Never                      (* matches nothing *)
| Eps                        (* the empty pattern *)
| Lit (c : ascii)            (* a literal character, case folded *)
| Space                      (* \s *)
| Dot                        (* . : any character but the line feed *)
| Any                        (* any character (used by [search] only) *)
| Cat (r1 r2 : re)
| Alt (r1 r2 : re)
| Star (r : re).

(** Case folding of the letters A-Z. *)
Definition fold_case (c : ascii) : ascii :=
  let n := code c in
  if ((65 <=? n) && (n <=? 90))%N then ascii_of_N (n + 32) else c.

Fixpoint nullable (r : re) : bool :=
  match r with
  | Never | Lit _ | Space | Dot | Any => false
  | Eps | Star _ => true
  | Cat r1 r2 => nullable r1 && nullable r2
  | Alt r1 r2 => nullable r1 || nullable r2
  end.

Definition cat (r1 r2 : re) : re :=
  match r1, r2 with
  | Never, _ | _, Never => Never
  | Eps, r | r, Eps => r
  | _, _ => Cat r1 r2
  end.

Definition alt (r1 r2 : re) : re :=
  match r1, r2 with
  | Never, r | r, Never => r
  | _, _ => Alt r1 r2
  end.

(** The patterns that match [s] after [r] has read [c]. *)
Fixpoint deriv (c : ascii) (r : re) : re :=
  match r with
  | Never | Eps => Never
  | Lit d => if Ascii.eqb (fold_case c) (fold_case d) then Eps else Never
  | Space => if isspace c then Eps else Never
  | Dot => if Ascii.eqb c "010" then Never else Eps
  | Any => Eps
  | Cat r1 r2 =>
      if nullable r1 then alt (cat (deriv c r1) r2) (deriv c r2)
      else cat (deriv c r1) r2
  | Alt r1 r2 => alt (deriv c r1) (deriv c r2)
  | Star r1 => cat (deriv c r1) (Star r1)
  end.

(** [re.fullmatch] *)
Fixpoint fullmatch (r : re) (s : string) : bool :=
  match s with
  | EmptyString => nullable r
  | String c s' => fullmatch (deriv c r) s'
  end.

(** [re.search(pattern, s, re.IGNORECASE) is not None]: some substring of
    [s] matches. *)
Definition search (r : re) (s : string) : bool :=
  fullmatch (Cat (Star Any) (Cat r (Star Any))) s.

(** A literal word. *)
Fixpoint lit (s : string) : re :=
  match s with
  | EmptyString => Eps
  | String c s' => Cat (Lit c) (lit s')
  end.

(** [r+] *)
Definition plus (r : re) : re := Cat r (Star r).

End Regex.

(** ** class CronValidator *)

Module CronValidator.
Import PyStr Regex.

(** The third component of the entries of [ranges]. *)
Inductive field_name : Type := Minute | Hour | Day | Month | Weekday.

(** The second component of the result of [validate_schedule]. *)
Inductive schedule_msg : Type :=
| MsgFieldCount                                   (* 必须有5个字段 *)
| MsgStepNotPositive (name : field_name)          (* 的步长必须大于0 *)
| MsgStepFormat (name : field_name)               (* 的步长格式错误 *)
| MsgRangeOutside (name : field_name) (start end_ min_val max_val : Z)
| MsgRangeOrder (name : field_name)               (* 范围起始值不能大于结束值 *)
| MsgRangeFormat (name : field_name)              (* 范围格式错误 *)
| MsgListValueOutside (name : field_name) (v min_val max_val : Z)
| MsgListFormat (name : field_name)               (* 列表格式错误 *)
| MsgValueOutside (name : field_name) (value min_val max_val : Z)
| MsgValueFormat (name : field_name) (part : string)
| MsgSchedulePassed.                              (* 验证通过 *)

Definition ranges : list (Z * Z * field_name) :=
  [ (0, 59, Minute); (0, 23, Hour); (1, 31, Day); (1, 12, Month);
    (0, 7, Weekday) ].

Definition in_range (min_val max_val v : Z) : bool :=
  (min_val <=? v) && (v <=? max_val).

(** [[int(v) for v in l]]: [None] as soon as one [int] raises. *)
Fixpoint ints (l : list string) : option (list Z) :=
  match l with
  | [] => Some []
  | x :: rest =>
      match py_int x with
      | None => None
      | Some v => match ints rest with
                  | None => None
                  | Some vs => Some (v :: vs)
                  end
      end
  end.

(** One turn of the loop over [zip(parts, ranges)]: [None] when the loop
    goes on to the next field, [Some msg] when it returns [False, msg]. *)
Definition check_field (part : string) (r : Z * Z * field_name)
  : option schedule_msg :=
  let '(min_val, max_val, name) := r in
  if String.eqb part "*" then None
  else if startswith "*/" part then
    match py_int (drop 2 part) with
    | Some step => if step <=? 0 then Some (MsgStepNotPositive name) else None
    | None => Some (MsgStepFormat name)
    end
  else if contains "-" part then
    match split_on "-" part with
    | [a; b] =>
        match py_int a, py_int b with
        | Some start, Some end_ =>
            if negb (in_range min_val max_val start
                     && in_range min_val max_val end_)
            then Some (MsgRangeOutside name start end_ min_val max_val)
            else if start >? end_ then Some (MsgRangeOrder name)
            else None
        | _, _ => Some (MsgRangeFormat name)
        end
    | _ => Some (MsgRangeFormat name)
    end
  else if contains "," part then
    match ints (split_on "," part) with
    | Some values =>
        match find (fun v => negb (in_range min_val max_val v)) values with
        | Some v => Some (MsgListValueOutside name v min_val max_val)
        | None => None
        end
    | None => Some (MsgListFormat name)
    end
  else
    match py_int part with
    | Some value =>
        if negb (in_range min_val max_val value)
        then Some (MsgValueOutside name value min_val max_val)
        else None
    | None => Some (MsgValueFormat name part)
    end.

(** The loop: the first field that fails decides the result. *)
Fixpoint check_fields (l : list (string * (Z * Z * field_name)))
  : bool * schedule_msg :=
  match l with
  | [] => (true, MsgSchedulePassed)
  | (part, r) :: rest =>
      match check_field part r with
      | Some msg => (false, msg)
      | None => check_fields rest
      end
  end.

Definition validate_schedule (schedule : string) : bool * schedule_msg :=
  let parts := split_ws schedule in
  if negb (Nat.eqb (length parts) 5) then (false, MsgFieldCount)
  else check_fields (combine parts ranges).

(** The second component of the result of [validate_command]. *)
Inductive command_msg : Type :=
| MsgCommandEmpty                            (* 命令不能为空 *)
| MsgCommandDangerous (command : string)     (* 检测到危险命令 *)
| MsgCommandPassed.                          (* 命令验证通过 *)

Definition dangerous_patterns : list re :=
  [ (* rm\s+-rf\s+/ *)
    Cat (lit "rm") (Cat (plus Space) (Cat (lit "-rf")
         (Cat (plus Space) (lit "/"))));
    (* dd\s+if=.*of=/dev/ *)
    Cat (lit "dd") (Cat (plus Space) (Cat (lit "if=")
         (Cat (Star Dot) (lit "of=/dev/"))));
    (* mkfs\. *)
    lit "mkfs.";
    (* format\s+ *)
    Cat (lit "format") (plus Space) ].

Definition validate_command (command : string) : bool * command_msg :=
  if String.eqb command "" || String.eqb (strip command) ""
  then (false, MsgCommandEmpty)
  else if existsb (fun pattern => search pattern command) dangerous_patterns
  then (false, MsgCommandDangerous command)
  else (true, MsgCommandPassed).

End CronValidator.

(** ** class CronConfig *)

Module CronConfig.
Import PyStr CronValidator.

(** One entry of [jobs]; [None] is an absent key. *)
Record job : Type := {
  name : option string;
  schedule : option string;
  command : option string;
  user : option string;
  enabled : option bool;
  log_stdout : option string;
  log_stderr : option string;
  description : option string
}.

(** One entry of [servers]. *)
Record server_group : Type := {
  group : option string;
  hosts : option (list string)
}.

(** [self.config]; [environment] keeps the insertion order of the
    mapping. *)
Record config : Type := {
  servers : option (list server_group);
  jobs : option (list job);
  environment : option (list (string * string))
}.

(** [server_group.get('group', i)] *)
Inductive group_label : Type :=
| GroupNamed (g : string)
| GroupIndex (i : nat).

(** [job_id]: [f"任务 {i}"] until the name is known. *)
Inductive job_label : Type :=
| JobIndex (i : nat)
| JobNamed (n : string).

(** The entries of [errors]. *)
Inductive error : Type :=
| ErrNoServers                                   (* 缺少 'servers' 配置 *)
| ErrNoJobs                                      (* 缺少 'jobs' 配置 *)
| ErrGroupNoName (i : nat)
| ErrGroupNoHosts (g : group_label)
| ErrGroupHostsEmpty (g : group_label)
| ErrJobNoName (job_id : job_label)
| ErrJobNameRepeated (n : string)
| ErrJobNoSchedule (job_id : job_label)
| ErrJobSchedule (job_id : job_label) (msg : schedule_msg)
| ErrJobNoCommand (job_id : job_label)
| ErrJobCommand (job_id : job_label) (msg : command_msg).

Definition label_of (sg : server_group) (i : nat) : group_label :=
  match group sg with Some g => GroupNamed g | None => GroupIndex i end.

(** The body of the loop over [enumerate(servers)]. *)
Definition check_server_group (i : nat) (sg : server_group) : list error :=
  ((match group sg with None => [ErrGroupNoName i] | Some _ => [] end)
   ++ match hosts sg with
      | None => [ErrGroupNoHosts (label_of sg i)]
      | Some [] => [ErrGroupHostsEmpty (label_of sg i)]
      | Some _ => []
      end)%list.

Fixpoint check_server_groups (i : nat) (l : list server_group) : list error :=
  match l with
  | [] => []
  | sg :: rest =>
      (check_server_group i sg ++ check_server_groups (S i) rest)%list
  end.

Definition mem (x : string) (l : list string) : bool :=
  existsb (String.eqb x) l.

(** The body of the loop over [enumerate(jobs)]: the errors it appends,
    and [job_names] after it. *)
Definition check_job (i : nat) (j : job) (job_names : list string)
  : list error * list string :=
  let '(errs_name, job_names', job_id) :=
    match name j with
    | None => ([ErrJobNoName (JobIndex i)], job_names, JobIndex i)
    | Some n =>
        ((if mem n job_names then [ErrJobNameRepeated n] else []),
         n :: job_names, JobNamed n)
    end in
  let errs_schedule :=
    match schedule j with
    | None => [ErrJobNoSchedule job_id]
    | Some s =>
        let (valid, msg) := validate_schedule s in
        if negb valid then [ErrJobSchedule job_id msg] else []
    end in
  let errs_command :=
    match command j with
    | None => [ErrJobNoCommand job_id]
    | Some c =>
        let (valid, msg) := validate_command c in
        if negb valid then [ErrJobCommand job_id msg] else []
    end in
  ((errs_name ++ errs_schedule ++ errs_command)%list, job_names').

Fixpoint check_jobs (i : nat) (l : list job) (job_names : list string)
  : list error :=
  match l with
  | [] => []
  | j :: rest =>
      let (errs, job_names') := check_job i j job_names in
      (errs ++ check_jobs (S i) rest job_names')%list
  end.

Definition is_nil {A : Type} (l : list A) : bool :=
  match l with [] => true | _ => false end.

Definition validate (cfg : config) : bool * list error :=
  let errors :=
    ((match servers cfg with None => [ErrNoServers] | Some _ => [] end)
     ++ (match jobs cfg with None => [ErrNoJobs] | Some _ => [] end))%list in
  if negb (is_nil errors) then (false, errors)
  else
    let errors :=
      (check_server_groups 0
         (match servers cfg with Some l => l | None => [] end)
       ++ check_jobs 0 (match jobs cfg with Some l => l | None => [] end)
                    [])%list
    in
    (is_nil errors, errors).

Definition same_group (sg : server_group) (g : string) : bool :=
  match group sg with Some g' => String.eqb g' g | None => false end.

(** [get_hosts(group)]: the host lists of the selected groups, one after
    the other. *)
Definition get_hosts (cfg : config) (grp : option string) : list string :=
  flat_map
    (fun sg =>
       if match grp with None => true | Some g => same_group sg g end
       then match hosts sg with Some l => l | None => [] end
       else [])
    (match servers cfg with Some l => l | None => [] end).

Definition is_enabled (j : job) : bool :=
  match enabled j with Some b => b | None => true end.

Definition get_jobs (cfg : config) (enabled_only : bool) : list job :=
  let js := match jobs cfg with Some l => l | None => [] end in
  if enabled_only then filter is_enabled js else js.

(** The truth value of [d.get(key)] for a string value: the key is there
    and the string is not empty. *)
Definition truthy (o : option string) : bool :=
  match o with
  | Some (String _ _) => true
  | _ => false
  end.

Definition text (o : option string) : string :=
  match o with Some s => s | None => "" end.

(** [user and job.get('user') != user]: the job is left out. *)
Definition filtered_out (usr : option string) (j : job) : bool :=
  match usr with
  | Some (String _ _ as u) =>
      match user j with
      | Some u' => negb (String.eqb u' u)
      | None => true
      end
  | _ => false
  end.

(** The command of a job with the redirections added, as lines 241-249
    build it: two updates of [command], one after the other. *)
Definition redirected (j : job) (command0 : string) : string :=
  let command1 :=
    if truthy (log_stdout j)
    then command0 ++ " >> " ++ text (log_stdout j)
    else command0 in
  if truthy (log_stderr j)
  then command1 ++ " 2>> " ++ text (log_stderr j)
  else if truthy (log_stdout j) then command1 ++ " 2>&1"
  else command1.

(** [f"{schedule} {command}"] *)
Definition schedule_line (j : job) (sch cmd : string) : string :=
  sch ++ " " ++ redirected j cmd.

(** The lines one turn of the loop over the jobs appends; [None] when a
    subscript raises [KeyError]. *)
Definition job_lines (j : job) : option (list string) :=
  match name j with
  | None => None
  | Some n =>
      let head := ("# " ++ n)
                  :: match description j with
                     | Some d => ["# " ++ d]
                     | None => []
                     end in
      match schedule j with
      | None => None
      | Some sch =>
          match command j with
          | None => None
          | Some cmd =>
              Some (head ++ [schedule_line j sch cmd; ""])%list
          end
      end
  end.

Fixpoint jobs_lines (usr : option string) (l : list job)
  : option (list string) :=
  match l with
  | [] => Some []
  | j :: rest =>
      if filtered_out usr j then jobs_lines usr rest
      else match job_lines j with
           | None => None
           | Some ls => match jobs_lines usr rest with
                        | None => None
                        | Some more => Some (ls ++ more)%list
                        end
           end
  end.

(** [f"{key}={value}"] *)
Definition environment_line (kv : string * string) : string :=
  fst kv ++ "=" ++ snd kv.

Definition environment_lines (cfg : config) : list string :=
  match environment cfg with
  | Some kvs => (map environment_line kvs ++ [""])%list
  | None => []
  end.

Definition header_lines (now config_file : string) : list string :=
  [ "# Generated by Cron Manager";
    "# Generated at: " ++ now;
    "# Config file: " ++ config_file;
    "" ].

(** [lines] at the end of [generate_crontab].  [now] is the text
    [datetime.now().strftime('%Y-%m-%d %H:%M:%S')] returns at the call. *)
Definition crontab_lines (now config_file : string) (cfg : config)
           (usr : option string) : option (list string) :=
  match jobs_lines usr (get_jobs cfg true) with
  | None => None
  | Some body =>
      Some (header_lines now config_file ++ environment_lines cfg
            ++ body)%list
  end.

Definition newline : string := String "010" EmptyString.

Definition generate_crontab (now config_file : string) (cfg : config)
           (usr : option string) : option string :=
  option_map (join newline) (crontab_lines now config_file cfg usr).

End CronConfig.

(** ** class CronDeployer *)

Module CronDeployer.
Import PyStr.

(** The two [paramiko.SSHClient] objects of one run of [deploy_crontab]:
    its own [client], and the [client] that [backup_crontab] creates. *)
Inductive session : Type := Main | Backup.

(** The calls that leave the process or read its surroundings. *)
Inductive op : Type :=
| Connect (s : session) (host : string)        (* client.connect *)
| ExecCommand (s : session) (cmd : string)     (* client.exec_command *)
| RecvExitStatus (s : session) (cmd : string)  (* channel.recv_exit_status *)
| ReadStdout (s : session) (cmd : string)      (* stdout.read().decode() *)
| ReadStderr (s : session) (cmd : string)      (* stderr.read().decode() *)
| OpenSftp                                     (* client.open_sftp *)
| SftpPut (localpath remotepath : string)      (* sftp.put *)
| SftpClose                                    (* sftp.close *)
| Close (s : session)                          (* client.close *)
| Now                                          (* datetime.now().strftime *)
| GetPid                                       (* os.getpid *)
| TempFile (content : string)                  (* NamedTemporaryFile, write *)
| Unlink (path : string).                      (* os.unlink *)

(** What a call does: it raises an [Exception] whose [str] is [what], or
    it returns (a number, a text, or both; a call uses what it needs). *)
Inductive reply : Type :=
| Raises (what : string)
| Returns (n : Z) (text : string).

(** The host and the machine during one run: the answer to every call. *)
Definition remote : Type := op -> reply.

(** [str(e)] of the exceptions the procedure handles. *)
Inductive exn : Type :=
| Raised (what : string)          (* raised by a call *)
| ConnectFailed (what : string)   (* SSH连接失败: ... *)
| InstallFailed (error : string). (* 安装crontab失败: ... *)

(** The second component of the results. *)
Inductive result_msg : Type :=
| BackupFile (path : string)
| Deployed (line_count : string)  (* 部署成功，共 ... 行 *)
| Failure (e : exn).

Inductive event : Type :=
| Called (o : op) (r : reply)
| Warned (msg : result_msg).      (* 警告: 备份失败 - ... *)

(** Computations: they read the remote side, log what they do, and end in
    a value or in an exception. *)
Definition M (A : Type) : Type := remote -> list event * (exn + A).

Definition ret {A} (a : A) : M A := fun _ => ([], inr a).

Definition raise {A} (e : exn) : M A := fun _ => ([], inl e).

Definition bind {A B} (m : M A) (k : A -> M B) : M B :=
  fun r =>
    let (t1, x) := m r in
    match x with
    | inl e => (t1, inl e)
    | inr a => let (t2, y) := k a r in ((t1 ++ t2)%list, y)
    end.

(** [try: m except Exception as e: h e] *)
Definition try_except {A} (m : M A) (h : exn -> M A) : M A :=
  fun r =>
    let (t1, x) := m r in
    match x with
    | inl e => let (t2, y) := h e r in ((t1 ++ t2)%list, y)
    | inr a => (t1, inr a)
    end.

(** [try: m finally: c]: [c] always runs; when it raises, its exception
    replaces the result of [m]. *)
Definition try_finally {A} (m : M A) (c : M unit) : M A :=
  fun r =>
    let (t1, x) := m r in
    let (t2, y) := c r in
    ((t1 ++ t2)%list, match y with inl e => inl e | inr _ => x end).

Definition call (o : op) : M (Z * string) :=
  fun r =>
    match r o with
    | Raises what => ([Called o (Raises what)], inl (Raised what))
    | Returns n text => ([Called o (Returns n text)], inr (n, text))
    end.

Definition warn (msg : result_msg) : M unit :=
  fun _ => ([Warned msg], inr tt).

Declare Scope deploy_scope.
Delimit Scope deploy_scope with deploy.
Notation "x <- m ;; k" := (bind m (fun x => k))
  (at level 61, m at next level, right associativity) : deploy_scope.
Notation "m ;; k" := (bind m (fun _ => k))
  (at level 61, right associativity) : deploy_scope.
Local Open Scope deploy_scope.

(** [_get_ssh_client]: any exception of [connect] is raised again as
    [Exception(f"SSH连接失败: {str(e)}")]. *)
Definition _get_ssh_client (s : session) (host : string) : M unit :=
  try_except (call (Connect s host) ;; ret tt)
             (fun e => match e with
                       | Raised what => raise (ConnectFailed what)
                       | _ => raise e
                       end).

(** [for cmd in commands: exec_command(cmd); recv_exit_status()] *)
Fixpoint run_commands (s : session) (commands : list string) : M unit :=
  match commands with
  | [] => ret tt
  | cmd :: rest =>
      call (ExecCommand s cmd) ;;
      call (RecvExitStatus s cmd) ;;
      run_commands s rest
  end.

Definition backup_dir : string := "/var/backups/crontab".

Definition backup_commands (user backup_file : string) : list string :=
  [ "mkdir -p " ++ backup_dir;
    "crontab -u " ++ user ++ " -l > " ++ backup_file
      ++ " 2>/dev/null || echo 'No crontab'" ].

Definition backup_crontab (host user : string) : M (bool * result_msg) :=
  try_except
    (_get_ssh_client Backup host ;;
     now <- call Now ;;
     let backup_file := backup_dir ++ "/crontab." ++ user ++ "." ++ snd now in
     run_commands Backup (backup_commands user backup_file) ;;
     call (Close Backup) ;;
     ret (true, BackupFile backup_file))
    (fun e => ret (false, Failure e)).

Definition install_command (user remote_temp : string) : string :=
  "crontab -u " ++ user ++ " " ++ remote_temp ++ " && rm -f " ++ remote_temp.

Definition verify_command (user : string) : string :=
  "crontab -u " ++ user ++ " -l | wc -l".

(** Lines 324-328: the backup, and the warning when it failed. *)
Definition backup_step (host user : string) (backup : bool) : M unit :=
  if backup then
    res <- backup_crontab host user ;;
    if negb (fst res) then warn (snd res) else ret tt
  else ret tt.

(** Lines 335-354: the body of the inner [try]. *)
Definition upload_and_install (user temp_file : string)
  : M (bool * result_msg) :=
  call OpenSftp ;;
  pid <- call GetPid ;;
  let remote_temp := "/tmp/crontab." ++ user ++ "." ++ snd pid in
  call (SftpPut temp_file remote_temp) ;;
  call SftpClose ;;
  let cmd := install_command user remote_temp in
  call (ExecCommand Main cmd) ;;
  exit_code <- call (RecvExitStatus Main cmd) ;;
  (if negb (fst exit_code =? 0)
   then error <- call (ReadStderr Main cmd) ;; raise (InstallFailed (snd error))
   else ret tt) ;;
  call (ExecCommand Main (verify_command user)) ;;
  out <- call (ReadStdout Main (verify_command user)) ;;
  let line_count := strip (snd out) in
  call (Close Main) ;;
  ret (true, Deployed line_count).

(** Lines 330-357: the temporary file, and the inner [try ... finally]
    that removes it. *)
Definition upload_step (crontab_content user : string)
  : M (bool * result_msg) :=
  temp_file <- call (TempFile crontab_content) ;;
  try_finally (upload_and_install user (snd temp_file))
              (call (Unlink (snd temp_file)) ;; ret tt).

Definition deploy_crontab (host crontab_content user : string)
           (backup : bool) : M (bool * result_msg) :=
  try_except
    (_get_ssh_client Main host ;;
     backup_step host user backup ;;
     upload_step crontab_content user)
    (fun e => ret (false, Failure e)).

(** The second component of the result of [get_current_crontab]: the
    text of the crontab (or the text that stands for none), or [str(e)]. *)
Inductive crontab_msg : Type :=
| Content (text : string)
| Error (e : exn).

Definition list_command (user : string) : string :=
  "crontab -u " ++ user ++ " -l".

Definition get_current_crontab (host user : string)
  : M (bool * crontab_msg) :=
  try_except
    (_get_ssh_client Main host ;;
     call (ExecCommand Main (list_command user)) ;;
     exit_code <- call (RecvExitStatus Main (list_command user)) ;;
     if fst exit_code =? 0 then
       content <- call (ReadStdout Main (list_command user)) ;;
       call (Close Main) ;;
       ret (true, Content (snd content))
     else
       call (Close Main) ;;
       ret (true, Content "# No crontab"))
    (fun e => ret (false, Error e)).

(** The sessions a log leaves open: opened by a [connect] that returned,
    and not closed since. *)
Definition session_eqb (a b : session) : bool :=
  match a, b with
  | Main, Main | Backup, Backup => true
  | _, _ => false
  end.

Fixpoint open_sessions (held : list session) (log : list event)
  : list session :=
  match log with
  | [] => held
  | Called (Connect s _) (Returns _ _) :: rest =>
      open_sessions (s :: held) rest
  | Called (Close s) _ :: rest =>
      open_sessions (filter (fun s' => negb (session_eqb s s')) held) rest
  | _ :: rest => open_sessions held rest
  end.

(** A session is closed in a log when [close] is called on it. *)
Definition closes (s : session) (e : event) : bool :=
  match e with
  | Called (Close s') _ => session_eqb s s'
  | _ => false
  end.

Definition opens (s : session) (e : event) : bool :=
  match e with
  | Called (Connect s' _) (Returns _ _) => session_eqb s s'
  | _ => false
  end.

End CronDeployer.

(** ** class CronManager: [deploy] *)

Module CronManager.
Import PyStr CronConfig CronDeployer.

(** One task given to the executor: the host, what the run of
    [deploy_crontab] did, and the result of the future. *)
Record host_run : Type := {
  run_host : string;
  run_log : list event;
  run_result : exn + bool * result_msg
}.

(** What [deploy] prints, the lines per host left out (they come in
    the order of completion, which the executor decides). *)
Inductive printed : Type :=
| PValidationFailed (errors : list error)   (* 配置验证失败，停止部署 *)
| PNoTargetHosts                            (* 错误: 没有目标主机 *)
| PBanner (n_hosts : nat) (max_workers : Z)
| PDryRun (crontab_content : string) (hosts : list string)
| PSummary (success_count failed_count : nat).

(** [main], the deploy command: the host list of the option [--hosts],
    [None] without the option or with an empty text. *)
Definition hosts_argument (arg : option string) : option (list string) :=
  match arg with
  | Some (String _ _ as text) => Some (map strip (split_on "," text))
  | _ => None
  end.

(** How the call ends. *)
Inductive ending : Type :=
| Returned (b : bool)
| KeyError           (* a subscript of [generate_crontab] *)
| ValueError.        (* ThreadPoolExecutor: max_workers must be positive *)

Record report : Type := {
  prints : list printed;
  runs : list host_run;
  ended : ending
}.

(** The task [executor.submit(deployer.deploy_crontab, host,
    crontab_content, ssh_user, backup=True)], run against the remote side
    it meets. *)
Definition run_task (crontab_content ssh_user host : string) (r : remote)
  : host_run :=
  let (log, res) := deploy_crontab host crontab_content ssh_user true r in
  {| run_host := host; run_log := log; run_result := res |}.

(** The tasks in the order of submission; [world i] is the remote side
    the [i]-th task meets. *)
Fixpoint submit_all (crontab_content ssh_user : string) (world : nat -> remote)
         (i : nat) (hosts : list string) : list host_run :=
  match hosts with
  | [] => []
  | host :: rest =>
      run_task crontab_content ssh_user host (world i)
      :: submit_all crontab_content ssh_user world (S i) rest
  end.

Definition succeeded (run : host_run) : bool :=
  match run_result run with
  | inr (true, _) => true
  | _ => false
  end.

(** [if hosts is None: hosts = config.get_hosts()] *)
Definition target_hosts (cfg : config) (hosts : option (list string))
  : list string :=
  match hosts with
  | None => get_hosts cfg None
  | Some l => l
  end.

(** [deploy], for the configuration [load_config(env)] returned.  [now]
    is the clock reading [generate_crontab] takes. *)
Definition deploy (config_file : string) (cfg : config)
           (hosts : option (list string)) (ssh_user : string)
           (dry_run : bool) (max_workers : Z)
           (now : string) (world : nat -> remote) : report :=
  let (valid, errors) := validate cfg in
  if negb valid then
    {| prints := [PValidationFailed errors]; runs := [];
       ended := Returned false |}
  else
    let hosts := target_hosts cfg hosts in
    if is_nil hosts then
      {| prints := [PNoTargetHosts]; runs := []; ended := Returned false |}
    else
      let banner := PBanner (length hosts) max_workers in
      match generate_crontab now config_file cfg None with
      | None => {| prints := [banner]; runs := []; ended := KeyError |}
      | Some crontab_content =>
          if dry_run then
            {| prints := [banner; PDryRun crontab_content hosts];
               runs := []; ended := Returned true |}
          else if max_workers <=? 0 then
            {| prints := [banner]; runs := []; ended := ValueError |}
          else
            let rs := submit_all crontab_content ssh_user world 0 hosts in
            let success_count := length (filter succeeded rs) in
            let failed_count :=
              length (filter (fun run => negb (succeeded run)) rs) in
            {| prints := [banner; PSummary success_count failed_count];
               runs := rs;
               ended := Returned (Nat.eqb failed_count 0) |}
      end.

End CronManager.

(** ** The executor of [deploy]

    [ThreadPoolExecutor(max_workers)] keeps the submitted tasks in a queue
    and has at most [max_workers] threads, each of which takes one task at a
    time from the head of the queue and runs it to its end.  The steps of
    the running tasks interleave in any order. *)

Module Pool.
Import CronDeployer CronManager.

(** A task in a thread: what it has done and what it still does. *)
Record worker : Type := {
  w_run : host_run;
  w_past : list event;
  w_todo : list event
}.

Record state : Type := {
  queue : list host_run;        (* submitted, not started *)
  running : list worker;        (* in flight *)
  completed : list host_run;    (* futures that are done *)
  log : list event              (* every call so far, in order *)
}.

Definition initial (tasks : list host_run) : state :=
  {| queue := tasks; running := []; completed := []; log := [] |}.

Definition fresh (run : host_run) : worker :=
  {| w_run := run; w_past := []; w_todo := run_log run |}.

Inductive step (max_workers : nat) : state -> state -> Prop :=
| step_start : forall run q ws done l,
    (length ws < max_workers)%nat ->
    step max_workers
         {| queue := run :: q; running := ws; completed := done; log := l |}
         {| queue := q; running := (ws ++ [fresh run])%list;
            completed := done; log := l |}
| step_call : forall q ws1 run past e todo ws2 done l,
    step max_workers
         {| queue := q;
            running := (ws1 ++ {| w_run := run; w_past := past;
                                  w_todo := e :: todo |} :: ws2)%list;
            completed := done; log := l |}
         {| queue := q;
            running := (ws1 ++ {| w_run := run; w_past := (past ++ [e])%list;
                                  w_todo := todo |} :: ws2)%list;
            completed := done; log := (l ++ [e])%list |}
| step_finish : forall q ws1 run past ws2 done l,
    step max_workers
         {| queue := q;
            running := (ws1 ++ {| w_run := run; w_past := past;
                                  w_todo := [] |} :: ws2)%list;
            completed := done; log := l |}
         {| queue := q; running := (ws1 ++ ws2)%list;
            completed := (done ++ [run])%list; log := l |}.

Inductive reachable (max_workers : nat) (tasks : list host_run)
  : state -> Prop :=
| reach_initial : reachable max_workers tasks (initial tasks)
| reach_step : forall s s',
    reachable max_workers tasks s -> step max_workers s s' ->
    reachable max_workers tasks s'.

(** The sessions the running tasks hold. *)
Definition held (w : worker) : nat := length (open_sessions [] (w_past w)).

Fixpoint held_by_running (ws : list worker) : nat :=
  match ws with
  | [] => O
  | w :: rest => (held w + held_by_running rest)%nat
  end.

(** The sessions open after a log, whoever opened them: the calls of
    [connect] that returned, less the calls of [close]. *)
Fixpoint sessions_open (l : list event) : Z :=
  match l with
  | [] => 0
  | Called (Connect _ _) (Returns _ _) :: rest => sessions_open rest + 1
  | Called (Close _) _ :: rest => sessions_open rest - 1
  | _ :: rest => sessions_open rest
  end.

End Pool.

(** ** The vocabulary of the specification *)

Module Spec.
Import PyStr CronValidator CronConfig CronDeployer
       CronManager.

(** *** Validation failures, by cause *)

(** Two jobs of the list carry the same name. *)
Definition name_repeated (js : list job) : Prop :=
  exists l1 j1 l2 j2 l3 n,
    js = (l1 ++ j1 :: l2 ++ j2 :: l3)%list
    /\ name j1 = Some n /\ name j2 = Some n.

Inductive job_fails (j : job) : Prop :=
| bad_schedule : forall s,
    schedule j = Some s -> fst (validate_schedule s) = false -> job_fails j
| bad_command : forall c,
    command j = Some c -> fst (validate_command c) = false -> job_fails j
| no_name : name j = None -> job_fails j
| no_schedule : schedule j = None -> job_fails j
| no_command : command j = None -> job_fails j.

(** A server group lacks its name or its hosts, or has no host. *)
Definition group_fails (sg : server_group) : Prop :=
  group sg = None \/ hosts sg = None \/ hosts sg = Some [].

Inductive validation_fails (cfg : config) : Prop :=
| fails_no_servers : servers cfg = None -> validation_fails cfg
| fails_no_jobs : jobs cfg = None -> validation_fails cfg
| fails_group : forall sgs sg,
    servers cfg = Some sgs -> In sg sgs -> group_fails sg ->
    validation_fails cfg
| fails_job : forall js j,
    jobs cfg = Some js -> In j js -> job_fails j -> validation_fails cfg
| fails_repeated : forall js,
    jobs cfg = Some js -> name_repeated js -> validation_fails cfg.

(** The report of a call the validation gate stopped. *)
Definition rejected_by_validation (r : report) : Prop :=
  exists errors, prints r = [PValidationFailed errors].

(** The number of tasks [deploy] ran for an address. *)
Definition times_deployed (address : string) (r : report) : nat :=
  length (filter (fun run => String.eqb (run_host run) address) (runs r)).

End Spec.

(** ** Configurations and remote sides used as examples *)

Module Examples.
Import PyStr CronValidator CronConfig CronDeployer
       CronManager.

Definition plain_job (n s c : string) : job :=
  {| name := Some n; schedule := Some s; command := Some c;
     user := None; enabled := None; log_stdout := None;
     log_stderr := None; description := None |}.

(** Two groups that share the address web-01. *)
Definition shared_host_config : config :=
  {| servers := Some [ {| group := Some "web";
                          hosts := Some ["web-01"; "web-02"] |};
                       {| group := Some "db";
                          hosts := Some ["web-01"] |} ];
     jobs := Some [ plain_job "report" "*/5 * * * *" "echo hi" ];
     environment := Some [("SHELL", "/bin/bash")] |}.

(** A configuration with a minute field out of range. *)
Definition bad_minute_config : config :=
  {| servers := Some [ {| group := Some "web";
                          hosts := Some ["web-01"] |} ];
     jobs := Some [ plain_job "report" "60 * * * *" "echo hi" ];
     environment := None |}.

(** A configuration whose only server group has no host. *)
Definition empty_group_config : config :=
  {| servers := Some [ {| group := Some "web"; hosts := Some [] |} ];
     jobs := Some [ plain_job "report" "*/5 * * * *" "echo hi" ];
     environment := None |}.

(** A valid configuration with no server group at all. *)
Definition no_group_config : config :=
  {| servers := Some [];
     jobs := Some [ plain_job "report" "*/5 * * * *" "echo hi" ];
     environment := None |}.

(** Every call returns. *)
Definition all_fine : remote :=
  fun o =>
    match o with
    | Now => Returns 0 "20240212_103000"
    | GetPid => Returns 0 "4242"
    | TempFile _ => Returns 0 "/tmp/tmpabc"
    | ReadStdout _ _ => Returns 0 "12"
    | _ => Returns 0 ""
    end.

(** The install command ends with status 1. *)
Definition install_fails : remote :=
  fun o =>
    match o with
    | RecvExitStatus Main _ => Returns 1 ""
    | ReadStderr _ _ => Returns 0 "bad minute"
    | _ => all_fine o
    end.

(** The upload raises. *)
Definition upload_fails : remote :=
  fun o =>
    match o with
    | SftpPut _ _ => Raises "Permission denied"
    | _ => all_fine o
    end.

(** The connection of the backup times out. *)
Definition backup_fails : remote :=
  fun o =>
    match o with
    | Connect Backup _ => Raises "timed out"
    | _ => all_fine o
    end.

End Examples.

(** ** Properties of the logs of computations *)

Module Logs.
Import CronDeployer.

(** No event of the log of [m] satisfies [f], whatever the remote side
    answers. *)
Definition quiet {A} (f : event -> bool) (m : M A) : Prop :=
  forall r, existsb f (fst (m r)) = false.

(** When the log of [m] has [client.close()], the call raised or [m]
    returned a success. *)
Definition closed_means_success (m : M (bool * result_msg)) (r : remote)
  : Prop :=
  existsb (closes Main) (fst (m r)) = true ->
  (exists what, r (Close Main) = Raises what)
  \/ exists msg, snd (m r) = inr (true, msg).

(** The number of sessions a log opens. *)
Fixpoint connects (log : list event) : nat :=
  match log with
  | [] => O
  | Called (Connect _ _) (Returns _ _) :: rest => S (connects rest)
  | _ :: rest => connects rest
  end.

(** [m] opens at most [n] sessions, whatever the remote side answers. *)
Definition opens_at_most {A} (n : nat) (m : M A) : Prop :=
  forall r, (connects (fst (m r)) <= n)%nat.

End Logs.

(** ** The vocabulary of the specification of the renderer *)

Module RenderSpec.
Import PyStr CronConfig.

(** A log path is set: the key is there, with a path. *)
Definition path_set (o : option string) (path : string) : Prop :=
  o = Some path /\ path <> "".

(** A log path is not set: the key is absent, or its text is empty. *)
Definition path_unset (o : option string) : Prop :=
  o = None \/ o = Some "".

(** A job the renderer emits: enabled, and not left out by the filter. *)
Definition emitted (cfg : config) (usr : option string) (j : job) : Prop :=
  In j (get_jobs cfg true) /\ filtered_out usr j = false.

Definition no_newline (s : string) : Prop := contains "010" s = false.

(** The text after the first line, the line feed left out. *)
Fixpoint skip_line (s : string) : string :=
  match s with
  | EmptyString => EmptyString
  | String c s' => if Ascii.eqb c "010" then s' else skip_line s'
  end.

(** The text with its second line (the timestamp of the header) cut
    out. *)
Fixpoint without_second_line (s : string) : string :=
  match s with
  | EmptyString => EmptyString
  | String c s' =>
      if Ascii.eqb c "010" then String c (skip_line s')
      else String c (without_second_line s')
  end.

(** The lines of the rendered text after the timestamp line: no clock
    reading goes into them. *)
Definition lines_after_timestamp (config_file : string) (cfg : config)
           (usr : option string) : option (list string) :=
  match jobs_lines usr (get_jobs cfg true) with
  | None => None
  | Some body =>
      Some (("# Config file: " ++ config_file)%string :: ""
            :: environment_lines cfg ++ body)%list
  end.

End RenderSpec.
(** ** A configuration with log paths, used as an example *)

Module RenderExamples.
Import CronConfig.

Definition backup_job : job :=
  {| name := Some "backup"; schedule := Some "0 2 * * *";
     command := Some "/usr/local/bin/backup.sh"; user := Some "root";
     enabled := Some true; log_stdout := Some "/var/log/backup.log";
     log_stderr := None; description := Some "nightly backup" |}.

Definition logged_config : config :=
  {| servers := Some [ {| group := Some "db"; hosts := Some ["db-01"] |} ];
     jobs := Some [ backup_job ];
     environment := Some [("MAILTO", "ops@example.com")] |}.

End RenderExamples.

(** ** The vocabulary of the specification of the schedule validator *)

Module ScheduleSpec.
Import PyStr CronValidator.

Fixpoint all_chars (p : ascii -> bool) (s : string) : bool :=
  match s with
  | EmptyString => true
  | String c s' => p c && all_chars p s'
  end.

(** The value of a row of decimal digits, read from the left. *)
Fixpoint digits_value (s : string) (acc : Z) : Z :=
  match s with
  | EmptyString => acc
  | String c s' => digits_value s' (10 * acc + digit_val c)
  end.

(** Three readings of "the text [t] is the integer [v]". *)

(** A decimal numeral: one decimal digit or more, and nothing else. *)
Definition decimal (t : string) (v : Z) : Prop :=
  t <> "" /\ all_chars is_digit t = true /\ v = digits_value t 0.

(** A decimal numeral within the limit of [int()] on the number of
    digits. *)
Definition short_decimal (t : string) (v : Z) : Prop :=
  decimal t v /\ (String.length t <= 4300)%nat.

(** Any text that [int()] reads. *)
Definition python_int (t : string) (v : Z) : Prop := py_int t = Some v.

(** A text without minus sign that [int()] reads: a decimal numeral that
    may carry a plus sign in front and single underscores between its
    digits. *)
Definition unsigned_int (t : string) (v : Z) : Prop :=
  py_int t = Some v /\ contains "-" t = false.

Section Forms.

Variable is_int : string -> Z -> Prop.

(** The forms of a field whose values range over [lo..hi]. *)
Inductive field_form (lo hi : Z) (f : string) : Prop :=
| form_star : f = "*" -> field_form lo hi f
| form_step : forall t N,
    f = "*/" ++ t -> is_int t N -> 0 < N -> field_form lo hi f
| form_range : forall a b A B,
    f = a ++ "-" ++ b -> is_int a A -> is_int b B ->
    lo <= A <= hi -> lo <= B <= hi -> A <= B -> field_form lo hi f
| form_list : forall elems,
    elems <> [] -> f = join "," elems ->
    Forall (fun e => exists v, is_int e v /\ lo <= v <= hi) elems ->
    field_form lo hi f
| form_single : forall v,
    is_int f v -> lo <= v <= hi -> field_form lo hi f.

(** The text splits into five fields, each of a form of its range. *)
Definition schedule_form (s : string) : Prop :=
  exists f0 f1 f2 f3 f4,
    split_ws s = [f0; f1; f2; f3; f4]
    /\ field_form 0 59 f0 /\ field_form 0 23 f1 /\ field_form 1 31 f2
    /\ field_form 1 12 f3 /\ field_form 0 7 f4.

End Forms.

(** [validate_schedule] succeeds. *)
Definition passes (s : string) : Prop :=
  fst (validate_schedule s) = true.



(** The characters of a text that [int()] reads. *)
Definition int_char (c : ascii) : bool :=
  int_space c || is_digit c || Ascii.eqb c "_" || Ascii.eqb c "+"
  || Ascii.eqb c "-".

(** The characters of a field made of decimal numerals. *)
Definition cron_char (c : ascii) : bool :=
  is_digit c || Ascii.eqb c "*" || Ascii.eqb c "/" || Ascii.eqb c "-"
  || Ascii.eqb c ",".

End ScheduleSpec.

(** ** Inputs for the properties of the schedule validator *)

Module ScheduleExamples.


End ScheduleExamples.

(** ** What holds of every state of the executor *)

Module PoolSpec.
Import CronDeployer CronManager Pool Logs.

(** The threads are [max_workers] at most, and every task, waiting or
    running, opens two sessions at most. *)
Definition invariant (max_workers : nat) (s : state) : Prop :=
  (length (running s) <= max_workers)%nat
  /\ Forall (fun run => (connects (run_log run) <= 2)%nat) (queue s)
  /\ Forall (fun w => (connects (w_past w ++ w_todo w) <= 2)%nat)
            (running s).

End PoolSpec.

(** ** A deployment to one host, used as an example *)

Module PoolExamples.
Import CronConfig CronDeployer CronManager Examples Pool.

Definition one_host_config : config :=
  {| servers := Some [ {| group := Some "web"; hosts := Some ["web-01"] |} ];
     jobs := Some [ plain_job "report" "*/5 * * * *" "echo hi" ];
     environment := None |}.

(** The tasks of the deployment with one worker. *)
Definition one_host_tasks : list host_run :=
  runs (deploy "config/prod.yaml" one_host_config None "root" false 1
               "2024-02-12 10:30:00" (fun _ => all_fine)).

(** The state of the executor after the only task has opened its session
    and the session of the backup. *)
Definition during_backup : state :=
  match one_host_tasks with
  | run :: _ =>
      {| queue := [];
         running := [ {| w_run := run;
                         w_past := firstn 2 (run_log run);
                         w_todo := skipn 2 (run_log run) |} ];
         completed := [];
         log := firstn 2 (run_log run) |}
  | [] => initial []
  end.

End PoolExamples.

(** ** What the patterns of [validate_command] match *)

Module RegexSpec.
Import PyStr Regex CronValidator ScheduleSpec.

(** The texts a pattern matches in full. *)
Inductive matches : re -> string -> Prop :=
| m_eps : matches Eps ""
| m_lit : forall c d,
    fold_case c = fold_case d -> matches (Lit d) (String c "")
| m_space : forall c, isspace c = true -> matches Space (String c "")
| m_dot : forall c, c <> "010"%char -> matches Dot (String c "")
| m_any : forall c, matches Any (String c "")
| m_cat : forall r1 r2 s1 s2,
    matches r1 s1 -> matches r2 s2 -> matches (Cat r1 r2) (s1 ++ s2)
| m_alt_l : forall r1 r2 s, matches r1 s -> matches (Alt r1 r2) s
| m_alt_r : forall r1 r2 s, matches r2 s -> matches (Alt r1 r2) s
| m_star_nil : forall r, matches (Star r) ""
| m_star_cons : forall r s1 s2,
    matches r s1 -> matches (Star r) s2 -> matches (Star r) (s1 ++ s2).

(** Some part of the text matches the pattern. *)
Definition has_match (r : re) (s : string) : Prop :=
  exists a w b, s = a ++ w ++ b /\ matches r w.

(** An empty command, or white space only. *)
Definition blank (command : string) : Prop :=
  all_chars isspace command = true.

(** Some part of the command matches one of the dangerous patterns. *)
Definition dangerous (command : string) : Prop :=
  exists pattern, In pattern dangerous_patterns /\ has_match pattern command.

(** The text with [f] applied to every character. *)
Fixpoint map_chars (f : ascii -> ascii) (s : string) : string :=
  match s with
  | EmptyString => EmptyString
  | String c s' => String (f c) (map_chars f s')
  end.

End RegexSpec.

(** ** The vocabulary of the properties of the configuration *)

Module ConfigSpec.
Import PyStr CronValidator CronConfig.

(** A server group with its name and one host or more. *)
Definition group_ok (sg : server_group) : Prop :=
  (exists g, group sg = Some g) /\ exists h hs, hosts sg = Some (h :: hs).

(** A job with its name, a schedule that validates and a command that
    validates. *)
Definition job_ok (j : job) : Prop :=
  exists n s c,
    name j = Some n /\ schedule j = Some s /\ command j = Some c
    /\ fst (validate_schedule s) = true /\ fst (validate_command c) = true.

(** The names of the jobs that have one, in order. *)
Definition job_names (js : list job) : list string :=
  flat_map (fun j => match name j with Some n => [n] | None => [] end) js.

Definition well_formed (cfg : config) : Prop :=
  exists sgs js,
    servers cfg = Some sgs /\ jobs cfg = Some js
    /\ Forall group_ok sgs /\ Forall job_ok js /\ NoDup (job_names js).

(** The hosts of a group, none for a group without the key. *)
Definition hosts_of (sg : server_group) : list string :=
  match hosts sg with Some l => l | None => [] end.

(** The job is a job of the user [u]. *)
Definition of_user (u : string) (j : job) : bool :=
  match user j with Some u' => String.eqb u' u | None => false end.

(** The configuration with the jobs of the user [u] only. *)
Definition restrict_user (u : string) (cfg : config) : config :=
  {| servers := servers cfg;
     jobs := option_map (filter (of_user u)) (jobs cfg);
     environment := environment cfg |}.

(** The jobs that go into the rendered text. *)
Definition rendered_jobs (cfg : config) (usr : option string) : list job :=
  filter (fun j => is_enabled j && negb (filtered_out usr j))
         (match jobs cfg with Some l => l | None => [] end).

End ConfigSpec.

(** ** More vocabulary of the properties of the renderer *)

Module RenderSpec2.
Import PyStr CronConfig.

(** A list of lines that is empty or ends with an empty line. *)
Definition ends_blank (l : list string) : Prop :=
  l = [] \/ exists pre, l = (pre ++ [""])%list.

End RenderSpec2.

(** ** A configuration with jobs that are not rendered, used as an example *)

Module ConfigExamples.
Import CronConfig Examples.

(** The job of [shared_host_config], a disabled job without command, and
    one server group. *)
Definition one_host_config_with_extras : config :=
  {| servers := Some [ {| group := Some "web"; hosts := Some ["web-09"] |} ];
     jobs := Some [ plain_job "report" "*/5 * * * *" "echo hi";
                    {| name := Some "old"; schedule := Some "0 0 * * *";
                       command := None; user := None;
                       enabled := Some false; log_stdout := None;
                       log_stderr := None; description := None |} ];
     environment := Some [("SHELL", "/bin/bash")] |}.

End ConfigExamples.

(** ** The vocabulary of the properties of the deployer *)

Module DeploySpec.
Import PyStr CronDeployer.

(** A remote side on which no call raises. *)
Definition never_raises (r : remote) : Prop :=
  forall o, exists n text, r o = Returns n text.

(** The number and the text a call returns. *)
Definition reply_code (rep : reply) : Z :=
  match rep with Returns n _ => n | Raises _ => 0 end.

Definition reply_text (rep : reply) : string :=
  match rep with Returns _ text => text | Raises what => what end.

(** The path of the uploaded file on the host. *)
Definition remote_temp_of (r : remote) (user : string) : string :=
  "/tmp/crontab." ++ user ++ "." ++ reply_text (r GetPid).

(** The event writes a temporary file with a content other than
    [content]. *)
Definition writes_other (content : string) (e : event) : bool :=
  match e with
  | Called (TempFile c) _ => negb (String.eqb c content)
  | _ => false
  end.

(** A remote side whose commands all end with status 3. *)
Definition all_status_3 : remote :=
  fun o =>
    match o with
    | Now => Returns 0 "20240212_103000"
    | GetPid => Returns 0 "4242"
    | TempFile _ => Returns 0 "/tmp/tmpabc"
    | RecvExitStatus _ _ => Returns 3 ""
    | ReadStderr _ _ => Returns 0 "no crontab for root"
    | _ => Returns 0 ""
    end.

(** The host cannot be reached. *)
Definition unreachable : remote :=
  fun o =>
    match o with
    | Connect _ _ => Raises "No route to host"
    | _ => Returns 0 ""
    end.

(** The second command of the backup raises. *)
Definition backup_exec_fails : remote :=
  fun o =>
    match o with
    | Now => Returns 0 "20240212_103000"
    | RecvExitStatus Backup _ => Raises "Channel closed"
    | _ => Returns 0 ""
    end.

End DeploySpec.

(** ** [main]: the command [deploy] *)

Module CronMain.
Import PyStr CronConfig CronDeployer CronManager.

(** The exit status of the process: [sys.exit(0 if success else 1)]
    after [deploy] returned, [sys.exit(1)] in the handler of
    [except Exception] when it raised. *)
Definition exit_status (e : ending) : Z :=
  match e with
  | Returned true => 0
  | _ => 1
  end.

(** What [getpass.getpass] does when [main] asks for the password: it
    returns what was typed, or it raises ([EOFError] at the end of the
    input, [KeyboardInterrupt]). *)
Inductive prompt : Type :=
| Typed (password : string)
| PromptRaised.

(** [if not args.ssh_key and not ssh_password]: neither option is given,
    or both are empty. *)
Definition needs_password (ssh_key ssh_password : option string) : bool :=
  negb (truthy ssh_key) && negb (truthy ssh_password).

(** The branch of [main] for the command [deploy]: the option [--hosts]
    is split, the password is asked for when neither a key nor a password
    is given, the configuration is loaded, the deployment runs and its
    result decides the exit status.  [loaded] is what [load_config] does:
    [None] when it ends the process (no file, no YAML) or raises (an empty
    file), which ends with status 1 as an exception of the prompt does;
    there is no report then.  The run is not interrupted from the
    keyboard. *)
Definition main_deploy (config_file : string) (loaded : option config)
           (hosts_option : option string) (ssh_user : string)
           (ssh_key ssh_password : option string) (getpass : prompt)
           (dry_run : bool) (workers : Z)
           (now : string) (world : nat -> remote) : option report * Z :=
  let hosts := hosts_argument hosts_option in
  let asked :=
    if needs_password ssh_key ssh_password then getpass
    else Typed (text ssh_password) in
  match asked, loaded with
  | Typed _, Some cfg =>
      let rep := deploy config_file cfg hosts ssh_user dry_run workers now
                        world in
      (Some rep, exit_status (ended rep))
  | _, _ => (None, 1)
  end.

End CronMain.

(** ** The vocabulary of the properties of the manager *)

Module ManagerSpec.
Import PyStr CronConfig CronDeployer CronManager.

(** How often the character occurs in the text. *)
Fixpoint occurrences (c : ascii) (s : string) : nat :=
  match s with
  | EmptyString => O
  | String x s' =>
      if Ascii.eqb x c then S (occurrences c s') else occurrences c s'
  end.

(** A host name as [main] hands it over: nothing to strip, no comma. *)
Definition host_entry (h : string) : Prop :=
  strip h = h /\ contains "," h = false.

(** The result of the future is a pair, not an exception. *)
Definition returned_pair (run : host_run) : Prop :=
  exists ok msg, run_result run = inr (ok, msg).

End ManagerSpec.


(** ** [cron-monitor.py], class CronMonitor: [get_stats], [check_health] *)

Module CronMonitor.

(** One entry of [self.executions].  The time stamp is a [datetime]; only
    its order matters, so it is a number of seconds. *)
Record execution : Type := {
  timestamp : Z;
  job_name : string;
  status : string;
  exit_code : Z;
  duration : Z
}.

(** A value of [stats['by_job']]. *)
Record job_stats : Type := {
  job_total : nat;
  job_success : nat;
  job_failed : nat;
  job_timeout : nat
}.

(** The default of the [defaultdict]. *)
Definition new_job_stats : job_stats :=
  {| job_total := 0; job_success := 0; job_failed := 0; job_timeout := 0 |}.

Definition bump_total (js : job_stats) : job_stats :=
  {| job_total := S (job_total js); job_success := job_success js;
     job_failed := job_failed js; job_timeout := job_timeout js |}.

Definition bump_success (js : job_stats) : job_stats :=
  {| job_total := job_total js; job_success := S (job_success js);
     job_failed := job_failed js; job_timeout := job_timeout js |}.

Definition bump_failed (js : job_stats) : job_stats :=
  {| job_total := job_total js; job_success := job_success js;
     job_failed := S (job_failed js); job_timeout := job_timeout js |}.

Definition bump_timeout (js : job_stats) : job_stats :=
  {| job_total := job_total js; job_success := job_success js;
     job_failed := job_failed js; job_timeout := S (job_timeout js) |}.

(** [stats['by_job']]: the keys in the order of their insertion. *)
Definition by_job_dict : Type := list (string * job_stats).

Fixpoint lookup (d : by_job_dict) (job : string) : option job_stats :=
  match d with
  | [] => None
  | (k, v) :: rest => if String.eqb k job then Some v else lookup rest job
  end.

(** [d[job][field] += 1]: a key that is missing is inserted with the
    default first. *)
Fixpoint update (d : by_job_dict) (job : string)
         (f : job_stats -> job_stats) : by_job_dict :=
  match d with
  | [] => [(job, f new_job_stats)]
  | (k, v) :: rest =>
      if String.eqb k job then (k, f v) :: rest
      else (k, v) :: update rest job f
  end.

Record stats : Type := {
  total : nat;
  success : nat;
  failed : nat;
  timeout : nat;
  by_job : by_job_dict;
  slowest : list execution;
  recent_failures : list execution
}.

(** [sorted(l, key=key, reverse=True)]: descending, and entries with equal
    keys stay in the order of [l]. *)
Fixpoint insert_desc {A} (key : A -> Z) (x : A) (l : list A) : list A :=
  match l with
  | [] => [x]
  | y :: rest =>
      if key y <=? key x then x :: l else y :: insert_desc key x rest
  end.

Definition sorted_desc {A} (key : A -> Z) (l : list A) : list A :=
  fold_right (insert_desc key) [] l.

(** The body of the loop of [get_stats]. *)
Definition count (st : stats) (exec : execution) : stats :=
  let job := job_name exec in
  let d := update (by_job st) job bump_total in
  if String.eqb (status exec) "SUCCESS" then
    {| total := total st; success := S (success st); failed := failed st;
       timeout := timeout st; by_job := update d job bump_success;
       slowest := slowest st; recent_failures := recent_failures st |}
  else if String.eqb (status exec) "TIMEOUT" then
    {| total := total st; success := success st; failed := failed st;
       timeout := S (timeout st); by_job := update d job bump_timeout;
       slowest := slowest st; recent_failures := recent_failures st |}
  else
    {| total := total st; success := success st; failed := S (failed st);
       timeout := timeout st; by_job := update d job bump_failed;
       slowest := slowest st;
       recent_failures := (recent_failures st ++ [exec])%list |}.

(** [get_stats]; [None] is the empty dictionary. *)
Definition get_stats (executions : list execution) : option stats :=
  match executions with
  | [] => None
  | _ :: _ =>
      let st :=
        fold_left count executions
          {| total := length executions; success := 0; failed := 0;
             timeout := 0; by_job := []; slowest := [];
             recent_failures := [] |} in
      Some
        {| total := total st; success := success st; failed := failed st;
           timeout := timeout st; by_job := by_job st;
           slowest := firstn 10 (sorted_desc duration executions);
           recent_failures :=
             firstn 10
               (sorted_desc timestamp
                  (filter (fun e => negb (String.eqb (status e) "SUCCESS"))
                          executions)) |}
  end.

(** [check_health] once [parse_log] has filled [self.executions]; [None]
    is the [KeyError] of a subscript of the empty dictionary. *)
Definition check_health (executions : list execution) : option bool :=
  match executions with
  | [] => Some true
  | _ :: _ =>
      match get_stats executions with
      | None => None
      | Some st => Some (Nat.eqb (failed st) 0 && Nat.eqb (timeout st) 0)
      end
  end.

End CronMonitor.

(** ** The vocabulary of the properties of the monitor *)

Module MonitorSpec.
Import CronMonitor.

Definition is_success (e : execution) : bool :=
  String.eqb (status e) "SUCCESS".

Definition is_timeout (e : execution) : bool :=
  negb (is_success e) && String.eqb (status e) "TIMEOUT".

Definition is_failure (e : execution) : bool :=
  negb (is_success e) && negb (String.eqb (status e) "TIMEOUT").

Definition of_job (job : string) (e : execution) : bool :=
  String.eqb (job_name e) job.

Definition how_many (p : execution -> bool) (l : list execution) : nat :=
  length (filter p l).

(** The counts of one job, read off the list of executions. *)
Definition job_counts (job : string) (l : list execution) : job_stats :=
  {| job_total := how_many (of_job job) l;
     job_success := how_many (fun e => of_job job e && is_success e) l;
     job_failed := how_many (fun e => of_job job e && is_failure e) l;
     job_timeout := how_many (fun e => of_job job e && is_timeout e) l |}.

Definition stats_of (d : by_job_dict) (job : string) : job_stats :=
  match lookup d job with
  | Some js => js
  | None => new_job_stats
  end.

(** The invariant of the loop of [get_stats] after the executions [l]. *)
Definition tallied (l : list execution) (st : stats) : Prop :=
  success st = how_many is_success l
  /\ failed st = how_many is_failure l
  /\ timeout st = how_many is_timeout l
  /\ NoDup (map fst (by_job st))
  /\ (forall job, In job (map fst (by_job st)) <-> In job (map job_name l))
  /\ (forall job, stats_of (by_job st) job = job_counts job l).

(** No entry of [rest] has a larger key than an entry of [top]. *)
Definition none_above {A} (key : A -> Z) (top rest : list A) : Prop :=
  Forall (fun e' => Forall (fun e => key e' <= key e) top) rest.

Definition descending {A} (key : A -> Z) (l : list A) : Prop :=
  StronglySorted (fun a b => key b <= key a) l.

End MonitorSpec.

Module MonitorExamples.
Import CronMonitor.

Definition one_timeout : list execution :=
  [ {| timestamp := 100; job_name := "backup-db"; status := "SUCCESS";
       exit_code := 0; duration := 120 |};
    {| timestamp := 200; job_name := "backup-db"; status := "TIMEOUT";
       exit_code := 124; duration := 3600 |};
    {| timestamp := 300; job_name := "rotate"; status := "success";
       exit_code := 0; duration := 2 |} ].

End MonitorExamples.


(* ================================================================== *)
(** * Part II.  Lemmas and properties                                  *)
(* ================================================================== *)

Import PyStr CronValidator CronConfig CronDeployer CronManager Spec
       Examples Logs.

(** ** The validation gate of [deploy] *)

Section ValidationGate.

Lemma mem_cons_mono (n m : string) (names : list string) :
  mem n names = true -> mem n (m :: names) = true.
Proof.
  unfold mem; simpl; intros ->; apply orb_true_r.
Qed.

Lemma mem_head (n : string) (names : list string) :
  mem n (n :: names) = true.
Proof.
  unfold mem; simpl; now rewrite String.eqb_refl.
Qed.

(** A job that fails on its own leaves an error, whatever the names seen
    so far. *)
Lemma check_job_fails (i : nat) (j : job) (names : list string) :
  job_fails j -> fst (check_job i j names) <> [].
Proof.
  intros Hj; unfold check_job.
  destruct (name j) as [n|] eqn:En;
    [destruct (mem n names)|]; cbn [fst];
    destruct Hj as [s Hs Hv|c Hc Hv|Hn|Hs|Hc];
    try congruence;
    try (rewrite Hs); try (rewrite Hc);
    try (destruct (validate_schedule s) as [v m]; cbn [fst] in Hv; subst v);
    try (destruct (validate_command c) as [v m]; cbn [fst] in Hv; subst v);
    cbn [negb];
    try discriminate;
    try (intros H; apply app_eq_nil in H; destruct H as [_ H];
         try discriminate;
         apply app_eq_nil in H; destruct H; discriminate).
Qed.

Lemma check_jobs_fails (js : list job) :
  forall i names j, In j js -> job_fails j -> check_jobs i js names <> [].
Proof.
  induction js as [|j0 js IH]; intros i names j Hin Hj; [easy|].
  cbn [check_jobs].
  destruct (check_job i j0 names) as [errs names'] eqn:E.
  destruct Hin as [->|Hin].
  - pose proof (check_job_fails i j names Hj) as H.
    rewrite E in H; cbn [fst] in H.
    intros H0; apply app_eq_nil in H0; tauto.
  - intros H0; apply app_eq_nil in H0; destruct H0 as [_ H0].
    revert H0; eapply IH; eauto.
Qed.

(** The names [check_job] has seen only grow. *)
Lemma check_job_names (i : nat) (j : job) (names : list string) (n : string) :
  mem n names = true \/ name j = Some n ->
  mem n (snd (check_job i j names)) = true.
Proof.
  unfold check_job; intros [H|H].
  - destruct (name j); cbn [snd]; auto using mem_cons_mono.
  - rewrite H; cbn [snd]; apply mem_head.
Qed.

(** A name seen before makes the job that carries it again an error. *)
Lemma check_jobs_seen (js : list job) :
  forall i names j n,
    mem n names = true -> In j js -> name j = Some n ->
    check_jobs i js names <> [].
Proof.
  induction js as [|j0 js IH]; intros i names j n Hm Hin Hn; [easy|].
  cbn [check_jobs].
  destruct (check_job i j0 names) as [errs names'] eqn:E.
  destruct Hin as [->|Hin].
  - unfold check_job in E; rewrite Hn, Hm in E.
    injection E as <- _. discriminate.
  - intros H0; apply app_eq_nil in H0; destruct H0 as [_ H0].
    revert H0; eapply IH; eauto.
    replace names' with (snd (check_job i j0 names)) by now rewrite E.
    apply check_job_names; auto.
Qed.

Lemma check_jobs_repeated (js : list job) :
  name_repeated js -> forall i names, check_jobs i js names <> [].
Proof.
  intros (l1 & j1 & l2 & j2 & l3 & n & -> & H1 & H2).
  induction l1 as [|j0 l1 IH]; intros i names.
  - cbn [app check_jobs].
    destruct (check_job i j1 names) as [errs names'] eqn:E.
    intros H0; apply app_eq_nil in H0; destruct H0 as [_ H0].
    revert H0; apply check_jobs_seen with (j := j2) (n := n); auto.
    + replace names' with (snd (check_job i j1 names)) by now rewrite E.
      apply check_job_names; auto.
    + apply in_or_app; right; now left.
  - cbn [app check_jobs].
    destruct (check_job i j0 names) as [errs names'].
    intros H0; apply app_eq_nil in H0; destruct H0 as [_ H0].
    revert H0; apply IH.
Qed.

(** A server group that fails leaves an error. *)
Lemma check_server_groups_fails (sgs : list server_group) :
  forall i sg, In sg sgs -> group_fails sg -> check_server_groups i sgs <> [].
Proof.
  induction sgs as [|sg0 sgs IH]; intros i sg Hin Hsg; [easy|].
  cbn [check_server_groups]; intros H0; apply app_eq_nil in H0.
  destruct H0 as [H0 H1]; destruct Hin as [->|Hin]; [|eapply IH; eauto].
  revert H0; unfold check_server_group.
  destruct Hsg as [->|[->| ->]]; [discriminate| |];
    destruct (group sg); discriminate.
Qed.

(** Each cause of the specification makes [validate] answer [False]. *)
Lemma validation_fails_validate (cfg : config) :
  validation_fails cfg -> fst (validate cfg) = false.
Proof.
  intros H; unfold validate.
  destruct (servers cfg) as [sgs|] eqn:Es; [|reflexivity].
  destruct (jobs cfg) as [js|] eqn:Ej; [|reflexivity].
  cbn [app is_nil negb fst].
  assert (Hne : check_server_groups 0 sgs <> [] \/ check_jobs 0 js [] <> []).
  { destruct H as [H|H|sgs' sg Hs Hin Hsg|js' j Hjs Hin Hj|js' Hjs Hrep];
      try congruence.
    - rewrite Es in Hs; injection Hs as <-.
      left; eapply check_server_groups_fails; eauto.
    - rewrite Ej in Hjs; injection Hjs as <-.
      right; eapply check_jobs_fails; eauto.
    - rewrite Ej in Hjs; injection Hjs as <-.
      right; now apply check_jobs_repeated. }
  destruct (check_server_groups 0 sgs ++ check_jobs 0 js [])%list eqn:E;
    [|reflexivity].
  apply app_eq_nil in E; tauto.
Qed.

(** When [validate] answers [False], [deploy] prints the errors and
    returns [False]; no task is given to the executor. *)
Lemma deploy_rejects config_file cfg hosts ssh_user dry_run max_workers
      now world :
  fst (validate cfg) = false ->
  deploy config_file cfg hosts ssh_user dry_run max_workers now world
  = {| prints := [PValidationFailed (snd (validate cfg))]; runs := [];
       ended := Returned false |}.
Proof.
  unfold deploy; destruct (validate cfg) as [valid errors]; cbn [fst snd].
  now intros ->.
Qed.

End ValidationGate.

(** C1.  For every configuration in which validation fails (a bad schedule
    field, a bad command pattern, a missing required field of the
    configuration, of a server group or of a job, a job name used twice),
    [deploy] prints the errors and returns [False] at once, and no host is
    attempted: the executor is given no task, so no connection, backup,
    upload or install takes place, for any host list, mode and remote
    side. *)
Theorem deploy_aborts_when_validation_fails :
  forall config_file cfg hosts ssh_user dry_run max_workers now world,
    validation_fails cfg ->
    deploy config_file cfg hosts ssh_user dry_run max_workers now world
    = {| prints := [PValidationFailed (snd (validate cfg))]; runs := [];
         ended := Returned false |}.
Proof.
  intros; apply deploy_rejects, validation_fails_validate; assumption.
Qed.

Lemma deploy_aborts_when_validation_fails_witness :
  validation_fails bad_minute_config
  /\ deploy "config/prod.yaml" bad_minute_config None "root" false 10
            "2024-02-12 10:30:00" (fun _ => all_fine)
     = {| prints := [PValidationFailed (snd (validate bad_minute_config))];
          runs := []; ended := Returned false |}.
Proof.
  assert (H : validation_fails bad_minute_config).
  { apply fails_job
      with (js := [plain_job "report" "60 * * * *" "echo hi"])
           (j := plain_job "report" "60 * * * *" "echo hi").
    - reflexivity.
    - simpl; auto.
    - apply bad_schedule with (s := "60 * * * *"); reflexivity. }
  split; [exact H|].
  apply (deploy_aborts_when_validation_fails
           "config/prod.yaml" bad_minute_config None "root" false 10
           "2024-02-12 10:30:00" (fun _ => all_fine) H).
Defined.

(** ** The target hosts of [deploy] *)

Section TargetHosts.

Lemma check_job_passes (i : nat) (j : job) (names : list string) :
  fst (check_job i j names) = [] -> job_lines j <> None.
Proof.
  unfold check_job, job_lines.
  destruct (name j) as [n|]; [|discriminate].
  destruct (schedule j) as [s|]; cbn [fst].
  - destruct (command j) as [c|]; [discriminate|].
    intros H; apply app_eq_nil in H; destruct H as [_ H].
    apply app_eq_nil in H; destruct H; discriminate.
  - intros H; apply app_eq_nil in H; destruct H as [_ H]; discriminate.
Qed.

Lemma check_jobs_pass (js : list job) :
  forall i names, check_jobs i js names = [] ->
                  Forall (fun j => job_lines j <> None) js.
Proof.
  induction js as [|j js IH]; intros i names H; constructor.
  - cbn [check_jobs] in H.
    destruct (check_job i j names) as [errs names'] eqn:E.
    apply app_eq_nil in H; destruct H as [H _]; subst errs.
    apply (check_job_passes i j names); now rewrite E.
  - cbn [check_jobs] in H.
    destruct (check_job i j names) as [errs names'].
    apply app_eq_nil in H; destruct H as [_ H]; eauto.
Qed.

Lemma jobs_lines_some (usr : option string) (js : list job) :
  Forall (fun j => job_lines j <> None) js -> jobs_lines usr js <> None.
Proof.
  induction 1 as [|j js Hj _ IH]; cbn [jobs_lines]; [discriminate|].
  destruct (filtered_out usr j); [assumption|].
  destruct (job_lines j); [|congruence].
  destruct (jobs_lines usr js); congruence.
Qed.

Lemma Forall_filter {A} (P : A -> Prop) (f : A -> bool) (l : list A) :
  Forall P l -> Forall P (filter f l).
Proof.
  induction 1; simpl; [constructor|].
  destruct (f x); auto.
Qed.

(** A configuration that passes [validate] renders: no subscript of
    [generate_crontab] raises. *)
Lemma validate_generate (cfg : config) (now config_file : string)
      (usr : option string) :
  fst (validate cfg) = true ->
  exists out, generate_crontab now config_file cfg usr = Some out.
Proof.
  unfold validate.
  destruct (servers cfg) as [sgs|]; [|discriminate].
  destruct (jobs cfg) as [js|] eqn:Ej; [|discriminate].
  cbn [app is_nil negb fst].
  destruct (check_server_groups 0 sgs ++ check_jobs 0 js [])%list eqn:E;
    [intros _|discriminate].
  apply app_eq_nil in E; destruct E as [_ E].
  apply check_jobs_pass in E.
  unfold generate_crontab, crontab_lines, get_jobs; rewrite Ej.
  pose proof (jobs_lines_some usr _ (Forall_filter _ is_enabled _ E)) as H.
  destruct (jobs_lines usr (filter is_enabled js)); [|congruence].
  eexists; reflexivity.
Qed.

Lemma submit_all_hosts content ssh_user world (hosts : list string) :
  forall i, map run_host (submit_all content ssh_user world i hosts) = hosts.
Proof.
  induction hosts as [|h hosts IH]; intros i; cbn [submit_all map];
    [reflexivity|].
  rewrite IH; f_equal.
  unfold run_task; now destruct (deploy_crontab h content ssh_user true _).
Qed.

Lemma filter_host_count (address : string) (rs : list host_run) :
  length (filter (fun run => String.eqb (run_host run) address) rs)
  = count_occ string_dec (map run_host rs) address.
Proof.
  induction rs as [|r rs IH]; cbn [filter map count_occ]; [reflexivity|].
  destruct (string_dec (run_host r) address) as [->|Hne].
  - rewrite String.eqb_refl; cbn [length]; now rewrite IH.
  - apply String.eqb_neq in Hne; now rewrite Hne.
Qed.

(** The tasks of a deployment that starts: one per entry of the host
    list. *)
Lemma deploy_runs config_file cfg hosts ssh_user max_workers now world :
  fst (validate cfg) = true -> 0 < max_workers ->
  map run_host
      (runs (deploy config_file cfg hosts ssh_user false max_workers now
                    world))
  = target_hosts cfg hosts.
Proof.
  intros Hv Hw; unfold deploy.
  destruct (validate_generate cfg now config_file None Hv) as [out Hout].
  destruct (validate cfg) as [valid errors]; cbn [fst] in Hv; subst valid.
  cbn [negb].
  destruct (target_hosts cfg hosts) as [|h hs] eqn:Eh; [reflexivity|].
  cbn [is_nil]; rewrite Hout.
  replace (max_workers <=? 0) with false by (symmetry; apply Z.leb_gt; lia).
  cbn [runs]; apply submit_all_hosts.
Qed.

End TargetHosts.

(** C3 (as stated, refuted).  A call with an empty host list is not kept
    apart from a validation failure.  The validation gate comes first, and
    a server group without hosts is itself a validation error: with a
    configuration whose only group has no host, the host groups flatten to
    no host and the call ends as a validation failure. *)
Lemma empty_host_list_rejected_by_validation :
  target_hosts empty_group_config None = []
  /\ deploy "config/prod.yaml" empty_group_config None "root" false 10
            "2024-02-12 10:30:00" (fun _ => all_fine)
     = {| prints := [PValidationFailed
                       [ErrGroupHostsEmpty (GroupNamed "web")]];
          runs := []; ended := Returned false |}
  /\ rejected_by_validation
       (deploy "config/prod.yaml" empty_group_config None "root" false 10
               "2024-02-12 10:30:00" (fun _ => all_fine)).
Proof.
  split; [reflexivity|]; split; [vm_compute; reflexivity|].
  eexists; vm_compute; reflexivity.
Qed.

(** C3 (amended).  When the configuration passes validation and the target
    host list is empty, [deploy] gives the executor no task (there is no
    outcome), prints the no-target-hosts error, which is not the message of
    the validation gate, and returns [False], the value a validation
    failure returns as well. *)
Theorem deploy_without_target_hosts :
  forall config_file cfg hosts ssh_user dry_run max_workers now world,
    fst (validate cfg) = true ->
    target_hosts cfg hosts = [] ->
    deploy config_file cfg hosts ssh_user dry_run max_workers now world
    = {| prints := [PNoTargetHosts]; runs := []; ended := Returned false |}
    /\ ~ rejected_by_validation
         (deploy config_file cfg hosts ssh_user dry_run max_workers now world).
Proof.
  intros config_file cfg hosts ssh_user dry_run max_workers now world Hv Hh.
  assert (E : deploy config_file cfg hosts ssh_user dry_run max_workers now
                     world
              = {| prints := [PNoTargetHosts]; runs := [];
                   ended := Returned false |}).
  { unfold deploy.
    destruct (validate cfg) as [valid errors]; cbn [fst] in Hv; subst valid.
    cbn [negb]; now rewrite Hh. }
  split; [exact E|].
  rewrite E; intros [errors H]; discriminate.
Qed.

Lemma deploy_without_target_hosts_witness :
  fst (validate no_group_config) = true
  /\ target_hosts no_group_config None = []
  /\ deploy "config/prod.yaml" no_group_config None "root" false 10
            "2024-02-12 10:30:00" (fun _ => all_fine)
     = {| prints := [PNoTargetHosts]; runs := []; ended := Returned false |}.
Proof.
  split; [reflexivity|]; split; [reflexivity|].
  apply (deploy_without_target_hosts
           "config/prod.yaml" no_group_config None "root" false 10
           "2024-02-12 10:30:00" (fun _ => all_fine));
    reflexivity.
Defined.

(** C4 (as stated, refuted).  The flattened host list is not deduplicated:
    with the address web-01 in two groups, [get_hosts] lists it twice and
    [deploy] runs the per-host procedure twice for it. *)
Lemma shared_address_deployed_twice :
  get_hosts shared_host_config None = ["web-01"; "web-02"; "web-01"]
  /\ times_deployed "web-01"
       (deploy "config/prod.yaml" shared_host_config None "root" false 10
               "2024-02-12 10:30:00" (fun _ => all_fine))
     = 2%nat.
Proof.
  split; vm_compute; reflexivity.
Qed.

(** C4 (amended).  For every deployment that starts, the tasks given to
    the executor are the entries of the flattened host list, in order and
    with repetitions: an address is deployed once for each time it occurs in
    the list, which is, when no host list is given, the concatenation of the
    host lists of the groups. *)
Theorem deploy_once_per_listed_host :
  forall config_file cfg hosts ssh_user max_workers now world,
    fst (validate cfg) = true -> 0 < max_workers ->
    let report :=
      deploy config_file cfg hosts ssh_user false max_workers now world in
    map run_host (runs report) = target_hosts cfg hosts
    /\ (forall address,
           times_deployed address report
           = count_occ string_dec (target_hosts cfg hosts) address)
    /\ target_hosts cfg None
       = concat (map (fun sg => match CronConfig.hosts sg with
                                | Some l => l
                                | None => []
                                end)
                     (match servers cfg with Some l => l | None => [] end)).
Proof.
  intros config_file cfg hosts ssh_user max_workers now world Hv Hw report.
  pose proof (deploy_runs config_file cfg hosts ssh_user max_workers now
                          world Hv Hw) as Hruns.
  fold report in Hruns.
  split; [exact Hruns|]; split.
  - intros address; unfold times_deployed.
    now rewrite filter_host_count, Hruns.
  - unfold target_hosts, get_hosts; now rewrite flat_map_concat_map.
Qed.

Lemma deploy_once_per_listed_host_witness :
  fst (validate shared_host_config) = true /\ 0 < 10
  /\ map run_host
         (runs (deploy "config/prod.yaml" shared_host_config None "root"
                       false 10 "2024-02-12 10:30:00" (fun _ => all_fine)))
     = ["web-01"; "web-02"; "web-01"].
Proof.
  split; [reflexivity|]; split; [lia|].
  apply (deploy_once_per_listed_host
           "config/prod.yaml" shared_host_config None "root" 10
           "2024-02-12 10:30:00" (fun _ => all_fine));
    [reflexivity | lia].
Defined.

(** ** The per-host procedure *)

Section PerHost.

(** *** How computations that return decompose *)

Lemma bind_returns {A B} (m : M A) (k : A -> M B) r log b :
  bind m k r = (log, inr b) ->
  exists l1 a l2,
    m r = (l1, inr a) /\ k a r = (l2, inr b) /\ log = (l1 ++ l2)%list.
Proof.
  unfold bind; destruct (m r) as [l1 [e|a]]; [discriminate|].
  destruct (k a r) as [l2 y] eqn:E; intros H; injection H as <- ->.
  exists l1, a, l2; auto.
Qed.

Lemma try_finally_returns {A} (m : M A) (c : M unit) r log b :
  try_finally m c r = (log, inr b) ->
  exists l1 l2, m r = (l1, inr b) /\ log = (l1 ++ l2)%list.
Proof.
  unfold try_finally; destruct (m r) as [l1 x]; destruct (c r) as [l2 [e|u]];
    [discriminate|].
  intros H; injection H as <- ->; eauto.
Qed.

Lemma try_except_returns {A} (m : M A) (h : exn -> M A) r log b :
  try_except m h r = (log, inr b) ->
  m r = (log, inr b)
  \/ exists l1 e l2,
      m r = (l1, inl e) /\ h e r = (l2, inr b) /\ log = (l1 ++ l2)%list.
Proof.
  unfold try_except; destruct (m r) as [l1 [e|a]].
  - destruct (h e r) as [l2 y] eqn:E; intros H; injection H as <- ->.
    right; exists l1, e, l2; auto.
  - intros H; injection H as <- <-; auto.
Qed.

Lemma existsb_app_l {A} (f : A -> bool) (l1 l2 : list A) :
  existsb f l1 = true -> existsb f (l1 ++ l2) = true.
Proof.
  intros H; now rewrite existsb_app, H.
Qed.

Lemma existsb_app_r {A} (f : A -> bool) (l1 l2 : list A) :
  existsb f l2 = true -> existsb f (l1 ++ l2) = true.
Proof.
  intros H; rewrite existsb_app, H; apply orb_true_r.
Qed.

(** *** The session of [deploy_crontab] on the path to success *)

(** [upload_and_install] returns only after [client.close()]. *)
Lemma upload_and_install_closes user temp_file r log res :
  upload_and_install user temp_file r = (log, inr res) ->
  existsb (closes Main) log = true.
Proof.
  unfold upload_and_install; intros H.
  do 9 (apply bind_returns in H;
        destruct H as (? & ? & ? & _ & H & ->);
        apply existsb_app_r).
  apply bind_returns in H; destruct H as (l1 & a & l2 & Hc & _ & ->).
  apply existsb_app_l.
  unfold call in Hc; destruct (r (Close Main)); [discriminate|].
  injection Hc as <- _; reflexivity.
Qed.

(** The path that ends in success calls [client.close()]. *)
Lemma success_closes_session (r : remote) host content user backup :
  forall log msg,
    deploy_crontab host content user backup r = (log, inr (true, msg)) ->
    existsb (closes Main) log = true.
Proof.
  intros log msg H; unfold deploy_crontab in H.
  apply try_except_returns in H.
  destruct H as [H|(l1 & e & l2 & _ & H & _)]; [|discriminate].
  apply bind_returns in H; destruct H as (? & ? & ? & _ & H & ->).
  apply bind_returns in H; destruct H as (? & ? & ? & _ & H & ->).
  unfold upload_step in H.
  apply bind_returns in H; destruct H as (? & ? & ? & _ & H & ->).
  apply try_finally_returns in H; destruct H as (? & ? & H & ->).
  do 3 apply existsb_app_r; apply existsb_app_l.
  eapply upload_and_install_closes; eauto.
Qed.

(** *** The backup step *)

Lemma backup_crontab_returns host user r :
  exists log res, backup_crontab host user r = (log, inr res).
Proof.
  unfold backup_crontab, try_except.
  match goal with |- context [let (_, _) := ?m r in _] =>
    destruct (m r) as [l1 [e|a]] end; cbn; eauto.
Qed.

(** With the main session open, the run is: the connection, the backup
    step, then the upload step under the handler of the outer [try]. *)
Lemma deploy_crontab_connected host content user backup r n t lb :
  r (Connect Main host) = Returns n t ->
  backup_step host user backup r = (lb, inr tt) ->
  deploy_crontab host content user backup r
  = let (lu, res) :=
      try_except (upload_step content user)
                 (fun e => ret (false, Failure e)) r in
    ((Called (Connect Main host) (Returns n t) :: lb ++ lu)%list, res).
Proof.
  intros Hc Hb.
  unfold deploy_crontab, try_except, bind at 1, _get_ssh_client, try_except,
    bind at 1, call, ret.
  rewrite Hc; cbn [app].
  unfold bind at 1; rewrite Hb.
  destruct (upload_step content user r) as [lu [e|a]]; cbn;
    rewrite ?app_nil_r, <- ?app_assoc; reflexivity.
Qed.

Lemma backup_step_returns host user backup r :
  exists log, backup_step host user backup r = (log, inr tt).
Proof.
  unfold backup_step; destruct backup; [|eexists; reflexivity].
  destruct (backup_crontab_returns host user r) as (l & [ok msg] & E).
  unfold bind; rewrite E; destruct ok; cbn; eexists; reflexivity.
Qed.

(** *** The session of [deploy_crontab] on the paths to failure *)

(** The rules of [quiet], one per constructor of computations. *)

Lemma quiet_ret {A} f (a : A) : quiet f (ret a).
Proof. intros r; reflexivity. Qed.

Lemma quiet_raise {A} f e : quiet f (@raise A e).
Proof. intros r; reflexivity. Qed.

Lemma quiet_warn f msg : f (Warned msg) = false -> quiet f (warn msg).
Proof. intros H r; cbn; now rewrite H. Qed.

Lemma quiet_call f o :
  (forall rep, f (Called o rep) = false) -> quiet f (call o).
Proof.
  intros H r; unfold call; destruct (r o); cbn; now rewrite H.
Qed.

Lemma quiet_bind {A B} f (m : M A) (k : A -> M B) :
  quiet f m -> (forall a, quiet f (k a)) -> quiet f (bind m k).
Proof.
  intros Hm Hk r; unfold bind; specialize (Hm r).
  destruct (m r) as [l1 [e|a]]; cbn [fst] in *; [assumption|].
  specialize (Hk a r); destruct (k a r) as [l2 y]; cbn [fst] in *.
  now rewrite existsb_app, Hm, Hk.
Qed.

Lemma quiet_try_except {A} f (m : M A) (h : exn -> M A) :
  quiet f m -> (forall e, quiet f (h e)) -> quiet f (try_except m h).
Proof.
  intros Hm Hh r; unfold try_except; specialize (Hm r).
  destruct (m r) as [l1 [e|a]]; cbn [fst] in *; [|assumption].
  specialize (Hh e r); destruct (h e r) as [l2 y]; cbn [fst] in *.
  now rewrite existsb_app, Hm, Hh.
Qed.

Lemma quiet_if {A} f (c : bool) (m1 m2 : M A) :
  quiet f m1 -> quiet f m2 -> quiet f (if c then m1 else m2).
Proof. now destruct c. Qed.

Lemma quiet_run_commands f s commands :
  (forall cmd rep, f (Called (ExecCommand s cmd) rep) = false) ->
  (forall cmd rep, f (Called (RecvExitStatus s cmd) rep) = false) ->
  quiet f (run_commands s commands).
Proof.
  intros H1 H2; induction commands as [|cmd rest IH]; cbn [run_commands].
  - apply quiet_ret.
  - repeat (apply quiet_bind; [apply quiet_call; auto|intros _]).
    exact IH.
Qed.

Lemma quiet_get_ssh_client f s host :
  (forall rep, f (Called (Connect s host) rep) = false) ->
  quiet f (_get_ssh_client s host).
Proof.
  intros H; apply quiet_try_except.
  - apply quiet_bind; [now apply quiet_call|intros _; apply quiet_ret].
  - intros []; apply quiet_raise.
Qed.

Create HintDb quiet.
Hint Resolve quiet_ret quiet_raise quiet_warn quiet_bind quiet_try_except
  quiet_if quiet_call quiet_run_commands quiet_get_ssh_client : quiet.
Hint Extern 1 (forall _, _ = false) => intros; reflexivity : quiet.
Hint Extern 1 (_ = false) => reflexivity : quiet.

(** The backup step closes its own session only. *)
Lemma backup_step_keeps_main host user backup :
  quiet (closes Main) (backup_step host user backup).
Proof.
  unfold backup_step, backup_crontab; destruct backup; auto 12 with quiet.
Qed.

Lemma closed_bind {A} (m : M A) (k : A -> M (bool * result_msg)) r :
  quiet (closes Main) m ->
  (forall a, closed_means_success (k a) r) ->
  closed_means_success (bind m k) r.
Proof.
  intros Hm Hk; unfold closed_means_success, bind; specialize (Hm r).
  destruct (m r) as [l1 [e|a]]; cbn [fst snd] in *; [congruence|].
  specialize (Hk a); unfold closed_means_success in Hk.
  destruct (k a r) as [l2 y]; cbn [fst snd] in *.
  rewrite existsb_app, Hm; exact Hk.
Qed.

(** When the log of [upload_and_install] has [client.close()], either the
    call raised or the result is a success. *)
Lemma upload_and_install_closed user temp_file r :
  closed_means_success (upload_and_install user temp_file) r.
Proof.
  unfold upload_and_install.
  do 9 (apply closed_bind; [auto with quiet|intros ?]).
  intros _; unfold bind, call, ret.
  destruct (r (Close Main)) as [what|n t]; [left|right; cbn]; eauto.
Qed.

(** Every run that ends in failure, other than by an exception of
    [client.close()] or of [os.unlink], ends without [client.close()]. *)
Lemma failure_leaves_session_open r host content user backup log e :
  deploy_crontab host content user backup r = (log, inr (false, Failure e)) ->
  (forall what, r (Close Main) <> Raises what) ->
  (forall path what, r (Unlink path) <> Raises what) ->
  existsb (closes Main) log = false.
Proof.
  intros H Hclose Hunlink.
  destruct (r (Connect Main host)) as [what|n t] eqn:Ec.
  - revert H; unfold deploy_crontab, try_except, bind, _get_ssh_client,
      try_except, bind, call, raise, ret; rewrite Ec; cbn.
    intros H; injection H as <- _; reflexivity.
  - destruct (backup_step_returns host user backup r) as [lb Hb].
    rewrite (deploy_crontab_connected _ _ _ _ _ _ _ _ Ec Hb) in H.
    pose proof (backup_step_keeps_main host user backup r) as Hkeep.
    rewrite Hb in Hkeep; cbn [fst] in Hkeep.
    revert H; unfold try_except, upload_step, bind, call.
    destruct (r (TempFile content)) as [what|k tf]; cbn.
    + intros H; injection H as <- _.
      cbn; rewrite existsb_app, Hkeep; reflexivity.
    + unfold try_finally, bind, call, ret.
      pose proof (upload_and_install_closed user tf r) as Hu.
      unfold closed_means_success in Hu.
      destruct (upload_and_install user tf r) as [lu res].
      cbn [fst snd] in Hu.
      destruct (r (Unlink tf)) as [what|k' t'] eqn:Eu;
        [exfalso; eapply Hunlink; eauto|].
      cbn [app].
      destruct res as [e'|a]; intros H; injection H as <- Ha;
        rewrite ?app_nil_r;
        repeat (rewrite ?existsb_app, ?Hkeep;
                cbn [existsb closes session_eqb orb]);
        rewrite ?orb_false_r;
        (destruct (existsb (closes Main) lu) eqn:Elu; [|reflexivity]);
        (destruct (Hu eq_refl) as [[what Hw]|[msg Hm]];
         [exfalso; eapply Hclose; eauto|]);
        [discriminate|].
      subst a; discriminate.
Qed.

End PerHost.

(** C2 (the code departs from it).  The session of [deploy_crontab] is not
    closed on the paths that fail.  With an install command that ends with
    status 1, and with an upload that raises, the run opens the session,
    returns a failed outcome, and its log has no [client.close()]: the
    session is still open when the procedure returns. *)
Theorem session_left_open_on_failure :
  (let (log, res) :=
     deploy_crontab "web-01" "CONTENT" "root" true install_fails in
   res = inr (false, Failure (InstallFailed "bad minute"))
   /\ existsb (opens Main) log = true
   /\ existsb (closes Main) log = false
   /\ open_sessions [] log = [Main])
  /\ (let (log, res) :=
        deploy_crontab "web-01" "CONTENT" "root" true upload_fails in
      res = inr (false, Failure (Raised "Permission denied"))
      /\ existsb (opens Main) log = true
      /\ existsb (closes Main) log = false
      /\ open_sessions [] log = [Main]).
Proof.
  vm_compute; repeat split.
Qed.

(** C8.  For every per-host deployment with backup requested in which the
    main session opens and the backup step fails, the run goes on: a
    warning is emitted, then the upload step (the upload and the install)
    runs as it does in a deployment without backup, and the outcome of the
    host is the outcome of that deployment. *)
Theorem backup_failure_does_not_abort :
  forall r host content user n t log_b msg,
    r (Connect Main host) = Returns n t ->
    backup_crontab host user r = (log_b, inr (false, msg)) ->
    let (steps, res) :=
      try_except (upload_step content user)
                 (fun e => ret (false, Failure e)) r in
    deploy_crontab host content user true r
    = ((Called (Connect Main host) (Returns n t) :: log_b
        ++ Warned msg :: steps)%list, res)
    /\ deploy_crontab host content user false r
       = (Called (Connect Main host) (Returns n t) :: steps, res).
Proof.
  intros r host content user n t log_b msg Hc Hb.
  assert (Hstep : backup_step host user true r
                  = ((log_b ++ [Warned msg])%list, inr tt)).
  { unfold backup_step, bind; rewrite Hb; reflexivity. }
  rewrite (deploy_crontab_connected _ content _ _ _ _ _ _ Hc Hstep).
  rewrite (deploy_crontab_connected host content user false r n t []
             Hc eq_refl).
  destruct (try_except (upload_step content user) _ r) as [steps res].
  rewrite <- app_assoc; split; reflexivity.
Qed.

Lemma backup_failure_does_not_abort_witness :
  backup_fails (Connect Main "web-01") = Returns 0 ""
  /\ backup_crontab "web-01" "root" backup_fails
     = ([Called (Connect Backup "web-01") (Raises "timed out")],
        inr (false, Failure (ConnectFailed "timed out")))
  /\ snd (deploy_crontab "web-01" "CONTENT" "root" true backup_fails)
     = inr (true, Deployed "12").
Proof.
  split; [reflexivity|]; split; [reflexivity|].
  pose proof (backup_failure_does_not_abort
                backup_fails "web-01" "CONTENT" "root" 0 ""
                [Called (Connect Backup "web-01") (Raises "timed out")]
                (Failure (ConnectFailed "timed out"))
                eq_refl eq_refl) as H.
  destruct (try_except (upload_step "CONTENT" "root") _ backup_fails)
    as [steps res] eqn:E.
  destruct H as [H _]; rewrite H; cbn [snd].
  vm_compute in E; injection E as _ <-; reflexivity.
Defined.

(** ** The renderer *)

Import RenderSpec RenderExamples.

Section Renderer.

Lemma truthy_set (o : option string) (path : string) :
  path_set o path -> truthy o = true /\ text o = path.
Proof.
  intros [-> Hne]; destruct path; [congruence|]; split; reflexivity.
Qed.

Lemma truthy_unset (o : option string) : path_unset o -> truthy o = false.
Proof.
  intros [->| ->]; reflexivity.
Qed.

(** The three cases of the redirection the specification lists. *)
Lemma redirected_cases (j : job) (cmd : string) :
  (forall p1 p2,
      path_set (log_stdout j) p1 -> path_set (log_stderr j) p2 ->
      redirected j cmd = (cmd ++ " >> " ++ p1) ++ " 2>> " ++ p2)
  /\ (forall p1,
         path_set (log_stdout j) p1 -> path_unset (log_stderr j) ->
         redirected j cmd = (cmd ++ " >> " ++ p1) ++ " 2>&1")
  /\ (path_unset (log_stdout j) -> path_unset (log_stderr j) ->
      redirected j cmd = cmd).
Proof.
  unfold redirected; repeat split.
  - intros p1 p2 H1 H2.
    destruct (truthy_set _ _ H1) as [-> ->].
    destruct (truthy_set _ _ H2) as [-> ->]; reflexivity.
  - intros p1 H1 H2.
    destruct (truthy_set _ _ H1) as [-> ->].
    rewrite (truthy_unset _ H2); reflexivity.
  - intros H1 H2.
    rewrite (truthy_unset _ H1), (truthy_unset _ H2); reflexivity.
Qed.

(** The case the specification leaves out: a path for stderr only. *)
Lemma redirected_stderr_only (j : job) (cmd p2 : string) :
  path_unset (log_stdout j) -> path_set (log_stderr j) p2 ->
  redirected j cmd = cmd ++ " 2>> " ++ p2.
Proof.
  intros H1 H2; unfold redirected.
  rewrite (truthy_unset _ H1).
  destruct (truthy_set _ _ H2) as [-> ->]; reflexivity.
Qed.

(** The lines of a job that is not filtered out are lines of the body. *)
Lemma jobs_lines_In (usr : option string) (js : list job) :
  forall body j,
    jobs_lines usr js = Some body ->
    In j js -> filtered_out usr j = false ->
    exists ls, job_lines j = Some ls /\ incl ls body.
Proof.
  induction js as [|j0 js IH]; intros body j Hb Hin Hf; [easy|].
  cbn [jobs_lines] in Hb.
  destruct Hin as [->|Hin].
  - rewrite Hf in Hb.
    destruct (job_lines j) as [ls|]; [|discriminate].
    destruct (jobs_lines usr js) as [more|]; [|discriminate].
    injection Hb as <-; exists ls; split; [reflexivity|].
    apply incl_appl, incl_refl.
  - destruct (filtered_out usr j0); [eauto|].
    destruct (job_lines j0) as [ls0|]; [|discriminate].
    destruct (jobs_lines usr js) as [more|] eqn:Em; [|discriminate].
    injection Hb as <-.
    destruct (IH more j eq_refl Hin Hf) as (ls & Hls & Hincl).
    exists ls; split; [assumption|].
    apply incl_appr; assumption.
Qed.

Lemma job_lines_schedule_line (j : job) (ls : list string) :
  job_lines j = Some ls ->
  exists n sch cmd,
    name j = Some n /\ schedule j = Some sch /\ command j = Some cmd
    /\ In (schedule_line j sch cmd) ls.
Proof.
  unfold job_lines.
  destruct (name j) as [n|]; [|discriminate].
  destruct (schedule j) as [sch|]; [|discriminate].
  destruct (command j) as [cmd|]; [|discriminate].
  intros H; injection H as <-.
  exists n, sch, cmd.
  do 3 (split; [reflexivity|]).
  right; apply in_or_app; right; now left.
Qed.

(** *** The clock in the rendered text *)

Lemma crontab_lines_shape now config_file cfg usr :
  crontab_lines now config_file cfg usr
  = option_map (fun rest => "# Generated by Cron Manager"
                            :: ("# Generated at: " ++ now) :: rest)
               (lines_after_timestamp config_file cfg usr).
Proof.
  unfold crontab_lines, lines_after_timestamp.
  destruct (jobs_lines usr (get_jobs cfg true)); reflexivity.
Qed.

Lemma skip_line_app (a b : string) :
  no_newline a -> skip_line (a ++ String "010" b) = b.
Proof.
  unfold no_newline; induction a as [|c a IH]; cbn; [reflexivity|].
  destruct (Ascii.eqb c "010"); [discriminate|]; exact IH.
Qed.

Lemma no_newline_timestamp_line (now : string) :
  no_newline now -> no_newline ("# Generated at: " ++ now).
Proof.
  intros H; exact H.
Qed.

(** The rendered text with the timestamp line cut out does not depend on
    the clock reading. *)
Lemma without_timestamp rest now :
  no_newline now ->
  without_second_line
    (join newline ("# Generated by Cron Manager"
                   :: ("# Generated at: " ++ now) :: rest))
  = "# Generated by Cron Manager" ++ newline
    ++ match rest with [] => "" | _ => join newline rest end.
Proof.
  intros H.
  destruct rest as [|l2 rest].
  - cbn -[skip_line]. repeat f_equal.
    revert H; unfold no_newline; clear.
    assert (G : forall s, contains "010" s = false -> skip_line s = "").
    { induction s as [|c s IH]; cbn; [reflexivity|].
      destruct (Ascii.eqb c "010"); [discriminate|]; exact IH. }
    intros H; apply (G ("# Generated at: " ++ now)); exact H.
  - change (join newline ("# Generated by Cron Manager"
                          :: ("# Generated at: " ++ now) :: l2 :: rest))
      with ("# Generated by Cron Manager" ++ newline
            ++ (("# Generated at: " ++ now)
                ++ String "010" (join newline (l2 :: rest)))).
    cbn -[skip_line join].
    repeat f_equal.
    apply skip_line_app, no_newline_timestamp_line, H.
Qed.

End Renderer.

(** C6.  For every enabled job the renderer emits, the line
    [<schedule> <command>] of the job is in the rendered lines with the
    redirection appended to the command: with a stdout path and a stderr
    path, [ >> <path>] then [ 2>> <path>]; with a stdout path only,
    [ >> <path>] then [ 2>&1]; with neither, nothing.  (A path is set when
    the key is there with a text that is not empty.) *)
Theorem redirection_appended_to_command :
  forall now config_file cfg usr lines j,
    crontab_lines now config_file cfg usr = Some lines ->
    emitted cfg usr j ->
    exists sch cmd out,
      schedule j = Some sch /\ command j = Some cmd
      /\ In (sch ++ " " ++ out) lines
      /\ (forall p1 p2,
             path_set (log_stdout j) p1 -> path_set (log_stderr j) p2 ->
             out = (cmd ++ " >> " ++ p1) ++ " 2>> " ++ p2)
      /\ (forall p1,
             path_set (log_stdout j) p1 -> path_unset (log_stderr j) ->
             out = (cmd ++ " >> " ++ p1) ++ " 2>&1")
      /\ (path_unset (log_stdout j) -> path_unset (log_stderr j) ->
          out = cmd).
Proof.
  intros now config_file cfg usr lines j Hl [Hin Hf].
  unfold crontab_lines in Hl.
  destruct (jobs_lines usr (get_jobs cfg true)) as [body|] eqn:Eb;
    [|discriminate].
  assert (E : lines = (header_lines now config_file
                       ++ environment_lines cfg ++ body)%list)
    by congruence.
  rewrite E; clear E Hl.
  destruct (jobs_lines_In usr _ body j Eb Hin Hf) as (ls & Hls & Hincl).
  destruct (job_lines_schedule_line j ls Hls)
    as (n & sch & cmd & _ & Hs & Hc & Hline).
  exists sch, cmd, (redirected j cmd).
  split; [assumption|]; split; [assumption|]; split.
  - apply in_or_app; right; apply in_or_app; right.
    apply Hincl; exact Hline.
  - apply redirected_cases.
Qed.

Lemma redirection_appended_to_command_witness :
  crontab_lines "2024-02-12 10:30:00" "config/prod.yaml" logged_config None
  = Some [ "# Generated by Cron Manager";
           "# Generated at: 2024-02-12 10:30:00";
           "# Config file: config/prod.yaml";
           "";
           "MAILTO=ops@example.com";
           "";
           "# backup";
           "# nightly backup";
           "0 2 * * * /usr/local/bin/backup.sh >> /var/log/backup.log 2>&1";
           "" ]
  /\ emitted logged_config None backup_job
  /\ exists sch cmd out,
      schedule backup_job = Some sch /\ command backup_job = Some cmd
      /\ In (sch ++ " " ++ out)
            [ "# Generated by Cron Manager";
              "# Generated at: 2024-02-12 10:30:00";
              "# Config file: config/prod.yaml";
              "";
              "MAILTO=ops@example.com";
              "";
              "# backup";
              "# nightly backup";
              "0 2 * * * /usr/local/bin/backup.sh >> /var/log/backup.log 2>&1";
              "" ]
      /\ (forall p1 p2,
             path_set (log_stdout backup_job) p1 ->
             path_set (log_stderr backup_job) p2 ->
             out = (cmd ++ " >> " ++ p1) ++ " 2>> " ++ p2)
      /\ (forall p1,
             path_set (log_stdout backup_job) p1 ->
             path_unset (log_stderr backup_job) ->
             out = (cmd ++ " >> " ++ p1) ++ " 2>&1")
      /\ (path_unset (log_stdout backup_job) ->
          path_unset (log_stderr backup_job) ->
          out = cmd).
Proof.
  assert (H1 : crontab_lines "2024-02-12 10:30:00" "config/prod.yaml"
                             logged_config None
               = Some [ "# Generated by Cron Manager";
                        "# Generated at: 2024-02-12 10:30:00";
                        "# Config file: config/prod.yaml";
                        "";
                        "MAILTO=ops@example.com";
                        "";
                        "# backup";
                        "# nightly backup";
                        "0 2 * * * /usr/local/bin/backup.sh >> /var/log/backup.log 2>&1";
                        "" ]) by reflexivity.
  assert (H2 : emitted logged_config None backup_job)
    by (split; [simpl; auto | reflexivity]).
  split; [exact H1|]; split; [exact H2|].
  exact (redirection_appended_to_command _ _ _ _ _ _ H1 H2).
Defined.

(** C7.  For every configuration, configuration file name and user
    filter, the clock reading goes into the timestamp line of the header
    and nowhere else: the rendered lines are two header lines, the second
    made of the clock reading, followed by lines that no clock reading
    enters.  So two renderings agree byte for byte once that line is cut
    out, and are identical when the clock reading is held constant. *)
Theorem rendering_is_deterministic :
  forall config_file cfg usr now1 now2,
    no_newline now1 -> no_newline now2 ->
    option_map without_second_line
               (generate_crontab now1 config_file cfg usr)
    = option_map without_second_line
                 (generate_crontab now2 config_file cfg usr)
    /\ (forall now,
           crontab_lines now config_file cfg usr
           = option_map (fun rest => "# Generated by Cron Manager"
                                     :: ("# Generated at: " ++ now) :: rest)
                        (lines_after_timestamp config_file cfg usr))
    /\ (now1 = now2 ->
        generate_crontab now1 config_file cfg usr
        = generate_crontab now2 config_file cfg usr).
Proof.
  intros config_file cfg usr now1 now2 H1 H2; repeat split.
  - unfold generate_crontab; rewrite !crontab_lines_shape.
    destruct (lines_after_timestamp config_file cfg usr) as [rest|];
      [|reflexivity].
    cbn [option_map]; now rewrite !without_timestamp.
  - intros now; apply crontab_lines_shape.
  - now intros ->.
Qed.

Lemma rendering_is_deterministic_witness :
  no_newline "2024-02-12 10:30:00" /\ no_newline "2031-07-01 23:59:59"
  /\ option_map without_second_line
                (generate_crontab "2024-02-12 10:30:00" "config/prod.yaml"
                                  logged_config None)
     = option_map without_second_line
                  (generate_crontab "2031-07-01 23:59:59" "config/prod.yaml"
                                    logged_config None).
Proof.
  split; [reflexivity|]; split; [reflexivity|].
  apply (rendering_is_deterministic
           "config/prod.yaml" logged_config None
           "2024-02-12 10:30:00" "2031-07-01 23:59:59");
    reflexivity.
Defined.

(** ** The string primitives *)

Import ScheduleSpec ScheduleExamples.

Section Strings.

Lemma append_nil_r (s : string) : s ++ "" = s.
Proof.
  induction s as [|c s IH]; cbn; [reflexivity|now rewrite IH].
Qed.

Lemma append_assoc (a b c : string) : (a ++ b) ++ c = a ++ b ++ c.
Proof.
  induction a as [|x a IH]; cbn; [reflexivity|now rewrite IH].
Qed.

Lemma contains_app (c : ascii) (a b : string) :
  contains c (a ++ b) = contains c a || contains c b.
Proof.
  induction a as [|x a IH]; cbn; [reflexivity|].
  now rewrite IH, orb_assoc.
Qed.

Lemma all_chars_app (p : ascii -> bool) (a b : string) :
  all_chars p (a ++ b) = all_chars p a && all_chars p b.
Proof.
  induction a as [|x a IH]; cbn; [reflexivity|].
  now rewrite IH, andb_assoc.
Qed.

(** A text all of whose characters satisfy [p] has no character that
    does not. *)
Lemma all_chars_contains (p : ascii -> bool) (c : ascii) (s : string) :
  all_chars p s = true -> p c = false -> contains c s = false.
Proof.
  intros Hs Hc; induction s as [|x s IH]; cbn in *; [reflexivity|].
  apply andb_true_iff in Hs; destruct Hs as [Hx Hs].
  rewrite (IH Hs), orb_false_r.
  apply Ascii.eqb_neq; intros ->; congruence.
Qed.

Lemma all_chars_weaken (p q : ascii -> bool) (s : string) :
  (forall c, p c = true -> q c = true) ->
  all_chars p s = true -> all_chars q s = true.
Proof.
  intros Hpq; induction s as [|x s IH]; cbn; [reflexivity|].
  intros H; apply andb_true_iff in H; destruct H as [Hx Hs].
  now rewrite (Hpq _ Hx), IH.
Qed.

(** *** [s.split(sep)] *)

Lemma split_on_cons (sep c : ascii) (s : string) :
  split_on sep (String c s)
  = if Ascii.eqb c sep then "" :: split_on sep s
    else match split_on sep s with
         | w :: ws => String c w :: ws
         | [] => [String c ""]
         end.
Proof.
  unfold split_on; cbn [pieces].
  destruct (pieces sep s) as [w ws]; now destruct (Ascii.eqb c sep).
Qed.

Lemma split_on_not_nil (sep : ascii) (s : string) : split_on sep s <> [].
Proof.
  unfold split_on; now destruct (pieces sep s).
Qed.

(** A text without the separator is one piece. *)
Lemma split_on_whole (sep : ascii) (s : string) :
  contains sep s = false -> split_on sep s = [s].
Proof.
  induction s as [|c s IH]; [reflexivity|].
  cbn [contains]; intros H; apply orb_false_iff in H; destruct H as [Hc Hs].
  rewrite split_on_cons, Hc, (IH Hs); reflexivity.
Qed.

(** The first separator ends the first piece. *)
Lemma split_on_app (sep : ascii) (a b : string) :
  contains sep a = false ->
  split_on sep (a ++ String sep b) = a :: split_on sep b.
Proof.
  induction a as [|c a IH]; cbn [append contains]; intros H.
  - now rewrite split_on_cons, Ascii.eqb_refl.
  - apply orb_false_iff in H; destruct H as [Hc Ha].
    now rewrite split_on_cons, Hc, (IH Ha).
Qed.

(** Joining the pieces gives the text back. *)
Lemma join_split_on (sep : ascii) (s : string) :
  join (String sep "") (split_on sep s) = s.
Proof.
  induction s as [|c s IH]; [reflexivity|].
  rewrite split_on_cons.
  destruct (Ascii.eqb c sep) eqn:E.
  - apply Ascii.eqb_eq in E; subst c.
    pose proof (split_on_not_nil sep s) as Hne.
    destruct (split_on sep s) as [|w ws]; [congruence|].
    cbn [join append] in *; now rewrite IH.
  - pose proof (split_on_not_nil sep s) as Hne.
    destruct (split_on sep s) as [|w ws]; [congruence|].
    destruct ws as [|w' ws]; cbn [join append] in *; now rewrite IH.
Qed.

(** No piece has the separator. *)
Lemma split_on_pieces (sep : ascii) (s : string) :
  Forall (fun p => contains sep p = false) (split_on sep s).
Proof.
  induction s as [|c s IH]; [repeat constructor|].
  rewrite split_on_cons.
  destruct (Ascii.eqb c sep) eqn:E; [constructor; [reflexivity|exact IH]|].
  destruct (split_on sep s) as [|w ws];
    [repeat constructor; cbn; now rewrite E|].
  inversion IH as [|? ? Hw Hws]; subst.
  constructor; [cbn; now rewrite E, Hw|exact Hws].
Qed.

(** Splitting a joined list of pieces without separator gives the list
    back. *)
Lemma split_on_join (sep : ascii) (elems : list string) :
  elems <> [] ->
  Forall (fun p => contains sep p = false) elems ->
  split_on sep (join (String sep "") elems) = elems.
Proof.
  induction elems as [|e elems IH]; [congruence|intros _ H].
  inversion H as [|? ? He Hrest]; subst.
  destruct elems as [|e' elems]; [now apply split_on_whole|].
  cbn [join]; cbn [append].
  rewrite split_on_app by assumption.
  f_equal; apply IH; [discriminate|assumption].
Qed.

(** The characters of the pieces are characters of the joined text. *)
Lemma contains_join (c : ascii) (sep : string) (elems : list string) :
  contains c (join sep elems) = false ->
  Forall (fun e => contains c e = false) elems.
Proof.
  induction elems as [|e elems IH]; [constructor|].
  destruct elems as [|e' elems].
  - cbn [join]; intros H; repeat constructor; assumption.
  - cbn [join]; rewrite !contains_app; intros H.
    apply orb_false_iff in H; destruct H as [He H].
    apply orb_false_iff in H; destruct H as [_ H].
    constructor; [assumption|apply IH; assumption].
Qed.

Lemma all_chars_join (p : ascii -> bool) (sep : string)
      (elems : list string) :
  all_chars p sep = true ->
  Forall (fun e => all_chars p e = true) elems ->
  all_chars p (join sep elems) = true.
Proof.
  intros Hsep; induction 1 as [|e elems He _ IH]; [reflexivity|].
  destruct elems as [|e' elems]; [exact He|].
  cbn [join]; rewrite !all_chars_app, He, Hsep; exact IH.
Qed.

(** A joined list of two pieces or more has the separator. *)
Lemma join_has_separator (sep : ascii) (e e' : string)
      (elems : list string) :
  contains sep (join (String sep "") (e :: e' :: elems)) = true.
Proof.
  cbn [join]; rewrite contains_app; cbn [append contains].
  rewrite Ascii.eqb_refl; apply orb_true_r.
Qed.

(** *** [s.startswith] and [s[2:]] *)

Lemma startswith_step (f : string) :
  startswith "*/" f = true <-> f = "*/" ++ drop 2 f.
Proof.
  destruct f as [|a [|b f]]; cbn -[Ascii.eqb]; split; intros H;
    try discriminate.
  - apply andb_true_iff in H; destruct H; discriminate.
  - apply andb_true_iff in H; destruct H as [Ha H].
    apply andb_true_iff in H; destruct H as [Hb _].
    apply Ascii.eqb_eq in Ha, Hb; now subst.
  - injection H as -> ->; reflexivity.
Qed.

End Strings.

(** ** [int()] *)

Section Ints.

(** *** Classes of characters *)

Lemma digit_classes (c : ascii) :
  is_digit c = true ->
  isspace c = false /\ Ascii.eqb c "-" = false /\ Ascii.eqb c "+" = false
  /\ Ascii.eqb c "_" = false /\ 0 <= digit_val c <= 9
  /\ int_space c = false.
Proof.
  destruct c as [[] [] [] [] [] [] [] []]; vm_compute;
    intuition congruence.
Qed.

(** *** Stripping keeps what is not of the class stripped *)

Section Stripping.

Variable space : ascii -> bool.

Lemma space_is_not (c d : ascii) :
  space c = true -> space d = false -> Ascii.eqb c d = false.
Proof.
  intros Hc Hd; apply Ascii.eqb_neq; intros ->; congruence.
Qed.

Lemma contains_lstrip (c : ascii) (s : string) :
  space c = false -> contains c (lstrip_of space s) = contains c s.
Proof.
  intros Hc; induction s as [|x s IH]; [reflexivity|].
  cbn [lstrip_of]; destruct (space x) eqn:Ex; [|reflexivity].
  cbn [contains]; now rewrite (space_is_not x c Ex Hc), IH.
Qed.

Lemma contains_rstrip (c : ascii) (s : string) :
  space c = false -> contains c (rstrip_of space s) = contains c s.
Proof.
  intros Hc; induction s as [|x s IH]; [reflexivity|].
  cbn [rstrip_of contains]; rewrite <- IH.
  destruct (rstrip_of space s) as [|y r]; [|reflexivity].
  destruct (space x) eqn:Ex; [|reflexivity].
  cbn [contains]; now rewrite (space_is_not x c Ex Hc).
Qed.

Lemma contains_strip (c : ascii) (s : string) :
  space c = false -> contains c (strip_of space s) = contains c s.
Proof.
  intros Hc; unfold strip_of.
  now rewrite contains_rstrip, contains_lstrip.
Qed.

Lemma all_chars_lstrip (p : ascii -> bool) (s : string) :
  (forall c, space c = true -> p c = true) ->
  all_chars p (lstrip_of space s) = true -> all_chars p s = true.
Proof.
  intros Hp; induction s as [|x s IH]; [reflexivity|].
  cbn [lstrip_of]; destruct (space x) eqn:Ex; [|auto].
  intros H; cbn [all_chars]; now rewrite (Hp x Ex), IH.
Qed.

Lemma all_chars_rstrip (p : ascii -> bool) (s : string) :
  (forall c, space c = true -> p c = true) ->
  all_chars p (rstrip_of space s) = true -> all_chars p s = true.
Proof.
  intros Hp; induction s as [|x s IH]; [reflexivity|].
  cbn [rstrip_of all_chars].
  destruct (rstrip_of space s) as [|y r].
  - destruct (space x) eqn:Ex; intros H.
    + now rewrite (Hp x Ex), IH.
    + cbn [all_chars] in H; apply andb_true_iff in H; destruct H as [-> _].
      now rewrite IH.
  - intros H; cbn [all_chars] in H.
    apply andb_true_iff in H; destruct H as [-> H]; now rewrite IH.
Qed.

Lemma all_chars_strip (p : ascii -> bool) (s : string) :
  (forall c, space c = true -> p c = true) ->
  all_chars p (strip_of space s) = true -> all_chars p s = true.
Proof.
  intros Hp H; unfold strip_of in H.
  now apply all_chars_lstrip, all_chars_rstrip.
Qed.

(** A text without a character of the class is left as it is. *)
Lemma strip_no_space (s : string) :
  all_chars (fun c => negb (space c)) s = true -> strip_of space s = s.
Proof.
  intros H; unfold strip_of.
  assert (Hl : lstrip_of space s = s).
  { destruct s as [|x s]; [reflexivity|]; cbn in H |- *.
    apply andb_true_iff in H; destruct H as [Hx _].
    now destruct (space x). }
  rewrite Hl; clear Hl.
  induction s as [|x s IH]; [reflexivity|].
  cbn [all_chars] in H; apply andb_true_iff in H; destruct H as [Hx Hs].
  cbn [rstrip_of]; rewrite (IH Hs).
  destruct s; [now destruct (space x)|reflexivity].
Qed.

End Stripping.

(** *** The digits *)

Lemma int_digits_chars (s : string) :
  forall acc b v,
    int_digits s acc b = Some v ->
    all_chars (fun c => is_digit c || Ascii.eqb c "_") s = true.
Proof.
  induction s as [|c s IH]; intros acc b v; [reflexivity|].
  cbn [int_digits all_chars].
  destruct (is_digit c); cbn [orb andb]; [apply IH|].
  destruct (Ascii.eqb c "_"); cbn [andb]; [|discriminate].
  destruct b; [apply IH|discriminate].
Qed.

Lemma int_digits_nonneg (s : string) :
  forall acc b v, 0 <= acc -> int_digits s acc b = Some v -> 0 <= v.
Proof.
  induction s as [|c s IH]; intros acc b v Hacc; cbn [int_digits].
  - destruct b; [intros H; injection H as <-; assumption|discriminate].
  - destruct (is_digit c) eqn:Ec.
    + apply IH; pose proof (digit_classes c Ec); lia.
    + destruct (Ascii.eqb c "_" && b); [apply IH; assumption|discriminate].
Qed.

(** On a row of digits [int_digits] computes the decimal value. *)
Lemma int_digits_decimal (s : string) :
  all_chars is_digit s = true ->
  forall acc b, s <> "" \/ b = true ->
                int_digits s acc b = Some (digits_value s acc).
Proof.
  induction s as [|c s IH]; intros H acc b Hb.
  - destruct Hb as [Hb| ->]; [congruence|reflexivity].
  - cbn [all_chars] in H; cbn [int_digits digits_value].
    apply andb_true_iff in H; destruct H as [-> Hs].
    apply IH; auto.
Qed.

(** *** [py_int] *)

Lemma digit_or_underscore_int_char (c : ascii) :
  is_digit c || Ascii.eqb c "_" = true -> int_char c = true.
Proof.
  unfold int_char; intros H; apply orb_true_iff in H.
  destruct H as [-> | ->]; now rewrite ?orb_true_r.
Qed.

(** The characters of a text that [int()] reads. *)
Lemma py_int_chars (t : string) (v : Z) :
  py_int t = Some v -> all_chars int_char t = true.
Proof.
  unfold py_int; cbv zeta; intros H.
  destruct (int_max_str_digits <? count_digits (strip_of int_space t));
    [discriminate|].
  apply (all_chars_strip int_space); [now unfold int_char; intros c ->|].
  destruct (strip_of int_space t) as [|c s]; [discriminate|].
  assert (Hrest : forall acc b w,
             int_digits s acc b = Some w -> all_chars int_char s = true).
  { intros acc b w Hw.
    eapply all_chars_weaken;
      [apply digit_or_underscore_int_char|eapply int_digits_chars; eauto]. }
  cbn [all_chars].
  destruct (Ascii.eqb c "-") eqn:Em.
  - unfold int_char at 1; rewrite Em, orb_true_r; cbn [andb].
    destruct (int_digits s 0 false) eqn:E; [eauto|discriminate].
  - destruct (Ascii.eqb c "+") eqn:Ep.
    + unfold int_char at 1; rewrite Ep, !orb_true_r; cbn [andb orb]; eauto.
    + apply int_digits_chars in H.
      eapply all_chars_weaken in H;
        [exact H|apply digit_or_underscore_int_char].
Qed.

(** A text with a minus sign that [int()] reads is not positive. *)
Lemma py_int_minus (t : string) (v : Z) :
  py_int t = Some v -> contains "-" t = true -> v <= 0.
Proof.
  unfold py_int; cbv zeta; intros H Hm.
  destruct (int_max_str_digits <? count_digits (strip_of int_space t));
    [discriminate|].
  rewrite <- (contains_strip int_space "-" t) in Hm by reflexivity.
  assert (Hno : forall s acc b w,
             int_digits s acc b = Some w -> contains "-" s = false).
  { intros s acc b w Hw; apply int_digits_chars in Hw.
    eapply all_chars_contains; [exact Hw|reflexivity]. }
  destruct (strip_of int_space t) as [|c s]; [discriminate|].
  destruct (Ascii.eqb c "-") eqn:Em.
  - destruct (int_digits s 0 false) as [w|] eqn:E; [|discriminate].
    injection H as <-.
    apply int_digits_nonneg in E; lia.
  - cbn [contains] in Hm; rewrite Em in Hm; cbn [orb] in Hm.
    destruct (Ascii.eqb c "+").
    + rewrite (Hno _ _ _ _ H) in Hm; discriminate.
    + apply Hno in H; cbn [contains] in H.
      rewrite Em, Hm in H; discriminate.
Qed.

Lemma count_digits_length (t : string) :
  count_digits t <= Z.of_nat (String.length t).
Proof.
  induction t as [|c t IH]; [reflexivity|].
  cbn [count_digits String.length]; destruct (is_digit c); lia.
Qed.

(** [int()] reads a decimal numeral as its value, up to the limit on the
    number of digits. *)
Lemma py_int_decimal (t : string) (v : Z) :
  short_decimal t v -> py_int t = Some v.
Proof.
  intros ((Hne & Hd & ->) & Hlen); unfold py_int; cbv zeta.
  rewrite strip_no_space.
  - replace (int_max_str_digits <? count_digits t) with false
      by (symmetry; apply Z.ltb_ge; pose proof (count_digits_length t);
          unfold int_max_str_digits; lia).
    destruct t as [|c s]; [congruence|].
    pose proof Hd as Hc; cbn [all_chars] in Hc.
    apply andb_true_iff in Hc; destruct Hc as [Hc _].
    destruct (digit_classes c Hc) as (_ & -> & -> & _).
    apply int_digits_decimal; auto.
  - eapply all_chars_weaken; [|exact Hd].
    intros c Hc.
    now destruct (digit_classes c Hc) as (_ & _ & _ & _ & _ & ->).
Qed.

Lemma decimal_unsigned (t : string) (v : Z) :
  short_decimal t v -> unsigned_int t v.
Proof.
  intros H; split; [now apply py_int_decimal|].
  destruct H as ((_ & Hd & _) & _).
  eapply all_chars_contains; [exact Hd|reflexivity].
Qed.

End Ints.

(** ** One field of a schedule *)

Section Fields.

Variables (lo hi : Z) (name : field_name).

Lemma in_range_iff (v : Z) : in_range lo hi v = true <-> lo <= v <= hi.
Proof.
  unfold in_range; rewrite andb_true_iff, !Z.leb_le; tauto.
Qed.

(** [ints] reads every text or none. *)
Lemma ints_some (l : list string) :
  forall vs, ints l = Some vs -> Forall2 (fun e v => py_int e = Some v) l vs.
Proof.
  induction l as [|e l IH]; cbn [ints]; intros vs H.
  - injection H as <-; constructor.
  - destruct (py_int e) as [v|] eqn:Ev; [|discriminate].
    destruct (ints l) as [vs'|]; [|discriminate].
    injection H as <-; constructor; auto.
Qed.

Lemma ints_all (l : list string) :
  Forall (fun e => exists v, unsigned_int e v /\ lo <= v <= hi) l ->
  exists vs, ints l = Some vs /\ Forall (fun v => lo <= v <= hi) vs.
Proof.
  induction 1 as [|e l (v & [Hv _] & Hr) _ (vs & Hvs & Hall)];
    cbn [ints].
  - exists []; split; [reflexivity|constructor].
  - rewrite Hv, Hvs; exists (v :: vs); split; [reflexivity|].
    constructor; assumption.
Qed.

Lemma find_outside_none (vs : list Z) :
  find (fun v => negb (in_range lo hi v)) vs = None
  <-> Forall (fun v => lo <= v <= hi) vs.
Proof.
  induction vs as [|v vs IH]; cbn [find]; [split; [constructor|reflexivity]|].
  destruct (in_range lo hi v) eqn:E; cbn [negb].
  - rewrite IH; split; [constructor; [now apply in_range_iff|assumption]|].
    now inversion 1.
  - split; [discriminate|].
    inversion 1 as [|? ? Hv _]; subst.
    apply in_range_iff in Hv; congruence.
Qed.

(** A text without star is neither the star nor a step. *)
Lemma no_star (f : string) :
  contains "*" f = false ->
  String.eqb f "*" = false /\ startswith "*/" f = false.
Proof.
  intros H; split.
  - apply String.eqb_neq; intros ->; discriminate.
  - destruct (startswith "*/" f) eqn:E; [|reflexivity].
    apply startswith_step in E; rewrite E in H; discriminate.
Qed.

Lemma unsigned_no (c : ascii) (t : string) (v : Z) :
  int_char c = false -> unsigned_int t v -> contains c t = false.
Proof.
  intros Hc [Hv _]; eapply all_chars_contains; [|exact Hc].
  eapply py_int_chars; eauto.
Qed.

Lemma join_cons (sep e e' : string) (l : list string) :
  join sep (e :: e' :: l) = e ++ sep ++ join sep (e' :: l).
Proof. reflexivity. Qed.

Lemma contains_join_false (c : ascii) (sep : string) (elems : list string) :
  contains c sep = false ->
  Forall (fun e => contains c e = false) elems ->
  contains c (join sep elems) = false.
Proof.
  intros Hsep; induction 1 as [|e elems He _ IH]; [reflexivity|].
  destruct elems as [|e' elems]; [exact He|].
  now rewrite join_cons, !contains_app, He, Hsep, IH.
Qed.

(** The field passes only in one of the forms. *)
Lemma check_field_sound (f : string) :
  check_field f (lo, hi, name) = None -> field_form unsigned_int lo hi f.
Proof.
  unfold check_field.
  destruct (String.eqb f "*") eqn:E1;
    [intros _; apply form_star; now apply String.eqb_eq|].
  destruct (startswith "*/" f) eqn:E2.
  { destruct (py_int (drop 2 f)) as [step|] eqn:Es; [|discriminate].
    destruct (step <=? 0) eqn:El; [discriminate|intros _].
    apply Z.leb_gt in El.
    apply form_step with (t := drop 2 f) (N := step);
      [now apply startswith_step| |assumption].
    split; [assumption|].
    destruct (contains "-" (drop 2 f)) eqn:Ec; [|reflexivity].
    pose proof (py_int_minus _ _ Es Ec); lia. }
  destruct (contains "-" f) eqn:E3.
  { pose proof (join_split_on "-" f) as Hj.
    pose proof (split_on_pieces "-" f) as Hp.
    destruct (split_on "-" f) as [|a [|b [|c rest]]]; try discriminate.
    destruct (py_int a) as [start|] eqn:Ea; [|discriminate].
    destruct (py_int b) as [end_|] eqn:Eb; [|discriminate].
    destruct (in_range lo hi start) eqn:R1; [|discriminate].
    destruct (in_range lo hi end_) eqn:R2; [|discriminate].
    cbn [andb negb].
    destruct (start >? end_) eqn:Eo; [discriminate|intros _].
    pose proof (Forall_inv Hp) as Ha.
    pose proof (Forall_inv (Forall_inv_tail Hp)) as Hb.
    cbn beta in Ha, Hb.
    apply form_range with (a := a) (b := b) (A := start) (B := end_).
    - symmetry; exact Hj.
    - split; assumption.
    - split; assumption.
    - now apply in_range_iff.
    - now apply in_range_iff.
    - rewrite Z.gtb_ltb in Eo; apply Z.ltb_ge in Eo; exact Eo. }
  destruct (contains "," f) eqn:E4.
  { destruct (ints (split_on "," f)) as [values|] eqn:Ei; [|discriminate].
    destruct (find _ values) eqn:Ef; [discriminate|intros _].
    apply find_outside_none in Ef.
    apply ints_some in Ei.
    pose proof (join_split_on "," f) as Hj.
    apply form_list with (elems := split_on "," f);
      [apply split_on_not_nil|symmetry; exact Hj|].
    rewrite <- Hj in E3; apply contains_join in E3.
    clear Hj E4 E1 E2.
    induction Ei as [|e v l vs Hv _ IH]; [constructor|].
    inversion Ef; inversion E3; subst.
    constructor; [|apply IH; assumption].
    exists v; repeat split; auto; lia. }
  destruct (py_int f) as [value|] eqn:Ev; [|discriminate].
  destruct (in_range lo hi value) eqn:R; [intros _|discriminate].
  apply form_single with (v := value);
    [split; assumption|now apply in_range_iff].
Qed.

(** Every field in one of the forms passes. *)
Lemma check_field_complete (f : string) :
  field_form unsigned_int lo hi f -> check_field f (lo, hi, name) = None.
Proof.
  intros [->|t N -> [Ht _] HN|a b A B -> Ha Hb HA HB Hle
          |elems Hne -> Hall|v Hv Hr]; unfold check_field.
  - reflexivity.
  - cbn [String.eqb append startswith drop Ascii.eqb Bool.eqb andb].
    rewrite Ht.
    now replace (N <=? 0) with false by (symmetry; apply Z.leb_gt; lia).
  - assert (Hstar : contains "*" (a ++ "-" ++ b) = false).
    { rewrite !contains_app, (unsigned_no "*" a A), (unsigned_no "*" b B);
        auto. }
    destruct (no_star _ Hstar) as [-> ->].
    assert (Hm : contains "-" (a ++ "-" ++ b) = true).
    { rewrite !contains_app; cbn; apply orb_true_r. }
    rewrite Hm.
    destruct Ha as [Ha Hna], Hb as [Hb Hnb].
    change (a ++ "-" ++ b) with (a ++ String "-" b).
    rewrite (split_on_app "-" a b Hna), (split_on_whole "-" b Hnb), Ha, Hb.
    apply in_range_iff in HA, HB; rewrite HA, HB; cbn [andb negb].
    rewrite Z.gtb_ltb.
    now replace (B <? A) with false by (symmetry; apply Z.ltb_ge; lia).
  - assert (Hno : forall c, int_char c = false -> Ascii.eqb "," c = false ->
                            contains c (join "," elems) = false).
    { intros c Hc Hsep; apply contains_join_false;
        [cbn [contains]; now rewrite Hsep|].
      eapply Forall_impl; [|exact Hall].
      intros e (v & Hv & _); eapply unsigned_no; eauto. }
    destruct (no_star _ (Hno "*"%char eq_refl eq_refl)) as [-> ->].
    assert (Hm : contains "-" (join "," elems) = false).
    { apply contains_join_false; [reflexivity|].
      eapply Forall_impl; [|exact Hall].
      now intros e (v & [_ Hv] & _). }
    rewrite Hm.
    destruct (ints_all elems Hall) as (vs & Hvs & Hin).
    destruct elems as [|e [|e' elems]]; [congruence| |].
    + cbn [join] in *.
      inversion Hall as [|? ? (v & Hv & Hr) _]; subst.
      rewrite (unsigned_no "," e v eq_refl Hv).
      destruct Hv as [-> _].
      apply in_range_iff in Hr; now rewrite Hr.
    + rewrite join_has_separator, split_on_join, Hvs.
      * apply find_outside_none in Hin; now rewrite Hin.
      * discriminate.
      * eapply Forall_impl; [|exact Hall].
        intros x (v & Hv & _); eapply unsigned_no; eauto.
  - destruct (no_star f (unsigned_no "*" f v eq_refl Hv)) as [-> ->].
    rewrite (unsigned_no "," f v eq_refl Hv).
    destruct Hv as [-> ->].
    apply in_range_iff in Hr; now rewrite Hr.
Qed.


(** A field made of decimal numerals has no other character than the
    digits, the star, the slash, the minus sign and the comma. *)
Lemma decimal_form_chars (f : string) :
  field_form decimal lo hi f -> all_chars cron_char f = true.
Proof.
  assert (Hd : forall t v, decimal t v -> all_chars cron_char t = true).
  { intros t v (_ & H & _); eapply all_chars_weaken; [|exact H].
    unfold cron_char; now intros c ->. }
  intros [->|t N -> Ht _|a b A B -> Ha Hb _ _ _|elems _ -> Hall|v Hv _].
  - reflexivity.
  - cbn [append all_chars]; rewrite (Hd _ _ Ht); reflexivity.
  - rewrite !all_chars_app, (Hd _ _ Ha), (Hd _ _ Hb); reflexivity.
  - apply all_chars_join; [reflexivity|].
    eapply Forall_impl; [|exact Hall].
    intros e (v & Hv & _); eauto.
  - eauto.
Qed.

End Fields.

(** ** Whole schedules *)

Section Schedules.

Lemma check_fields_passed (l : list (string * (Z * Z * field_name))) :
  fst (check_fields l) = true -> check_fields l = (true, MsgSchedulePassed).
Proof.
  induction l as [|[part r] l IH]; cbn [check_fields]; [reflexivity|].
  destruct (check_field part r); [discriminate|exact IH].
Qed.

Lemma passes_message (s : string) :
  passes s <-> validate_schedule s = (true, MsgSchedulePassed).
Proof.
  unfold passes, validate_schedule; split.
  - destruct (negb _); [discriminate|apply check_fields_passed].
  - now intros ->.
Qed.

(** A text that does not split into five fields fails with the message
    of the field count. *)
Lemma wrong_field_count (s : string) :
  length (split_ws s) <> 5%nat -> validate_schedule s = (false, MsgFieldCount).
Proof.
  intros H; unfold validate_schedule.
  apply Nat.eqb_neq in H; now rewrite H.
Qed.


(** [validate_schedule] succeeds exactly on the texts of five fields,
    each in one of the forms. *)
Lemma validate_schedule_forms (s : string) :
  passes s <-> schedule_form unsigned_int s.
Proof.
  unfold passes, validate_schedule, schedule_form; split.
  - destruct (split_ws s) as [|f0 [|f1 [|f2 [|f3 [|f4 [|f5 rest]]]]]];
      try discriminate.
    cbn [length Nat.eqb negb combine ranges check_fields].
    destruct (check_field f0 _) eqn:C0; [discriminate|].
    destruct (check_field f1 _) eqn:C1; [discriminate|].
    destruct (check_field f2 _) eqn:C2; [discriminate|].
    destruct (check_field f3 _) eqn:C3; [discriminate|].
    destruct (check_field f4 _) eqn:C4; [discriminate|].
    intros _; exists f0, f1, f2, f3, f4.
    split; [reflexivity|].
    repeat split; eapply check_field_sound; eassumption.
  - intros (f0 & f1 & f2 & f3 & f4 & -> & H0 & H1 & H2 & H3 & H4).
    cbn [length Nat.eqb negb combine ranges check_fields].
    rewrite (check_field_complete _ _ Minute _ H0),
      (check_field_complete _ _ Hour _ H1),
      (check_field_complete _ _ Day _ H2),
      (check_field_complete _ _ Month _ H3),
      (check_field_complete _ _ Weekday _ H4).
    reflexivity.
Qed.

(** The forms are monotone in the reading of the integers. *)
Lemma field_form_mono (P Q : string -> Z -> Prop) (lo hi : Z) (f : string) :
  (forall t v, P t v -> Q t v) -> field_form P lo hi f -> field_form Q lo hi f.
Proof.
  intros HPQ [H|t N H Ht HN|a b A B H Ha Hb HA HB Hle|elems Hne H Hall|v Hv Hr].
  - now apply form_star.
  - eapply form_step; eauto.
  - eapply form_range; eauto.
  - eapply form_list; eauto.
    eapply Forall_impl; [|exact Hall].
    intros e (v & Hv & Hr); eauto.
  - eapply form_single; eauto.
Qed.

(** Every schedule of five fields in the forms, written with decimal
    numerals within the limit on the number of digits, passes. *)
Lemma decimal_schedules_pass (s : string) :
  schedule_form short_decimal s -> passes s.
Proof.
  intros (f0 & f1 & f2 & f3 & f4 & Hs & H0 & H1 & H2 & H3 & H4).
  apply validate_schedule_forms.
  exists f0, f1, f2, f3, f4; split; [exact Hs|].
  repeat split;
    eapply field_form_mono; try eassumption; apply decimal_unsigned.
Qed.

(** *** [s.split()] of fields joined by single spaces *)





End Schedules.

(** ** The validators on the inputs the specification names *)

Example minute_60_fails :
  validate_schedule "60 * * * *" = (false, MsgValueOutside Minute 60 0 59).
Proof. reflexivity. Qed.

Example step_0_fails :
  validate_schedule "*/0 * * * *" = (false, MsgStepNotPositive Minute).
Proof. reflexivity. Qed.

Example range_in_list_fails :
  validate_schedule "1-5,10 2 * * 1-5" = (false, MsgRangeFormat Minute).
Proof. reflexivity. Qed.

Example plus_sign_passes :
  validate_schedule "+5 * * * *" = (true, MsgSchedulePassed).
Proof. reflexivity. Qed.

Example rm_rf_dangerous :
  validate_command "rm -rf /" = (false, MsgCommandDangerous "rm -rf /").
Proof. reflexivity. Qed.

Example no_command_empty : validate_command "" = (false, MsgCommandEmpty).
Proof. reflexivity. Qed.

Example echo_passes : validate_command "echo hi" = (true, MsgCommandPassed).
Proof. reflexivity. Qed.

(** C5 (as stated, refuted).  Whatever "integer" means for a field, the
    equivalence fails.  With integers read as decimal numerals,
    [validate_schedule] succeeds on a schedule whose minute field 1_0 is
    none of the forms; with integers read as the texts [int()] accepts, the
    minute field -0 is a single integer in range, and [validate_schedule]
    fails on it. *)
Lemma schedule_forms_not_exact :
  (passes "1_0 * * * *" /\ ~ schedule_form decimal "1_0 * * * *")
  /\ (schedule_form python_int "-0 * * * *" /\ ~ passes "-0 * * * *").
Proof.
  split; split.
  - reflexivity.
  - intros (f0 & f1 & f2 & f3 & f4 & Hs & H0 & _).
    vm_compute in Hs; injection Hs as <- _ _ _ _.
    apply decimal_form_chars in H0; vm_compute in H0; discriminate.
  - exists "-0", "*", "*", "*", "*".
    split; [reflexivity|].
    split; [apply form_single with (v := 0); [reflexivity|lia]|].
    repeat split; now apply form_star.
  - vm_compute; discriminate.
Qed.

(** C5 (amended).  For every input string, [validate_schedule] succeeds
    if and only if the string splits into exactly 5 whitespace-separated
    fields and each field is the star, a step [*/N] with [N] positive, a
    range [A-B] with both ends inside the range of the field and [A <= B],
    a comma-separated list whose every element is in range, or a single
    value in range, where an integer is written as [int()] reads it without
    minus sign (decimal digits, with an optional plus sign in front and
    single underscores between digits); and every string that does not
    split into exactly 5 fields fails with the message of the field
    count. *)
Theorem validate_schedule_characterised :
  forall s,
    (passes s <-> schedule_form unsigned_int s)
    /\ (length (split_ws s) <> 5%nat ->
        validate_schedule s = (false, MsgFieldCount)).
Proof.
  intros s; split; [apply validate_schedule_forms|apply wrong_field_count].
Qed.

Lemma validate_schedule_characterised_witness :
  schedule_form unsigned_int "*/15 0-6 1,15 * 5"
  /\ passes "*/15 0-6 1,15 * 5"
  /\ length (split_ws "* * * *") <> 5%nat
  /\ validate_schedule "* * * *" = (false, MsgFieldCount).
Proof.
  assert (H : schedule_form unsigned_int "*/15 0-6 1,15 * 5").
  { exists "*/15", "0-6", "1,15", "*", "5".
    split; [reflexivity|]; repeat split.
    - apply form_step with (t := "15") (N := 15);
        [reflexivity|split; reflexivity|lia].
    - apply form_range with (a := "0") (b := "6") (A := 0) (B := 6);
        try reflexivity; try (split; reflexivity); lia.
    - apply form_list with (elems := ["1"; "15"]);
        [discriminate|reflexivity|].
      repeat constructor;
        [exists 1|exists 15]; (split; [split; reflexivity|lia]).
    - now apply form_star.
    - apply form_single with (v := 5); [split; reflexivity|lia]. }
  assert (L : length (split_ws "* * * *") <> 5%nat) by (vm_compute; lia).
  split; [exact H|]; split; [|split; [exact L|]].
  - apply (proj1 (validate_schedule_characterised "*/15 0-6 1,15 * 5")), H.
  - apply (proj2 (validate_schedule_characterised "* * * *")), L.
Defined.




(** ** The sessions a run opens *)

Section Sessions.

Lemma connects_app (l1 l2 : list event) :
  connects (l1 ++ l2) = (connects l1 + connects l2)%nat.
Proof.
  induction l1 as [|e l1 IH]; [reflexivity|].
  cbn [app connects]; destruct e as [[] []|]; cbn; now rewrite ?IH.
Qed.

(** The rules of [opens_at_most], one per constructor of computations. *)

Lemma opens_ret {A} (a : A) : opens_at_most 0 (ret a).
Proof. intros r; cbn; lia. Qed.

Lemma opens_raise {A} e : opens_at_most 0 (@raise A e).
Proof. intros r; cbn; lia. Qed.

Lemma opens_warn msg : opens_at_most 0 (warn msg).
Proof. intros r; cbn; lia. Qed.

Lemma opens_call o :
  (forall s host, o <> Connect s host) -> opens_at_most 0 (call o).
Proof.
  intros H r; unfold call.
  destruct (r o); destruct o; cbn; try lia.
  exfalso; eapply H; reflexivity.
Qed.

Lemma opens_connect s host : opens_at_most 1 (call (Connect s host)).
Proof.
  intros r; unfold call; destruct (r (Connect s host)); cbn; lia.
Qed.

Lemma opens_bind {A B} n1 n2 (m : M A) (k : A -> M B) :
  opens_at_most n1 m -> (forall a, opens_at_most n2 (k a)) ->
  opens_at_most (n1 + n2) (bind m k).
Proof.
  intros Hm Hk r; unfold bind; specialize (Hm r).
  destruct (m r) as [l1 [e|a]]; cbn [fst] in *; [lia|].
  specialize (Hk a r); destruct (k a r) as [l2 y]; cbn [fst] in *.
  rewrite connects_app; lia.
Qed.

Lemma opens_try_except {A} n1 n2 (m : M A) (h : exn -> M A) :
  opens_at_most n1 m -> (forall e, opens_at_most n2 (h e)) ->
  opens_at_most (n1 + n2) (try_except m h).
Proof.
  intros Hm Hh r; unfold try_except; specialize (Hm r).
  destruct (m r) as [l1 [e|a]]; cbn [fst] in *; [|lia].
  specialize (Hh e r); destruct (h e r) as [l2 y]; cbn [fst] in *.
  rewrite connects_app; lia.
Qed.

Lemma opens_try_finally {A} n1 n2 (m : M A) (c : M unit) :
  opens_at_most n1 m -> opens_at_most n2 c ->
  opens_at_most (n1 + n2) (try_finally m c).
Proof.
  intros Hm Hc r; unfold try_finally; specialize (Hm r); specialize (Hc r).
  destruct (m r) as [l1 x]; destruct (c r) as [l2 y]; cbn [fst] in *.
  rewrite connects_app; lia.
Qed.

Lemma opens_if {A} n (c : bool) (m1 m2 : M A) :
  opens_at_most n m1 -> opens_at_most n m2 ->
  opens_at_most n (if c then m1 else m2).
Proof. now destruct c. Qed.

(** A step that opens nothing in front of a computation. *)
Lemma opens_then {A B} n (m : M A) (k : A -> M B) :
  opens_at_most 0 m -> (forall a, opens_at_most n (k a)) ->
  opens_at_most n (bind m k).
Proof. intros Hm Hk; exact (opens_bind 0 n m k Hm Hk). Qed.

Lemma opens_run_commands s commands :
  opens_at_most 0 (run_commands s commands).
Proof.
  induction commands as [|cmd rest IH]; cbn [run_commands].
  - apply opens_ret.
  - repeat (apply opens_then; [apply opens_call; discriminate|intros _]).
    exact IH.
Qed.

Lemma opens_get_ssh_client s host : opens_at_most 1 (_get_ssh_client s host).
Proof.
  apply (opens_try_except 1 0).
  - apply (opens_bind 1 0); [apply opens_connect|intros _; apply opens_ret].
  - intros []; apply opens_raise.
Qed.

Create HintDb opens.
Hint Resolve opens_ret opens_raise opens_warn opens_then opens_if
  opens_run_commands : opens.
Hint Extern 1 (opens_at_most 0 (call _)) =>
  apply opens_call; discriminate : opens.

Lemma opens_backup_step host user backup :
  opens_at_most 1 (backup_step host user backup).
Proof.
  unfold backup_step; destruct backup;
    [|intros r; cbn; lia].
  apply (opens_bind 1 0).
  - unfold backup_crontab.
    apply (opens_try_except 1 0); [|auto with opens].
    apply (opens_bind 1 0); [apply opens_get_ssh_client|].
    auto 10 with opens.
  - intros res; auto with opens.
Qed.

Lemma opens_upload_step content user :
  opens_at_most 0 (upload_step content user).
Proof.
  unfold upload_step, upload_and_install.
  apply opens_then; [auto with opens|intros temp_file].
  apply (opens_try_finally 0 0); auto 20 with opens.
Qed.

(** A run of [deploy_crontab] opens two sessions at most: its own and
    the one of the backup. *)
Lemma opens_deploy_crontab host content user backup :
  opens_at_most 2 (deploy_crontab host content user backup).
Proof.
  unfold deploy_crontab.
  apply (opens_try_except 2 0); [|auto with opens].
  apply (opens_bind 1 1); [apply opens_get_ssh_client|intros _].
  apply (opens_bind 1 0); [apply opens_backup_step|intros _].
  apply opens_upload_step.
Qed.

(** A log leaves open no more sessions than it opens. *)
Lemma open_sessions_bound (l : list event) :
  forall held,
    (length (open_sessions held l) <= length held + connects l)%nat.
Proof.
  induction l as [|e l IH]; intros held; cbn [open_sessions connects];
    [lia|].
  destruct e as [o rep|msg]; [|apply IH].
  destruct o; try apply IH.
  - destruct rep; [apply IH|].
    specialize (IH (s :: held)); cbn [length] in IH; lia.
  - specialize (IH (filter (fun s' => negb (session_eqb s s')) held)).
    pose proof (filter_length_le (fun s' => negb (session_eqb s s')) held).
    lia.
Qed.

End Sessions.

(** ** The executor *)

Import Pool PoolSpec PoolExamples.

Section Executor.

Variable max_workers : nat.
Variable tasks : list host_run.

(** Every task opens two sessions at most. *)
Hypothesis tasks_open_two :
  Forall (fun run => (connects (run_log run) <= 2)%nat) tasks.

Lemma invariant_initial : invariant max_workers (initial tasks).
Proof.
  repeat split; cbn; [lia|exact tasks_open_two|constructor].
Qed.

Lemma invariant_step (s s' : state) :
  invariant max_workers s -> step max_workers s s' ->
  invariant max_workers s'.
Proof.
  intros (Hlen & Hq & Hr) Hstep.
  destruct Hstep as [run q ws done l Hfree
                    |q ws1 run past e todo ws2 done l
                    |q ws1 run past ws2 done l];
    cbn [running queue] in *.
  - inversion Hq as [|? ? Hrun Hq']; subst.
    repeat split; cbn [running queue].
    + rewrite length_app; cbn; lia.
    + assumption.
    + apply Forall_app; split; [assumption|].
      constructor; [exact Hrun|constructor].
  - repeat split; cbn [running queue].
    + rewrite length_app in *; cbn [length] in *; lia.
    + assumption.
    + apply Forall_app in Hr; destruct Hr as [H1 H2].
      inversion H2 as [|? ? Hw H2']; subst.
      apply Forall_app; split; [assumption|].
      constructor; [|assumption].
      cbn [w_past w_todo] in *; now rewrite <- app_assoc.
  - repeat split; cbn [running queue].
    + rewrite length_app in *; cbn [length] in *; lia.
    + assumption.
    + apply Forall_app in Hr; destruct Hr as [H1 H2].
      inversion H2; subst.
      apply Forall_app; split; assumption.
Qed.

Lemma reachable_invariant (s : state) :
  reachable max_workers tasks s -> invariant max_workers s.
Proof.
  induction 1 as [|s s' _ IH Hstep];
    [apply invariant_initial|eapply invariant_step; eauto].
Qed.

Lemma held_by_running_bound (ws : list worker) :
  Forall (fun w => (connects (w_past w ++ w_todo w) <= 2)%nat) ws ->
  (held_by_running ws <= 2 * length ws)%nat.
Proof.
  induction 1 as [|w ws Hw _ IH]; cbn [held_by_running length]; [lia|].
  unfold held at 1.
  pose proof (open_sessions_bound (w_past w) []) as Hb.
  rewrite connects_app in Hw; cbn [length] in Hb; lia.
Qed.

(** The bounds of the executor. *)
Lemma executor_bounds (s : state) :
  reachable max_workers tasks s ->
  (length (running s) <= max_workers)%nat
  /\ (held_by_running (running s) <= 2 * max_workers)%nat
  /\ forall s', step max_workers s s' ->
                (length (queue s') < length (queue s))%nat ->
                (length (running s) < max_workers)%nat.
Proof.
  intros H; destruct (reachable_invariant s H) as (Hlen & _ & Hr).
  split; [assumption|]; split.
  - pose proof (held_by_running_bound _ Hr); lia.
  - intros s' Hstep; destruct Hstep; cbn [queue running length]; lia.
Qed.

End Executor.

Section DeployTasks.

Lemma submit_all_open_two content ssh_user world (hosts : list string) :
  forall i,
    Forall (fun run => (connects (run_log run) <= 2)%nat)
           (submit_all content ssh_user world i hosts).
Proof.
  induction hosts as [|h hosts IH]; intros i; cbn [submit_all];
    constructor; [|apply IH].
  unfold run_task.
  pose proof (opens_deploy_crontab h content ssh_user true (world i)) as H.
  destruct (deploy_crontab h content ssh_user true (world i)); exact H.
Qed.

(** The tasks of [deploy] are runs of [deploy_crontab]. *)
Lemma deploy_tasks_open_two config_file cfg hosts ssh_user dry_run
      max_workers now world :
  Forall (fun run => (connects (run_log run) <= 2)%nat)
         (runs (deploy config_file cfg hosts ssh_user dry_run max_workers
                       now world)).
Proof.
  unfold deploy.
  destruct (validate cfg) as [valid errors].
  destruct (negb valid); [constructor|].
  destruct (is_nil _); [constructor|].
  destruct (generate_crontab _ _ _ _); [|constructor].
  destruct dry_run; [constructor|].
  destruct (max_workers <=? 0); [constructor|].
  apply submit_all_open_two.
Qed.

End DeployTasks.

(** The executor with one worker reaches the state [during_backup]. *)
Lemma during_backup_reachable : reachable 1 one_host_tasks during_backup.
Proof.
  pose (run := run_task
                 (match generate_crontab "2024-02-12 10:30:00"
                                         "config/prod.yaml" one_host_config
                                         None with
                  | Some c => c
                  | None => ""
                  end) "root" "web-01" all_fine).
  assert (Ht : one_host_tasks = [run]) by reflexivity.
  pose (e1 := Called (Connect Main "web-01") (Returns 0 "")).
  pose (e2 := Called (Connect Backup "web-01") (Returns 0 "")).
  pose (rest := skipn 2 (run_log run)).
  assert (Hlog : run_log run = e1 :: e2 :: rest) by reflexivity.
  assert (Hd : during_backup
               = {| queue := [];
                    running := [] ++ [ {| w_run := run; w_past := [e1] ++ [e2];
                                          w_todo := rest |} ];
                    completed := []; log := [e1] ++ [e2] |})
    by reflexivity.
  rewrite Ht, Hd.
  eapply reach_step;
    [|apply (step_call 1 [] [] run [e1] e2 rest [] [] [e1])].
  eapply reach_step;
    [|apply (step_call 1 [] [] run [] e1 (e2 :: rest) [] [] [])].
  rewrite <- Hlog.
  eapply reach_step; [apply reach_initial|].
  apply (step_start 1 run [] [] [] []); cbn; lia.
Qed.

(** C9 (as stated, refuted).  The sessions open at the same time are not
    bounded by [max_workers]: in the deployment to one host with one
    worker, the executor reaches a state in which one task is running and
    two sessions are open, the one of the task and the one its backup step
    opened. *)
Lemma two_sessions_with_one_worker :
  reachable 1 one_host_tasks during_backup
  /\ length (running during_backup) = 1%nat
  /\ sessions_open (log during_backup) = 2
  /\ held_by_running (running during_backup) = 2%nat.
Proof.
  split; [apply during_backup_reachable|repeat split; reflexivity].
Qed.

(** C9 (amended).  For every deployment with concurrency limit
    [max_workers], in every state the executor reaches: at most
    [max_workers] per-host workers are in flight; a host leaves the queue
    only when a worker is free, so the hosts beyond the limit wait; and,
    each worker holding its own session and the one of the backup step, the
    workers in flight hold no more than twice [max_workers] sessions. *)
Theorem executor_bounds_workers :
  forall config_file cfg hosts ssh_user dry_run max_workers now world s,
    reachable (Z.to_nat max_workers)
              (runs (deploy config_file cfg hosts ssh_user dry_run max_workers
                            now world)) s ->
    (length (running s) <= Z.to_nat max_workers)%nat
    /\ (held_by_running (running s) <= 2 * Z.to_nat max_workers)%nat
    /\ forall s', step (Z.to_nat max_workers) s s' ->
                  (length (queue s') < length (queue s))%nat ->
                  (length (running s) < Z.to_nat max_workers)%nat.
Proof.
  intros config_file cfg hosts ssh_user dry_run max_workers now world s.
  apply executor_bounds, deploy_tasks_open_two.
Qed.

Lemma executor_bounds_workers_witness :
  reachable (Z.to_nat 1) one_host_tasks during_backup
  /\ (length (running during_backup) <= Z.to_nat 1)%nat
  /\ (held_by_running (running during_backup) <= 2 * Z.to_nat 1)%nat.
Proof.
  assert (H : reachable (Z.to_nat 1) one_host_tasks during_backup)
    by exact during_backup_reachable.
  split; [exact H|].
  pose proof (executor_bounds_workers
                "config/prod.yaml" one_host_config None "root" false 1
                "2024-02-12 10:30:00" (fun _ => all_fine)
                during_backup H) as (H1 & H2 & _).
  split; [exact H1|exact H2].
Defined.

(** ** The matcher of the dangerous-command patterns *)

Import Regex RegexSpec.

Section Matcher.

Lemma matches_never (s : string) : matches Never s -> False.
Proof. inversion 1. Qed.

Lemma matches_eps (s : string) : matches Eps s -> s = "".
Proof. now inversion 1. Qed.

Lemma matches_cat (r1 r2 : re) (s : string) :
  matches (Cat r1 r2) s ->
  exists s1 s2, s = s1 ++ s2 /\ matches r1 s1 /\ matches r2 s2.
Proof. inversion 1; subst; eauto. Qed.

Lemma matches_alt (r1 r2 : re) (s : string) :
  matches (Alt r1 r2) s -> matches r1 s \/ matches r2 s.
Proof. inversion 1; subst; auto. Qed.

(** [cat] matches what [Cat] matches. *)
Lemma cat_spec (r1 r2 : re) (s : string) :
  matches (cat r1 r2) s
  <-> exists s1 s2, s = s1 ++ s2 /\ matches r1 s1 /\ matches r2 s2.
Proof.
  split.
  - intros H; destruct r1; destruct r2; cbn [cat] in H;
      first [ now apply matches_never in H
            | now apply matches_cat in H
            | exists "", s; split; [reflexivity|];
              split; [constructor|exact H]
            | exists s, ""; split; [symmetry; apply append_nil_r|];
              split; [exact H|constructor] ].
  - intros (s1 & s2 & -> & H1 & H2); destruct r1; destruct r2; cbn [cat];
      first [ now apply matches_never in H1
            | now apply matches_never in H2
            | apply matches_eps in H1; subst; exact H2
            | apply matches_eps in H2; subst; rewrite append_nil_r; exact H1
            | now constructor ].
Qed.

(** [alt] matches what [Alt] matches. *)
Lemma alt_spec (r1 r2 : re) (s : string) :
  matches (alt r1 r2) s <-> matches r1 s \/ matches r2 s.
Proof.
  split.
  - intros H; destruct r1; destruct r2; cbn [alt] in H;
      first [ now apply matches_alt in H
            | now right
            | now left ].
  - intros [H|H]; destruct r1; destruct r2; cbn [alt];
      first [ now apply matches_never in H
            | exact H
            | now apply m_alt_l
            | now apply m_alt_r ].
Qed.

Lemma nullable_spec (r : re) : nullable r = true <-> matches r "".
Proof.
  split.
  - induction r; cbn [nullable]; intros H; try discriminate.
    + constructor.
    + apply andb_true_iff in H; destruct H as [H1 H2].
      change "" with ("" ++ ""); constructor; auto.
    + apply orb_true_iff in H; destruct H as [H|H];
        [apply m_alt_l|apply m_alt_r]; auto.
    + constructor.
  - intros H; remember "" as s eqn:Es.
    induction H as [| | | | |r1 r2 s1 s2 _ IH1 _ IH2| | | |];
      try discriminate; cbn [nullable]; try reflexivity.
    + destruct s1; [|discriminate]; cbn [append] in Es.
      now rewrite IH1, IH2.
    + now rewrite IHmatches.
    + rewrite IHmatches by assumption; apply orb_true_r.
Qed.

(** A repetition that matches a text with a first character: the first
    round that reads a character reads it. *)
Lemma matches_star_cons (r : re) (c : ascii) (s : string) :
  matches (Star r) (String c s) ->
  exists s1 s2,
    s = s1 ++ s2 /\ matches r (String c s1) /\ matches (Star r) s2.
Proof.
  intros H; remember (Star r) as p eqn:Ep; remember (String c s) as t eqn:Et.
  induction H as [| | | | | | | | |r' s1 s2 H1 _ H2 IH2]; try discriminate.
  injection Ep as ->.
  destruct s1 as [|c1 s1].
  - apply IH2; [reflexivity|exact Et].
  - cbn [append] in Et; injection Et as -> <-.
    exists s1, s2; auto.
Qed.

(** The derivative matches the rest of what the pattern matches. *)
Lemma deriv_spec (r : re) :
  forall c s, matches (deriv c r) s <-> matches r (String c s).
Proof.
  induction r as [| |d| | | |r1 IH1 r2 IH2|r1 IH1 r2 IH2|r IH];
    intros c s; cbn [deriv].
  - split; inversion 1.
  - split; inversion 1.
  - destruct (Ascii.eqb (fold_case c) (fold_case d)) eqn:E; split; intros H.
    + apply matches_eps in H; subst; constructor; now apply Ascii.eqb_eq.
    + inversion H; subst; constructor.
    + inversion H.
    + inversion H; subst.
      apply Ascii.eqb_neq in E; congruence.
  - destruct (isspace c) eqn:E; split; intros H.
    + apply matches_eps in H; subst; now constructor.
    + inversion H; subst; constructor.
    + inversion H.
    + inversion H; subst; congruence.
  - destruct (Ascii.eqb c "010") eqn:E; split; intros H.
    + inversion H.
    + inversion H; subst.
      apply Ascii.eqb_eq in E; congruence.
    + apply matches_eps in H; subst; constructor; now apply Ascii.eqb_neq.
    + inversion H; subst; constructor.
  - split; intros H.
    + apply matches_eps in H; subst; constructor.
    + inversion H; subst; constructor.
  - assert (Hcat : matches (cat (deriv c r1) r2) s
                   <-> exists s1 s2, s = s1 ++ s2
                                     /\ matches r1 (String c s1)
                                     /\ matches r2 s2).
    { rewrite cat_spec; split; intros (s1 & s2 & E & H1 & H2);
        exists s1, s2; repeat split; auto; now apply IH1. }
    assert (Hgoal : matches (Cat r1 r2) (String c s)
                    <-> (exists s1 s2, s = s1 ++ s2
                                       /\ matches r1 (String c s1)
                                       /\ matches r2 s2)
                        \/ (matches r1 "" /\ matches r2 (String c s))).
    { split.
      - intros H; apply matches_cat in H.
        destruct H as (s1 & s2 & E & H1 & H2).
        destruct s1 as [|c1 s1]; cbn [append] in E.
        + right; subst; auto.
        + injection E as <- ->; left; eauto.
      - intros [(s1 & s2 & -> & H1 & H2)|[H1 H2]].
        + change (String c (s1 ++ s2)) with (String c s1 ++ s2).
          now constructor.
        + change (String c s) with ("" ++ String c s); now constructor. }
    rewrite Hgoal.
    destruct (nullable r1) eqn:En.
    + rewrite alt_spec, Hcat, IH2.
      apply nullable_spec in En; tauto.
    + rewrite Hcat; split; [auto|].
      intros [H|[H _]]; [exact H|].
      apply nullable_spec in H; congruence.
  - rewrite alt_spec, IH1, IH2; split.
    + intros [H|H]; [apply m_alt_l|apply m_alt_r]; exact H.
    + apply matches_alt.
  - rewrite cat_spec; split.
    + intros (s1 & s2 & -> & H1 & H2).
      change (String c (s1 ++ s2)) with (String c s1 ++ s2).
      constructor; [now apply IH|exact H2].
    + intros H; apply matches_star_cons in H.
      destruct H as (s1 & s2 & E & H1 & H2).
      exists s1, s2; repeat split; auto; now apply IH.
Qed.

(** [fullmatch] decides [matches]. *)
Lemma fullmatch_spec (s : string) :
  forall r, fullmatch r s = true <-> matches r s.
Proof.
  induction s as [|c s IH]; intros r; cbn [fullmatch].
  - apply nullable_spec.
  - rewrite IH; apply deriv_spec.
Qed.

Lemma matches_anything (s : string) : matches (Star Any) s.
Proof.
  induction s as [|c s IH]; [constructor|].
  change (String c s) with (String c "" ++ s); constructor; [constructor|exact IH].
Qed.

(** [search] decides whether some part of the text matches. *)
Lemma search_spec (r : re) (s : string) :
  search r s = true <-> has_match r s.
Proof.
  unfold search, has_match; rewrite fullmatch_spec; split.
  - intros H; apply matches_cat in H; destruct H as (a & t & -> & _ & H).
    apply matches_cat in H; destruct H as (w & b & -> & H & _).
    exists a, w, b; auto.
  - intros (a & w & b & -> & H).
    constructor; [apply matches_anything|].
    constructor; [exact H|apply matches_anything].
Qed.

End Matcher.

(** ** [validate_command] *)

Section Commands.

Lemma rstrip_empty (space : ascii -> bool) (s : string) :
  rstrip_of space s = "" <-> all_chars space s = true.
Proof.
  induction s as [|x s IH]; cbn [rstrip_of all_chars]; [tauto|].
  destruct (rstrip_of space s) as [|y r].
  - destruct (space x); cbn [andb]; [|split; discriminate].
    split; intros _; [now apply IH|reflexivity].
  - split; [discriminate|].
    intros H; apply andb_true_iff in H; destruct H as [_ H].
    apply IH in H; discriminate.
Qed.

Lemma all_chars_lstrip_same (space : ascii -> bool) (s : string) :
  all_chars space (lstrip_of space s) = all_chars space s.
Proof.
  induction s as [|x s IH]; [reflexivity|].
  cbn [lstrip_of]; destruct (space x) eqn:E; [|reflexivity].
  cbn [all_chars]; now rewrite E, IH.
Qed.

(** [strip] leaves nothing exactly of the texts of white space. *)
Lemma strip_blank (s : string) : strip s = "" <-> blank s.
Proof.
  unfold strip, strip_of, blank.
  now rewrite rstrip_empty, all_chars_lstrip_same.
Qed.

(** The first test of [validate_command]. *)
Lemma command_blank_test (command : string) :
  String.eqb command "" || String.eqb (strip command) ""
  = all_chars isspace command.
Proof.
  destruct (all_chars isspace command) eqn:E.
  - apply strip_blank in E; rewrite E; apply orb_true_r.
  - apply orb_false_iff; split; apply String.eqb_neq; intros H.
    + subst; discriminate.
    + apply strip_blank in H; unfold blank in H; congruence.
Qed.

(** The second test of [validate_command]. *)
Lemma command_danger_test (command : string) :
  existsb (fun pattern => search pattern command) dangerous_patterns = true
  <-> dangerous command.
Proof.
  unfold dangerous; rewrite existsb_exists.
  split; intros (p & Hin & H); exists p; split; auto; now apply search_spec.
Qed.

(** *** The case of the letters *)

Lemma fold_case_classes (c : ascii) :
  isspace (fold_case c) = isspace c
  /\ fold_case (fold_case c) = fold_case c
  /\ Ascii.eqb (fold_case c) "010" = Ascii.eqb c "010".
Proof.
  destruct c as [[] [] [] [] [] [] [] []]; vm_compute; auto.
Qed.

Lemma deriv_fold_case (r : re) (c : ascii) :
  deriv (fold_case c) r = deriv c r.
Proof.
  destruct (fold_case_classes c) as (Hs & Hf & Hn).
  induction r as [| | | | | |r1 IH1 r2 IH2|r1 IH1 r2 IH2|r IH];
    cbn [deriv]; rewrite ?Hs, ?Hf, ?Hn, ?IH1, ?IH2, ?IH; reflexivity.
Qed.

Lemma fullmatch_fold_case (s : string) :
  forall r, fullmatch r (map_chars fold_case s) = fullmatch r s.
Proof.
  induction s as [|c s IH]; intros r; cbn [map_chars fullmatch];
    [reflexivity|].
  now rewrite deriv_fold_case, IH.
Qed.

Lemma blank_fold_case (s : string) :
  all_chars isspace (map_chars fold_case s) = all_chars isspace s.
Proof.
  induction s as [|c s IH]; cbn [map_chars all_chars]; [reflexivity|].
  destruct (fold_case_classes c) as (-> & _); now rewrite IH.
Qed.

Lemma validate_command_verdict (command : string) :
  fst (validate_command command)
  = negb (all_chars isspace command)
    && negb (existsb (fun pattern => search pattern command)
                     dangerous_patterns).
Proof.
  unfold validate_command; rewrite command_blank_test.
  destruct (all_chars isspace command); [reflexivity|].
  now destruct (existsb _ dangerous_patterns).
Qed.

Lemma validate_command_fold_case (command : string) :
  fst (validate_command (map_chars fold_case command))
  = fst (validate_command command).
Proof.
  rewrite !validate_command_verdict, blank_fold_case.
  f_equal; f_equal; unfold search.
  induction dangerous_patterns as [|p ps IH]; cbn [existsb]; [reflexivity|].
  now rewrite fullmatch_fold_case, IH.
Qed.

(** *** What the patterns match *)

Lemma matches_lit (w : string) : matches (lit w) w.
Proof.
  induction w as [|c w IH]; cbn [lit]; [constructor|].
  change (String c w) with (String c "" ++ w).
  constructor; [now constructor|exact IH].
Qed.

Lemma matches_star_class (r : re) (s : string) :
  (forall c, contains c s = true -> matches r (String c "")) ->
  matches (Star r) s.
Proof.
  induction s as [|c s IH]; intros H; [constructor|].
  change (String c s) with (String c "" ++ s); constructor.
  - apply H; cbn [contains]; now rewrite Ascii.eqb_refl.
  - apply IH; intros d Hd; apply H; cbn [contains]; rewrite Hd.
    apply orb_true_r.
Qed.

Lemma all_chars_holds (p : ascii -> bool) (c : ascii) (s : string) :
  all_chars p s = true -> contains c s = true -> p c = true.
Proof.
  intros Hs Hc; destruct (p c) eqn:E; [reflexivity|].
  rewrite (all_chars_contains p c s Hs E) in Hc; discriminate.
Qed.

(** White space, one character or more. *)
Lemma matches_spaces (w : string) :
  w <> "" -> all_chars isspace w = true -> matches (plus Space) w.
Proof.
  destruct w as [|c w]; [congruence|intros _ H].
  cbn [all_chars] in H; apply andb_true_iff in H; destruct H as [Hc Hw].
  change (String c w) with (String c "" ++ w).
  constructor; [now constructor|].
  apply matches_star_class; intros d Hd; constructor.
  eapply all_chars_holds; eauto.
Qed.

(** Any text on one line. *)
Lemma matches_line (m : string) :
  contains "010" m = false -> matches (Star Dot) m.
Proof.
  intros H; apply matches_star_class; intros c Hc; constructor.
  intros ->; congruence.
Qed.

Lemma not_blank_app (a w b : string) :
  all_chars isspace w = false -> all_chars isspace (a ++ w ++ b) = false.
Proof.
  intros H; rewrite !all_chars_app, H, andb_false_r; reflexivity.
Qed.

Lemma dangerous_rejected (command : string) :
  all_chars isspace command = false -> dangerous command ->
  validate_command command = (false, MsgCommandDangerous command).
Proof.
  intros Hb Hd; unfold validate_command.
  rewrite command_blank_test, Hb.
  apply command_danger_test in Hd; now rewrite Hd.
Qed.

End Commands.

(** X1.  [validate_command] answers that the command is empty exactly for
    the empty command and the commands made of white space only. *)
Theorem validate_command_empty :
  forall command,
    validate_command command = (false, MsgCommandEmpty) <-> blank command.
Proof.
  intros command; unfold validate_command, blank.
  rewrite command_blank_test.
  destruct (all_chars isspace command); [tauto|].
  destruct (existsb _ dangerous_patterns); split; discriminate.
Qed.

(** X2.  [validate_command] answers that the command is dangerous exactly
    when the command is not blank and some part of it matches one of the
    four patterns, and that it passes exactly when it is not blank and no
    part of it matches any of them. *)
Theorem validate_command_dangerous :
  forall command,
    (validate_command command = (false, MsgCommandDangerous command)
     <-> ~ blank command /\ dangerous command)
    /\ (validate_command command = (true, MsgCommandPassed)
        <-> ~ blank command /\ ~ dangerous command).
Proof.
  intros command; unfold validate_command, blank.
  rewrite command_blank_test.
  pose proof (command_danger_test command) as Hd.
  destruct (all_chars isspace command).
  - split; split; try discriminate; intros [H _]; exfalso; now apply H.
  - destruct (existsb _ dangerous_patterns).
    + split; split; try discriminate; try (intros _; reflexivity).
      * intros _; split; [discriminate|now apply Hd].
      * intros [_ H]; exfalso; apply H; now apply Hd.
    + split; split; try discriminate; try (intros _; reflexivity).
      * intros [_ H]; apply Hd in H; discriminate.
      * intros _; split; [discriminate|].
        intros H; apply Hd in H; discriminate.
Qed.

(** X3.  The verdict of [validate_command] does not depend on the case of
    the letters A-Z: two commands that are equal once their capital letters
    are made small get the same verdict. *)
Theorem validate_command_ignores_case :
  forall command1 command2,
    map_chars fold_case command1 = map_chars fold_case command2 ->
    fst (validate_command command1) = fst (validate_command command2).
Proof.
  intros command1 command2 H.
  rewrite <- (validate_command_fold_case command1),
    <- (validate_command_fold_case command2).
  now rewrite H.
Qed.

Lemma validate_command_ignores_case_witness :
  map_chars fold_case "sudo RM -Rf /" = map_chars fold_case "sudo rm -rf /"
  /\ fst (validate_command "sudo RM -Rf /")
     = fst (validate_command "sudo rm -rf /").
Proof.
  split; [reflexivity|].
  apply (validate_command_ignores_case "sudo RM -Rf /" "sudo rm -rf /").
  reflexivity.
Defined.

(** X4.  Whatever stands before and after, a command is rejected as
    dangerous when it has: [rm], white space, [-rf], white space and a
    slash; [dd], white space, [if=], then [of=/dev/] later on the same
    line; [mkfs.]; or [format] followed by a white space character (so a
    command with an option such as [--format json] is rejected too). *)
Theorem dangerous_shapes_rejected :
  forall a b,
    (forall w1 w2,
        w1 <> "" -> all_chars isspace w1 = true ->
        w2 <> "" -> all_chars isspace w2 = true ->
        fst (validate_command (a ++ ("rm" ++ w1 ++ "-rf" ++ w2 ++ "/") ++ b))
        = false)
    /\ (forall w m,
           w <> "" -> all_chars isspace w = true ->
           contains "010" m = false ->
           fst (validate_command
                  (a ++ ("dd" ++ w ++ "if=" ++ m ++ "of=/dev/") ++ b))
           = false)
    /\ fst (validate_command (a ++ "mkfs." ++ b)) = false
    /\ (forall c,
           isspace c = true ->
           fst (validate_command (a ++ ("format" ++ String c "") ++ b))
           = false).
Proof.
  intros a b.
  assert (Hrej : forall p w,
             In p dangerous_patterns -> matches p w ->
             all_chars isspace w = false ->
             fst (validate_command (a ++ w ++ b)) = false).
  { intros p w Hin Hm Hw.
    rewrite dangerous_rejected; [reflexivity|now apply not_blank_app|].
    exists p; split; [exact Hin|]; exists a, w, b; auto. }
  repeat split.
  - intros w1 w2 H1 H1' H2 H2'.
    apply Hrej with (p := nth 0 dangerous_patterns Never);
      [cbn; auto| |reflexivity].
    cbn [nth dangerous_patterns].
    constructor; [apply matches_lit|].
    constructor; [now apply matches_spaces|].
    constructor; [apply matches_lit|].
    constructor; [now apply matches_spaces|apply matches_lit].
  - intros w m H1 H1' Hm.
    apply Hrej with (p := nth 1 dangerous_patterns Never);
      [cbn; auto| |reflexivity].
    cbn [nth dangerous_patterns].
    constructor; [apply matches_lit|].
    constructor; [now apply matches_spaces|].
    constructor; [apply matches_lit|].
    constructor; [now apply matches_line|apply matches_lit].
  - apply Hrej with (p := nth 2 dangerous_patterns Never);
      [cbn; auto|apply matches_lit|reflexivity].
  - intros c Hc.
    apply Hrej with (p := nth 3 dangerous_patterns Never);
      [cbn; auto| |reflexivity].
    cbn [nth dangerous_patterns].
    constructor; [apply matches_lit|].
    apply matches_spaces; [discriminate|cbn; now rewrite Hc].
Qed.

(** ** [validate], exactly *)

Import ConfigSpec.

Section WellFormed.

Lemma mem_false (n : string) (names : list string) :
  mem n names = false <-> ~ In n names.
Proof.
  unfold mem; split.
  - intros H Hin.
    assert (E : existsb (String.eqb n) names = true)
      by (apply existsb_exists; exists n; split;
          [assumption|apply String.eqb_refl]).
    congruence.
  - intros H; destruct (existsb (String.eqb n) names) eqn:E; [|reflexivity].
    apply existsb_exists in E; destruct E as (m & Hin & Hm).
    apply String.eqb_eq in Hm; subst; contradiction.
Qed.

Lemma check_server_group_empty (i : nat) (sg : server_group) :
  check_server_group i sg = [] <-> group_ok sg.
Proof.
  unfold check_server_group, group_ok; split.
  - destruct (group sg) as [g|]; [|discriminate].
    destruct (hosts sg) as [[|h hs]|]; try discriminate.
    intros _; split; eauto.
  - intros [[g Hg] (h & hs & Hh)]; unfold label_of; rewrite Hg, Hh.
    reflexivity.
Qed.

Lemma check_server_groups_empty (sgs : list server_group) :
  forall i, check_server_groups i sgs = [] <-> Forall group_ok sgs.
Proof.
  induction sgs as [|sg sgs IH]; intros i; cbn [check_server_groups].
  - split; [constructor|reflexivity].
  - split.
    + intros H; apply app_eq_nil in H; destruct H as [H1 H2].
      constructor; [now apply (check_server_group_empty i)|now apply (IH (S i))].
    + inversion 1 as [|? ? H1 H2]; subst.
      apply (check_server_group_empty i) in H1; apply (IH (S i)) in H2.
      now rewrite H1, H2.
Qed.

(** A job leaves no error exactly when it is in order and its name is
    new. *)
Lemma check_job_empty (i : nat) (j : job) (names : list string) :
  fst (check_job i j names) = []
  <-> job_ok j /\ exists n, name j = Some n /\ mem n names = false.
Proof.
  unfold check_job, job_ok; split.
  - destruct (name j) as [n|]; [|discriminate].
    destruct (mem n names) eqn:Em; [discriminate|].
    destruct (schedule j) as [s|]; [|discriminate].
    destruct (validate_schedule s) as [vs ms] eqn:Es.
    destruct vs; [|discriminate].
    destruct (command j) as [c|]; [|discriminate].
    destruct (validate_command c) as [vc mc] eqn:Ec.
    destruct vc; [|discriminate].
    intros _; split; [|eauto].
    exists n, s, c; rewrite Es, Ec; cbn [fst]; repeat split; reflexivity.
  - intros [(n & s & c & Hn & Hs & Hc & Vs & Vc) (n' & Hn' & Hm)].
    rewrite Hn in *; injection Hn' as <-.
    rewrite Hm, Hs, Hc.
    destruct (validate_schedule s) as [vs ms]; cbn [fst] in Vs; subst vs.
    destruct (validate_command c) as [vc mc]; cbn [fst] in Vc; subst vc.
    reflexivity.
Qed.

Lemma check_job_names_of (i : nat) (j : job) (names : list string) :
  snd (check_job i j names)
  = match name j with Some n => n :: names | None => names end.
Proof.
  unfold check_job; now destruct (name j).
Qed.

(** The jobs leave no error exactly when each is in order and the names
    are new and pairwise distinct. *)
Lemma check_jobs_empty (js : list job) :
  forall i names,
    check_jobs i js names = []
    <-> Forall job_ok js /\ NoDup (job_names js)
        /\ forall n, In n (job_names js) -> ~ In n names.
Proof.
  induction js as [|j js IH]; intros i names; cbn [check_jobs].
  - split; [intros _|reflexivity].
    split; [constructor|]; split; [constructor|intros n []].
  - pose proof (check_job_empty i j names) as Hj.
    pose proof (check_job_names_of i j names) as Hn.
    destruct (check_job i j names) as [errs names']; cbn [fst snd] in Hj, Hn.
    unfold job_names; cbn [flat_map]; fold (job_names js).
    split.
    + intros H; apply app_eq_nil in H; destruct H as [H1 H2].
      apply Hj in H1; destruct H1 as [Hok (n & Hname & Hm)].
      apply (IH (S i) names') in H2; destruct H2 as (Hall & Hnd & Hnew).
      rewrite Hname in *; subst names'; cbn [app].
      apply mem_false in Hm.
      repeat split.
      * constructor; assumption.
      * constructor; [|assumption].
        intros Hin; apply (Hnew n Hin); now left.
      * intros m [<-|Hin]; [assumption|].
        intros Hin'; apply (Hnew m Hin); now right.
    + intros (Hall & Hnd & Hnew).
      inversion Hall as [|? ? Hok Hall']; subst.
      pose proof Hok as (n & s & c & Hname & _).
      rewrite Hname in *; cbn [app] in *.
      inversion Hnd as [|? ? Hnotin Hnd']; subst.
      assert (E : errs = []).
      { apply Hj; split; [assumption|].
        exists n; split; [reflexivity|].
        apply mem_false, Hnew; now left. }
      rewrite E; cbn [app].
      apply (IH (S i) (n :: names)); repeat split; auto.
      intros m Hin [<-|Hin']; [contradiction|].
      apply (Hnew m); [now right|assumption].
Qed.

End WellFormed.

(** X5.  [validate] accepts a configuration exactly when the configuration
    has its servers and its jobs, every server group has its name and one
    host or more, every job has its name, a schedule that validates and a
    command that validates, and no two jobs have the same name; it then
    returns no error. *)
Theorem validate_accepts_well_formed :
  forall cfg,
    (fst (validate cfg) = true <-> well_formed cfg)
    /\ (fst (validate cfg) = true <-> validate cfg = (true, [])).
Proof.
  intros cfg; unfold validate, well_formed.
  destruct (servers cfg) as [sgs|];
    [|split; split; try discriminate; intros (? & ? & ? & _); discriminate].
  destruct (jobs cfg) as [js|];
    [|split; split; try discriminate; intros (? & ? & _ & ? & _);
      discriminate].
  cbn [app is_nil negb fst].
  pose proof (check_server_groups_empty sgs 0) as Hs.
  pose proof (check_jobs_empty js 0 []) as Hj.
  destruct (check_server_groups 0 sgs ++ check_jobs 0 js [])%list eqn:E.
  - apply app_eq_nil in E; destruct E as [E1 E2].
    split; split; try reflexivity.
    intros _; exists sgs, js.
    apply Hs in E1; apply Hj in E2; destruct E2 as (H1 & H2 & _).
    auto.
  - cbn [is_nil fst]; split; split; try discriminate.
    intros (sgs' & js' & Es & Ej & H1 & H2 & H3).
    injection Es as <-; injection Ej as <-.
    apply Hs in H1.
    assert (H4 : check_jobs 0 js [] = []) by (apply Hj; repeat split; auto).
    rewrite H1, H4 in E; discriminate.
Qed.

(** ** The hosts and the jobs of a configuration *)

Import RenderSpec2.

Section HostsAndJobs.

Lemma get_hosts_concat (cfg : config) :
  get_hosts cfg None
  = flat_map hosts_of (match servers cfg with Some l => l | None => [] end).
Proof. reflexivity. Qed.

(** The hosts of groups in order are hosts, one or more per group. *)
Lemma flat_map_hosts_nil (sgs : list server_group) :
  Forall group_ok sgs -> flat_map hosts_of sgs = [] -> sgs = [].
Proof.
  destruct 1 as [|sg sgs [_ (h & hs & Hh)] _]; [reflexivity|].
  cbn [flat_map]; unfold hosts_of at 1; rewrite Hh; discriminate.
Qed.

Lemma filtered_out_user (u : string) (j : job) :
  u <> "" -> filtered_out (Some u) j = negb (of_user u j).
Proof.
  intros Hu; unfold filtered_out, of_user.
  destruct u; [congruence|]; now destruct (user j).
Qed.

Lemma jobs_lines_filter (usr : option string) (js : list job) :
  jobs_lines usr js
  = jobs_lines None (filter (fun j => negb (filtered_out usr j)) js).
Proof.
  induction js as [|j js IH]; [reflexivity|].
  cbn [jobs_lines filter].
  destruct (filtered_out usr j); cbn [negb]; [exact IH|].
  cbn [jobs_lines filtered_out]; now rewrite IH.
Qed.

Lemma filter_filter {A} (f g : A -> bool) (l : list A) :
  filter f (filter g l) = filter (fun x => g x && f x) l.
Proof.
  induction l as [|x l IH]; [reflexivity|]; cbn [filter].
  destruct (g x); cbn [filter andb]; [destruct (f x)|]; now rewrite IH.
Qed.

(** The body of the rendered text is made from the rendered jobs. *)
Lemma jobs_lines_rendered (cfg : config) (usr : option string) :
  jobs_lines usr (get_jobs cfg true)
  = jobs_lines None (rendered_jobs cfg usr).
Proof.
  unfold get_jobs, rendered_jobs.
  now rewrite jobs_lines_filter, filter_filter.
Qed.

Lemma job_lines_none (j : job) :
  job_lines j = None
  <-> name j = None \/ schedule j = None \/ command j = None.
Proof.
  unfold job_lines.
  destruct (name j); [|tauto].
  destruct (schedule j); [|tauto].
  destruct (command j); [|tauto].
  split; [discriminate|intros [H|[H|H]]; discriminate].
Qed.

Lemma jobs_lines_none (usr : option string) (js : list job) :
  jobs_lines usr js = None
  <-> exists j, In j js /\ filtered_out usr j = false /\ job_lines j = None.
Proof.
  induction js as [|j js IH]; cbn [jobs_lines].
  - split; [discriminate|intros (j & [] & _)].
  - destruct (filtered_out usr j) eqn:Ef.
    + rewrite IH; split; intros (j' & Hin & Hf & Hl).
      * exists j'; split; [now right|auto].
      * destruct Hin as [<-|Hin]; [congruence|eauto].
    + destruct (job_lines j) as [ls|] eqn:El.
      * destruct (jobs_lines usr js) as [more|].
        -- split; [discriminate|].
           intros (j' & [<-|Hin] & Hf & Hl); [congruence|].
           destruct IH as [_ IH].
           assert (E : @Some (list string) more = None)
             by (apply IH; eauto).
           discriminate.
        -- split; [intros _|reflexivity].
           destruct IH as [IH _]; destruct (IH eq_refl) as (j' & Hin & H).
           exists j'; split; [now right|exact H].
      * split; [intros _; exists j; split; [now left|auto]|reflexivity].
Qed.

(** *** The end of the rendered text *)

Lemma ends_blank_app (l1 l2 : list string) :
  ends_blank l1 -> ends_blank l2 -> ends_blank (l1 ++ l2).
Proof.
  intros H1 [->|[pre ->]]; [now rewrite app_nil_r|].
  right; exists (l1 ++ pre)%list; now rewrite app_assoc.
Qed.

Lemma job_lines_ends_blank (j : job) (ls : list string) :
  job_lines j = Some ls -> ends_blank ls.
Proof.
  unfold job_lines.
  destruct (name j) as [n|]; [|discriminate].
  destruct (schedule j) as [sch|]; [|discriminate].
  destruct (command j) as [cmd|]; [|discriminate].
  intros H.
  match type of H with
  | Some (?h ++ [?a; _])%list = _ =>
      assert (E : ls = (h ++ [a; ""])%list) by congruence;
      rewrite E; right; exists (h ++ [a])%list;
      now rewrite <- app_assoc
  end.
Qed.

Lemma jobs_lines_ends_blank (usr : option string) (js : list job) :
  forall body, jobs_lines usr js = Some body -> ends_blank body.
Proof.
  induction js as [|j js IH]; cbn [jobs_lines]; intros body H.
  - injection H as <-; now left.
  - destruct (filtered_out usr j); [auto|].
    destruct (job_lines j) as [ls|] eqn:El; [|discriminate].
    destruct (jobs_lines usr js) as [more|]; [|discriminate].
    injection H as <-.
    apply ends_blank_app; [eapply job_lines_ends_blank; eauto|auto].
Qed.

Lemma join_snoc (sep : string) (l : list string) (x : string) :
  l <> [] -> join sep (l ++ [x]) = join sep l ++ sep ++ x.
Proof.
  induction l as [|y l IH]; [congruence|intros _].
  destruct l as [|z l]; [reflexivity|].
  change ((y :: z :: l) ++ [x])%list with (y :: (z :: l) ++ [x])%list.
  change ((z :: l) ++ [x])%list with (z :: l ++ [x])%list at 1.
  rewrite join_cons.
  change (z :: l ++ [x])%list with ((z :: l) ++ [x])%list.
  rewrite IH by discriminate.
  rewrite join_cons, !append_assoc; reflexivity.
Qed.

End HostsAndJobs.

Import ConfigExamples.

Section ValidatedConfig.

Lemma validate_groups_ok (cfg : config) :
  fst (validate cfg) = true ->
  exists sgs, servers cfg = Some sgs /\ Forall group_ok sgs.
Proof.
  unfold validate.
  destruct (servers cfg) as [sgs|]; [|discriminate].
  destruct (jobs cfg) as [js|]; [|discriminate].
  cbn [app is_nil negb fst].
  destruct (check_server_groups 0 sgs ++ check_jobs 0 js [])%list eqn:E;
    [intros _|discriminate].
  apply app_eq_nil in E; destruct E as [E _].
  exists sgs; split; [reflexivity|].
  now apply (check_server_groups_empty sgs 0).
Qed.

Lemma rendered_jobs_restrict (u : string) (cfg : config) :
  u <> "" ->
  rendered_jobs (restrict_user u cfg) None = rendered_jobs cfg (Some u).
Proof.
  intros Hu; unfold rendered_jobs, restrict_user; cbn [jobs].
  destruct (jobs cfg) as [js|]; [|reflexivity].
  cbn [option_map]; rewrite filter_filter.
  apply filter_ext; intros j.
  rewrite (filtered_out_user u j Hu); cbn [filtered_out negb].
  rewrite negb_involutive, andb_true_r; apply andb_comm.
Qed.

Lemma generate_crontab_rendered now config_file cfg usr :
  generate_crontab now config_file cfg usr
  = option_map
      (fun body =>
         join newline (header_lines now config_file
                       ++ environment_lines cfg ++ body)%list)
      (jobs_lines None (rendered_jobs cfg usr)).
Proof.
  unfold generate_crontab, crontab_lines.
  rewrite jobs_lines_rendered.
  now destruct (jobs_lines None (rendered_jobs cfg usr)).
Qed.

End ValidatedConfig.

(** X6.  [get_hosts] returns the hosts of the selected server groups: a
    host is returned for a group name exactly when it is a host of a group
    of that name, and without a group name exactly when it is a host of
    some group; a name that no group carries gives no host. *)
Theorem get_hosts_of_groups :
  forall cfg grp,
    (forall h,
        In h (get_hosts cfg grp)
        <-> exists sgs sg,
            servers cfg = Some sgs /\ In sg sgs /\ In h (hosts_of sg)
            /\ match grp with
               | None => True
               | Some g => group sg = Some g
               end)
    /\ (forall g,
           grp = Some g ->
           (forall sgs sg, servers cfg = Some sgs -> In sg sgs ->
                           group sg <> Some g) ->
           get_hosts cfg grp = []).
Proof.
  intros cfg grp; split.
  - intros h; unfold get_hosts; rewrite in_flat_map.
    destruct (servers cfg) as [sgs|].
    + split.
      * intros (sg & Hin & Hh); exists sgs, sg.
        split; [reflexivity|]; split; [assumption|].
        destruct grp as [g|].
        -- unfold same_group in Hh.
           destruct (group sg) as [g'|]; [|contradiction].
           destruct (String.eqb g' g) eqn:E; [|contradiction].
           apply String.eqb_eq in E; subst; auto.
        -- auto.
      * intros (sgs' & sg & E & Hin & Hh & Hg); injection E as <-.
        exists sg; split; [assumption|].
        destruct grp as [g|]; [|exact Hh].
        unfold same_group; rewrite Hg, String.eqb_refl; exact Hh.
    + split; [intros (sg & [] & _)|intros (? & ? & ? & _); discriminate].
  - intros g -> Hno; unfold get_hosts.
    destruct (servers cfg) as [sgs|]; [|reflexivity].
    specialize (Hno sgs).
    induction sgs as [|sg sgs IH]; [reflexivity|].
    cbn [flat_map].
    assert (E : same_group sg g = false).
    { unfold same_group; destruct (group sg) as [g'|] eqn:Eg; [|reflexivity].
      apply String.eqb_neq; intros ->.
      apply (Hno sg); [reflexivity|now left|rewrite Eg; reflexivity]. }
    rewrite E; cbn [app]; apply IH.
    intros sg' _ Hin; apply Hno; [reflexivity|now right].
Qed.

Lemma get_hosts_of_groups_witness :
  get_hosts shared_host_config (Some "db") = ["web-01"]
  /\ get_hosts shared_host_config (Some "cache") = [].
Proof.
  split; [reflexivity|].
  apply (proj2 (get_hosts_of_groups shared_host_config (Some "cache")) "cache");
    [reflexivity|].
  intros sgs sg E Hin; injection E as <-.
  destruct Hin as [<-|[<-|[]]]; discriminate.
Defined.

(** X7.  For a configuration that passes validation and a call without
    explicit host list, [deploy] stops with the no-target-hosts error
    exactly when the configuration has no server group at all. *)
Theorem no_target_hosts_without_groups :
  forall config_file cfg ssh_user dry_run max_workers now world,
    fst (validate cfg) = true ->
    (prints (deploy config_file cfg None ssh_user dry_run max_workers now
                    world)
     = [PNoTargetHosts]
     <-> servers cfg = Some []).
Proof.
  intros config_file cfg ssh_user dry_run max_workers now world Hv.
  destruct (validate_groups_ok cfg Hv) as (sgs & Es & Hok).
  destruct (validate_generate cfg now config_file None Hv) as [out Hout].
  unfold deploy.
  destruct (validate cfg) as [valid errors]; cbn [fst] in Hv; subst valid.
  cbn [negb]; unfold target_hosts; rewrite get_hosts_concat, Es.
  destruct (flat_map hosts_of sgs) as [|h hs] eqn:Eh; cbn [is_nil].
  - apply (flat_map_hosts_nil sgs Hok) in Eh; subst; tauto.
  - rewrite Hout.
    split.
    + destruct dry_run; [discriminate|].
      destruct (max_workers <=? 0); discriminate.
    + intros E; injection E as ->; discriminate.
Qed.

Lemma no_target_hosts_without_groups_witness :
  fst (validate no_group_config) = true
  /\ prints (deploy "config/prod.yaml" no_group_config None "root" false 10
                    "2024-02-12 10:30:00" (fun _ => all_fine))
     = [PNoTargetHosts].
Proof.
  split; [reflexivity|].
  apply (no_target_hosts_without_groups
           "config/prod.yaml" no_group_config "root" false 10
           "2024-02-12 10:30:00" (fun _ => all_fine));
    reflexivity.
Defined.

(** X8.  [generate_crontab] raises [KeyError] exactly when a job that is
    enabled and not left out by the user filter lacks its name, its
    schedule or its command; jobs that are disabled or left out may lack
    them. *)
Theorem generate_crontab_key_error :
  forall now config_file cfg usr,
    generate_crontab now config_file cfg usr = None
    <-> exists j,
        emitted cfg usr j
        /\ (name j = None \/ schedule j = None \/ command j = None).
Proof.
  intros now config_file cfg usr.
  unfold generate_crontab, crontab_lines, emitted.
  pose proof (jobs_lines_none usr (get_jobs cfg true)) as H.
  destruct (jobs_lines usr (get_jobs cfg true)) as [body|].
  - split; [discriminate|].
    intros (j & [Hin Hf] & Hk).
    destruct H as [_ H].
    assert (E : Some body = None)
      by (apply H; exists j; repeat split; auto; now apply job_lines_none).
    discriminate.
  - split; [intros _|reflexivity].
    destruct H as [H _]; destruct (H eq_refl) as (j & Hin & Hf & Hl).
    exists j; split; [split; assumption|now apply job_lines_none].
Qed.

(** X9.  Rendering with a user filter is rendering, without filter, the
    configuration that keeps the jobs of that user only; and an empty user
    filter is no filter. *)
Theorem user_filter_restricts_jobs :
  forall now config_file cfg u,
    u <> "" ->
    generate_crontab now config_file cfg (Some u)
    = generate_crontab now config_file (restrict_user u cfg) None
    /\ generate_crontab now config_file cfg (Some "")
       = generate_crontab now config_file cfg None.
Proof.
  intros now config_file cfg u Hu; split.
  - rewrite !generate_crontab_rendered, (rendered_jobs_restrict u cfg Hu).
    reflexivity.
  - rewrite !generate_crontab_rendered; reflexivity.
Qed.

Lemma user_filter_restricts_jobs_witness :
  "root" <> ""
  /\ generate_crontab "2024-02-12 10:30:00" "config/prod.yaml" logged_config
                      (Some "root")
     = generate_crontab "2024-02-12 10:30:00" "config/prod.yaml"
                        (restrict_user "root" logged_config) None.
Proof.
  split; [discriminate|].
  apply (user_filter_restricts_jobs
           "2024-02-12 10:30:00" "config/prod.yaml" logged_config "root").
  discriminate.
Defined.

(** X10.  The rendered text depends on the environment mapping and on the
    jobs that are enabled and pass the filter, and on nothing else of the
    configuration: the server groups, the disabled jobs and the jobs the
    filter leaves out do not change it. *)
Theorem rendering_depends_on_rendered_jobs :
  forall now config_file cfg1 usr1 cfg2 usr2,
    environment cfg1 = environment cfg2 ->
    rendered_jobs cfg1 usr1 = rendered_jobs cfg2 usr2 ->
    generate_crontab now config_file cfg1 usr1
    = generate_crontab now config_file cfg2 usr2.
Proof.
  intros now config_file cfg1 usr1 cfg2 usr2 He Hj.
  rewrite !generate_crontab_rendered, Hj.
  unfold environment_lines; now rewrite He.
Qed.

Lemma rendering_depends_on_rendered_jobs_witness :
  environment shared_host_config = environment one_host_config_with_extras
  /\ rendered_jobs shared_host_config None
     = rendered_jobs one_host_config_with_extras (Some "")
  /\ generate_crontab "2024-02-12 10:30:00" "config/prod.yaml"
                      shared_host_config None
     = generate_crontab "2024-02-12 10:30:00" "config/prod.yaml"
                        one_host_config_with_extras (Some "").
Proof.
  split; [reflexivity|]; split; [reflexivity|].
  apply (rendering_depends_on_rendered_jobs
           "2024-02-12 10:30:00" "config/prod.yaml"
           shared_host_config None one_host_config_with_extras (Some ""));
    reflexivity.
Defined.

(** X11.  The text [generate_crontab] returns always ends with a line
    feed. *)
Theorem rendered_text_ends_with_newline :
  forall now config_file cfg usr out,
    generate_crontab now config_file cfg usr = Some out ->
    exists text, out = text ++ newline.
Proof.
  intros now config_file cfg usr out; unfold generate_crontab, crontab_lines.
  destruct (jobs_lines usr (get_jobs cfg true)) as [body|] eqn:Eb;
    [|discriminate].
  cbn [option_map]; intros H.
  assert (E : out = join newline (header_lines now config_file
                                  ++ environment_lines cfg ++ body)%list)
    by congruence.
  rewrite E; clear E H.
  assert (He : ends_blank (environment_lines cfg ++ body)).
  { apply ends_blank_app; [|eapply jobs_lines_ends_blank; eauto].
    unfold environment_lines; destruct (environment cfg); [|now left].
    right; eexists; reflexivity. }
  set (h := header_lines now config_file).
  destruct He as [->|[pre ->]].
  - exists (join newline (firstn 3 h)).
    rewrite app_nil_r.
    change h with (firstn 3 h ++ [""])%list.
    rewrite join_snoc by discriminate.
    now rewrite append_nil_r.
  - exists (join newline (h ++ pre)).
    rewrite app_assoc, join_snoc by (unfold h; discriminate).
    now rewrite append_nil_r.
Qed.

Lemma rendered_text_ends_with_newline_witness :
  exists text,
    generate_crontab "2024-02-12 10:30:00" "config/prod.yaml" logged_config
                     None
    = Some (text ++ newline).
Proof.
  destruct (generate_crontab "2024-02-12 10:30:00" "config/prod.yaml"
                             logged_config None) as [out|] eqn:E;
    [|discriminate].
  destruct (rendered_text_ends_with_newline _ _ _ _ _ E) as [text ->].
  exists text; reflexivity.
Defined.

(** X12.  A configuration that passes [validate] renders: for every clock
    reading, file name and user filter, [generate_crontab] returns a text
    and raises no [KeyError]. *)
Theorem validated_configuration_renders :
  forall cfg now config_file usr,
    fst (validate cfg) = true ->
    exists out, generate_crontab now config_file cfg usr = Some out.
Proof.
  intros cfg now config_file usr Hv.
  now apply validate_generate.
Qed.

Lemma validated_configuration_renders_witness :
  fst (validate logged_config) = true
  /\ exists out,
      generate_crontab "2024-02-12 10:30:00" "config/prod.yaml" logged_config
                       (Some "root")
      = Some out.
Proof.
  split; [reflexivity|].
  apply (validated_configuration_renders
           logged_config "2024-02-12 10:30:00" "config/prod.yaml"
           (Some "root")).
  reflexivity.
Defined.

(** ** More on the per-host procedure *)

Import DeploySpec.

Section PerHostMore.

Create HintDb logs.
#[local] Hint Resolve quiet_ret quiet_raise quiet_warn quiet_bind
  quiet_try_except quiet_if quiet_call quiet_run_commands
  quiet_get_ssh_client : logs.
#[local] Hint Extern 1 (forall _, _ = false) => intros; reflexivity : logs.
#[local] Hint Extern 1 (_ = false) => reflexivity : logs.

Lemma quiet_try_finally {A} f (m : M A) (c : M unit) :
  quiet f m -> quiet f c -> quiet f (try_finally m c).
Proof.
  intros Hm Hc r; unfold try_finally; specialize (Hm r); specialize (Hc r).
  destruct (m r) as [l1 x]; destruct (c r) as [l2 y]; cbn [fst] in *.
  now rewrite existsb_app, Hm, Hc.
Qed.

Lemma call_returns (r : remote) (o : op) (n : Z) (text : string) :
  r o = Returns n text -> call o r = ([Called o (Returns n text)], inr (n, text)).
Proof. unfold call; now intros ->. Qed.

Lemma call_log (r : remote) (o : op) : fst (call o r) = [Called o (r o)].
Proof. unfold call; now destruct (r o). Qed.

(** [upload_and_install] returns successes only. *)
Lemma upload_and_install_result user temp_file r log res :
  upload_and_install user temp_file r = (log, inr res) ->
  exists out,
    r (ReadStdout Main (verify_command user)) = Returns (fst out) (snd out)
    /\ res = (true, Deployed (strip (snd out))).
Proof.
  unfold upload_and_install; intros H.
  do 8 (apply bind_returns in H; destruct H as (? & ? & ? & _ & H & _)).
  apply bind_returns in H; destruct H as (l1 & out & l2 & Hout & H & _).
  apply bind_returns in H; destruct H as (? & ? & ? & _ & H & _).
  unfold ret in H; injection H as _ <-.
  exists out; split; [|reflexivity].
  unfold call in Hout.
  destruct (r (ReadStdout Main (verify_command user))); [discriminate|].
  now injection Hout as _ <-.
Qed.

Lemma call_returns_inv (r : remote) (o : op) l a :
  call o r = (l, inr a) ->
  r o = Returns (fst a) (snd a) /\ l = [Called o (r o)].
Proof.
  unfold call; destruct (r o); [discriminate|].
  intros H; injection H as <- <-; auto.
Qed.

(** What a run of [upload_and_install] that returns has done. *)
Lemma upload_and_install_inv user temp_file r lu res :
  upload_and_install user temp_file r = (lu, inr res) ->
  (exists n text,
      r (SftpPut temp_file (remote_temp_of r user)) = Returns n text)
  /\ In (Called (SftpPut temp_file (remote_temp_of r user))
                (r (SftpPut temp_file (remote_temp_of r user)))) lu
  /\ (exists text,
         r (RecvExitStatus Main
              (install_command user (remote_temp_of r user)))
         = Returns 0 text)
  /\ existsb (closes Main) lu = true.
Proof.
  intros H; pose proof (upload_and_install_closes _ _ _ _ _ H) as Hclose.
  unfold upload_and_install in H.
  apply bind_returns in H; destruct H as (? & ? & ? & _ & H & ->).
  apply bind_returns in H; destruct H as (? & pid & ? & Hpid & H & ->).
  apply call_returns_inv in Hpid; destruct Hpid as [Hpid _].
  assert (Et : "/tmp/crontab." ++ user ++ "." ++ snd pid
               = remote_temp_of r user)
    by (unfold remote_temp_of; now rewrite Hpid).
  rewrite Et in H.
  apply bind_returns in H; destruct H as (lp & put & ? & Hput & H & ->).
  apply call_returns_inv in Hput; destruct Hput as [Hput ->].
  apply bind_returns in H; destruct H as (? & ? & ? & _ & H & ->).
  apply bind_returns in H; destruct H as (? & ? & ? & _ & H & ->).
  apply bind_returns in H; destruct H as (? & code & ? & Hcode & H & ->).
  apply call_returns_inv in Hcode; destruct Hcode as [Hcode _].
  apply bind_returns in H; destruct H as (? & ? & ? & Hif & _ & ->).
  repeat split.
  - eauto.
  - apply in_or_app; right; apply in_or_app; right; apply in_or_app; left.
    now left.
  - destruct (fst code =? 0) eqn:E.
    + apply Z.eqb_eq in E; rewrite E in Hcode; eauto.
    + cbn [negb] in Hif; unfold bind, raise in Hif.
      destruct (call _ r) as [? [?|?]]; discriminate.
  - exact Hclose.
Qed.

(** A run returns: through the handler, as a failure, or with what
    [upload_and_install] returned. *)
Lemma deploy_crontab_returns r host content user backup :
  exists log res,
    deploy_crontab host content user backup r = (log, inr res)
    /\ ((exists e, res = (false, Failure e))
        \/ exists l0 temp_file lu,
            call (TempFile content) r = (l0, inr temp_file)
            /\ upload_and_install user (snd temp_file) r = (lu, inr res)
            /\ incl lu log).
Proof.
  destruct (deploy_crontab host content user backup r) as [log res] eqn:E.
  unfold deploy_crontab in E.
  assert (Hinr : exists a, res = inr a).
  { revert E; unfold try_except.
    match goal with |- context [let (_, _) := ?m r in _] =>
      destruct (m r) as [l1 [e|a]] end; cbn; intros E; injection E as _ <-;
      eauto. }
  destruct Hinr as [a ->]; exists log, a; split; [reflexivity|].
  apply try_except_returns in E.
  destruct E as [H|(l1 & e & l2 & _ & H & _)].
  - right.
    apply bind_returns in H; destruct H as (la & ? & ? & _ & H & ->).
    apply bind_returns in H; destruct H as (lb & ? & ? & _ & H & ->).
    unfold upload_step in H.
    apply bind_returns in H; destruct H as (l0 & tf & ? & Htf & H & ->).
    apply try_finally_returns in H; destruct H as (lu & lf & H & ->).
    exists l0, tf, lu; repeat split; auto.
    do 3 apply incl_appr; apply incl_appl, incl_refl.
  - left; unfold ret in H; injection H as _ <-; eauto.
Qed.

End PerHostMore.

(** X13.  [deploy_crontab] never raises: whatever the remote side does,
    the run returns an outcome, either a success with the line count the
    verification read, or a failure with the exception. *)
Theorem deploy_crontab_always_returns :
  forall host content user backup r,
    exists log,
      (exists count,
          deploy_crontab host content user backup r
          = (log, inr (true, Deployed count)))
      \/ (exists e,
             deploy_crontab host content user backup r
             = (log, inr (false, Failure e))).
Proof.
  intros host content user backup r.
  destruct (deploy_crontab_returns r host content user backup)
    as (log & res & E & [[e ->]|(l0 & tf & lu & _ & Hu & _)]);
    exists log; [right; eauto|left].
  apply upload_and_install_result in Hu; destruct Hu as (out & _ & ->).
  eauto.
Qed.

(** X14.  When the connection fails, [deploy_crontab] does nothing else:
    the only call of the run is the [connect] that raised, no backup and no
    upload is attempted, and the outcome is the failure of the
    connection. *)
Theorem connection_failure_stops_the_run :
  forall host content user backup r what,
    r (Connect Main host) = Raises what ->
    deploy_crontab host content user backup r
    = ([Called (Connect Main host) (Raises what)],
       inr (false, Failure (ConnectFailed what))).
Proof.
  intros host content user backup r what H.
  unfold deploy_crontab, try_except, bind, _get_ssh_client, try_except, bind,
    call, raise, ret.
  now rewrite H.
Qed.

Lemma connection_failure_stops_the_run_witness :
  unreachable (Connect Main "web-01") = Raises "No route to host"
  /\ deploy_crontab "web-01" "CONTENT" "root" true unreachable
     = ([Called (Connect Main "web-01") (Raises "No route to host")],
        inr (false, Failure (ConnectFailed "No route to host"))).
Proof.
  split; [reflexivity|].
  apply (connection_failure_stops_the_run
           "web-01" "CONTENT" "root" true unreachable "No route to host").
  reflexivity.
Defined.

(** X15.  Once the temporary file is written, [deploy_crontab] removes
    it on every path: the last call of the run is [os.unlink] of that
    file, whether the upload and the install succeed, fail or raise. *)
Theorem temporary_file_always_removed :
  forall host content user backup r n text k path,
    r (Connect Main host) = Returns n text ->
    r (TempFile content) = Returns k path ->
    exists before,
      fst (deploy_crontab host content user backup r)
      = (before ++ [Called (Unlink path) (r (Unlink path))])%list.
Proof.
  intros host content user backup r n text k path Hc Ht.
  destruct (backup_step_returns host user backup r) as [lb Hb].
  rewrite (deploy_crontab_connected _ content _ _ _ _ _ _ Hc Hb).
  unfold try_except, upload_step, bind at 1.
  rewrite (call_returns r _ _ _ Ht); cbn [snd].
  unfold try_finally, bind at 1.
  destruct (upload_and_install user path r) as [lu x].
  pose proof (call_log r (Unlink path)) as Hu.
  destruct (call (Unlink path) r) as [l2 [e|a]]; cbn [fst] in Hu; subst l2;
    unfold ret; cbn [app fst].
  - eexists (_ :: lb ++ _ :: lu)%list.
    rewrite app_nil_r; cbn [app]; rewrite <- !app_assoc; reflexivity.
  - destruct x as [e|a']; cbn [fst];
      eexists (_ :: lb ++ _ :: lu)%list;
      rewrite ?app_nil_r; cbn [app]; rewrite <- !app_assoc; reflexivity.
Qed.

Lemma temporary_file_always_removed_witness :
  install_fails (Connect Main "web-01") = Returns 0 ""
  /\ install_fails (TempFile "CONTENT") = Returns 0 "/tmp/tmpabc"
  /\ exists before,
      fst (deploy_crontab "web-01" "CONTENT" "root" true install_fails)
      = (before ++ [Called (Unlink "/tmp/tmpabc") (Returns 0 "")])%list.
Proof.
  split; [reflexivity|]; split; [reflexivity|].
  apply (temporary_file_always_removed
           "web-01" "CONTENT" "root" true install_fails 0 "" 0 "/tmp/tmpabc");
    reflexivity.
Defined.

(** X16.  [deploy_crontab] reports a success only when the upload of the
    temporary file returned, the install command ended with status 0 and
    the session was closed; the message carries the output of the
    verification command, stripped. *)
Theorem success_means_installed :
  forall host content user backup r log msg,
    deploy_crontab host content user backup r = (log, inr (true, msg)) ->
    exists temp_file,
      (exists k, r (TempFile content) = Returns k temp_file)
      /\ (exists n text,
             r (SftpPut temp_file (remote_temp_of r user)) = Returns n text)
      /\ In (Called (SftpPut temp_file (remote_temp_of r user))
                    (r (SftpPut temp_file (remote_temp_of r user)))) log
      /\ (exists text,
             r (RecvExitStatus Main
                  (install_command user (remote_temp_of r user)))
             = Returns 0 text)
      /\ existsb (closes Main) log = true
      /\ msg = Deployed
                 (strip (reply_text
                           (r (ReadStdout Main (verify_command user))))).
Proof.
  intros host content user backup r log msg H.
  pose proof (success_closes_session r _ _ _ _ _ _ H) as Hclose.
  destruct (deploy_crontab_returns r host content user backup)
    as (log' & res & E & Hres).
  rewrite E in H; injection H as -> ->.
  destruct Hres as [[e He]|(l0 & tf & lu & Htf & Hu & Hincl)];
    [discriminate|].
  apply call_returns_inv in Htf; destruct Htf as [Htf _].
  destruct (upload_and_install_inv _ _ _ _ _ Hu) as (Hput & Hin & Hcode & _).
  apply upload_and_install_result in Hu; destruct Hu as (out & Hout & Hmsg).
  exists (snd tf); repeat split; eauto.
  injection Hmsg as ->; now rewrite Hout.
Qed.

Lemma success_means_installed_witness :
  deploy_crontab "web-01" "CONTENT" "root" true all_fine
  = (fst (deploy_crontab "web-01" "CONTENT" "root" true all_fine),
     inr (true, Deployed "12"))
  /\ exists text,
      all_fine (RecvExitStatus Main
                  (install_command "root" (remote_temp_of all_fine "root")))
      = Returns 0 text.
Proof.
  assert (H : deploy_crontab "web-01" "CONTENT" "root" true all_fine
              = (fst (deploy_crontab "web-01" "CONTENT" "root" true all_fine),
                 inr (true, Deployed "12"))) by reflexivity.
  split; [exact H|].
  destruct (success_means_installed _ _ _ _ _ _ _ H)
    as (tf & _ & _ & _ & Hcode & _).
  exact Hcode.
Defined.

Section QuietRemote.

Variable r : remote.
Hypothesis r_returns : never_raises r.

(** On a remote side on which no call raises, a call logs itself and
    returns. *)
Lemma call_quiet (o : op) :
  call o r = ([Called o (r o)], inr (reply_code (r o), reply_text (r o))).
Proof.
  unfold call; destruct (r_returns o) as (n & text & ->); reflexivity.
Qed.

Lemma get_ssh_client_quiet (s : session) (host : string) :
  _get_ssh_client s host r = ([Called (Connect s host) (r (Connect s host))],
                              inr tt).
Proof.
  unfold _get_ssh_client, try_except, bind; now rewrite call_quiet.
Qed.

Lemma run_commands_quiet (s : session) (commands : list string) :
  snd (run_commands s commands r) = inr tt
  /\ existsb (closes s) (fst (run_commands s commands r)) = false.
Proof.
  induction commands as [|cmd rest [IH1 IH2]]; cbn [run_commands];
    [split; reflexivity|].
  unfold bind; rewrite !call_quiet.
  destruct (run_commands s rest r) as [l x]; cbn [fst snd] in *; subst x.
  split; [reflexivity|].
  cbn [app existsb closes]; now rewrite IH2.
Qed.

Lemma backup_crontab_quiet (host user : string) :
  snd (backup_crontab host user r)
  = inr (true, BackupFile (backup_dir ++ "/crontab." ++ user ++ "."
                           ++ reply_text (r Now)))
  /\ existsb (closes Backup) (fst (backup_crontab host user r)) = true.
Proof.
  assert (E : exists l,
             backup_crontab host user r
             = ((l ++ [Called (Close Backup) (r (Close Backup))])%list,
                inr (true,
                     BackupFile (backup_dir ++ "/crontab." ++ user ++ "."
                                 ++ reply_text (r Now))))).
  { unfold backup_crontab, try_except, bind.
    rewrite get_ssh_client_quiet, call_quiet; cbn [snd].
    destruct (run_commands_quiet Backup
                (backup_commands user
                   (backup_dir ++ "/crontab." ++ user ++ "."
                    ++ reply_text (r Now)))) as [H1 _].
    destruct (run_commands Backup _ r) as [l x]; cbn [fst snd] in *; subst x.
    rewrite call_quiet; unfold ret.
    exists (Called (Connect Backup host) (r (Connect Backup host))
            :: Called Now (r Now) :: l).
    f_equal; rewrite app_nil_r; cbn [app]; reflexivity. }
  destruct E as [l ->]; cbn [fst snd]; split; [reflexivity|].
  rewrite existsb_app; cbn [existsb closes session_eqb].
  now rewrite !orb_true_r.
Qed.

Lemma backup_step_quiet (host user : string) (backup : bool) :
  snd (backup_step host user backup r) = inr tt.
Proof.
  unfold backup_step; destruct backup; [|reflexivity].
  unfold bind.
  destruct (backup_crontab_quiet host user) as [H _].
  destruct (backup_crontab host user r) as [l x]; cbn [snd] in H; subst x.
  reflexivity.
Qed.

End QuietRemote.

(** X17.  On a remote side on which no call raises, the outcome of
    [deploy_crontab] is decided by the exit status of the install command
    alone: status 0 gives a success with the stripped output of the
    verification command, any other status a failure with the error text
    of the install command.  The exit statuses of the backup commands and
    what the verification finds do not enter. *)
Theorem install_status_decides_outcome :
  forall host content user backup r,
    never_raises r ->
    let cmd := install_command user (remote_temp_of r user) in
    snd (deploy_crontab host content user backup r)
    = inr (if reply_code (r (RecvExitStatus Main cmd)) =? 0
           then (true,
                 Deployed
                   (strip (reply_text
                             (r (ReadStdout Main (verify_command user))))))
           else (false,
                 Failure (InstallFailed (reply_text (r (ReadStderr Main cmd)))))).
Proof.
  intros host content user backup r Hr cmd.
  destruct (Hr (Connect Main host)) as (n & text & Hc).
  pose proof (backup_step_quiet r Hr host user backup) as Hb.
  destruct (backup_step host user backup r) as [lb x] eqn:Eb;
    cbn [snd] in Hb; subst x.
  rewrite (deploy_crontab_connected _ content _ _ _ _ _ _ Hc Eb).
  unfold try_except, upload_step, try_finally, upload_and_install.
  unfold bind, raise, ret.
  repeat (rewrite (call_quiet r Hr); cbv beta iota; cbn [fst snd]).
  fold (remote_temp_of r user); fold cmd.
  destruct (reply_code (r (RecvExitStatus Main cmd)) =? 0); cbn [negb];
    repeat (rewrite (call_quiet r Hr); cbv beta iota; cbn [fst snd]);
    reflexivity.
Qed.

Lemma install_status_decides_outcome_witness :
  never_raises all_status_3
  /\ snd (deploy_crontab "web-01" "CONTENT" "root" true all_status_3)
     = inr (false, Failure (InstallFailed "no crontab for root")).
Proof.
  assert (H : never_raises all_status_3)
    by (intros o; destruct o; cbn; eauto).
  split; [exact H|].
  apply (install_status_decides_outcome "web-01" "CONTENT" "root" true
                                        all_status_3 H).
Defined.

(** X18.  On a remote side on which no call raises, [backup_crontab]
    reports a success whatever the exit statuses of its two commands are:
    it returns the path of the backup file, made of the backup directory,
    the user and the clock reading, and it has closed its session. *)
Theorem backup_ignores_exit_statuses :
  forall host user r,
    never_raises r ->
    snd (backup_crontab host user r)
    = inr (true,
           BackupFile ("/var/backups/crontab/crontab." ++ user ++ "."
                       ++ reply_text (r Now)))
    /\ existsb (closes Backup) (fst (backup_crontab host user r)) = true.
Proof.
  intros host user r Hr; exact (backup_crontab_quiet r Hr host user).
Qed.

Lemma backup_ignores_exit_statuses_witness :
  never_raises all_status_3
  /\ all_status_3 (RecvExitStatus Backup "mkdir -p /var/backups/crontab")
     = Returns 3 ""
  /\ snd (backup_crontab "web-01" "root" all_status_3)
     = inr (true,
            BackupFile "/var/backups/crontab/crontab.root.20240212_103000").
Proof.
  assert (H : never_raises all_status_3)
    by (intros o; destruct o; cbn; eauto).
  split; [exact H|]; split; [reflexivity|].
  apply (backup_ignores_exit_statuses "web-01" "root" all_status_3 H).
Defined.

(** X19.  [backup_crontab] closes its session exactly when it succeeds.
    When the call that closes the session does not raise, the log of the
    backup has [client.close()] if and only if the backup returned a
    success: a backup that fails after its session opened returns with
    the session still open. *)
Theorem backup_session_closed_only_on_success :
  forall host user r n t,
    r (Close Backup) = Returns n t ->
    existsb (closes Backup) (fst (backup_crontab host user r)) = true
    <-> exists path,
        snd (backup_crontab host user r) = inr (true, BackupFile path).
Proof.
  intros host user r n t Hclose.
  assert (Q1 : existsb (closes Backup) (fst (_get_ssh_client Backup host r))
               = false)
    by (apply quiet_get_ssh_client; reflexivity).
  assert (Q2 : existsb (closes Backup) (fst (call Now r)) = false)
    by (apply quiet_call; reflexivity).
  assert (Q3 : forall file,
             existsb (closes Backup)
               (fst (run_commands Backup (backup_commands user file) r))
             = false)
    by (intros file; apply quiet_run_commands; reflexivity).
  unfold backup_crontab, try_except, bind.
  destruct (_get_ssh_client Backup host r) as [l1 [e1|[]]]; cbn [fst] in Q1.
  - cbn; rewrite existsb_app, Q1; cbn.
    split; [discriminate|intros [path H]; discriminate].
  - destruct (call Now r) as [l2 [e2|now]]; cbn [fst] in Q2.
    + cbn; rewrite !existsb_app, Q1, Q2; cbn.
      split; [discriminate|intros [path H]; discriminate].
    + specialize (Q3 (backup_dir ++ "/crontab." ++ user ++ "." ++ snd now)).
      destruct (run_commands Backup _ r) as [l3 [e3|[]]]; cbn [fst] in Q3.
      * cbn; rewrite !existsb_app, Q1, Q2, Q3; cbn.
        split; [discriminate|intros [path H]; discriminate].
      * rewrite (call_returns r _ n t Hclose); unfold ret; cbn.
        rewrite !existsb_app; cbn.
        split; [intros _; eexists; reflexivity|intros _].
        now rewrite !orb_true_r.
Qed.

Lemma backup_session_closed_only_on_success_witness :
  backup_exec_fails (Close Backup) = Returns 0 ""
  /\ existsb (opens Backup)
       (fst (backup_crontab "web-01" "root" backup_exec_fails)) = true
  /\ snd (backup_crontab "web-01" "root" backup_exec_fails)
     = inr (false, Failure (Raised "Channel closed"))
  /\ existsb (closes Backup)
       (fst (backup_crontab "web-01" "root" backup_exec_fails)) = false.
Proof.
  split; [reflexivity|]; split; [reflexivity|]; split; [reflexivity|].
  destruct (existsb (closes Backup)
              (fst (backup_crontab "web-01" "root" backup_exec_fails)))
    eqn:E; [|reflexivity].
  apply (backup_session_closed_only_on_success "web-01" "root"
           backup_exec_fails 0 "" eq_refl) in E.
  destruct E as [path E]; discriminate E.
Defined.

Section CurrentCrontab.

Variable r : remote.
Variables host user : string.

Lemma get_current_crontab_connected n t :
  r (Connect Main host) = Returns n t ->
  get_current_crontab host user r
  = let (l, res) :=
      (call (ExecCommand Main (list_command user)) ;;
       exit_code <- call (RecvExitStatus Main (list_command user)) ;;
       if fst exit_code =? 0 then
         content <- call (ReadStdout Main (list_command user)) ;;
         call (Close Main) ;; ret (true, Content (snd content))
       else call (Close Main) ;; ret (true, Content "# No crontab"))%deploy r in
    match res with
    | inl e => ((Called (Connect Main host) (Returns n t) :: l ++ [])%list,
                inr (false, Error e))
    | inr a => (Called (Connect Main host) (Returns n t) :: l, inr a)
    end.
Proof.
  intros Hc.
  unfold get_current_crontab, try_except, bind at 1, _get_ssh_client,
    try_except, bind at 1.
  rewrite (call_returns r _ n t Hc); unfold ret at 1; cbn [app].
  match goal with
  | |- context [bind ?m ?k r] => destruct (bind m k r) as [l [e|a]]
  end; reflexivity.
Qed.

End CurrentCrontab.

(** X20.  [get_current_crontab] never raises, and it reports a crontab
    that cannot be listed as a success.  When no call raises, the result
    is a success whatever the exit status of [crontab -l] is: the output
    of the command for status 0, the text [# No crontab] for any other
    status, and the session is closed.  When the connection cannot be
    opened, the result is a failure with the connection error. *)
Theorem current_crontab_failure_reads_as_empty :
  forall host user r,
    (never_raises r ->
     snd (get_current_crontab host user r)
     = inr (true,
            Content
              (if reply_code (r (RecvExitStatus Main (list_command user))) =? 0
               then reply_text (r (ReadStdout Main (list_command user)))
               else "# No crontab"))
     /\ existsb (closes Main) (fst (get_current_crontab host user r)) = true)
    /\ (forall what,
          r (Connect Main host) = Raises what ->
          get_current_crontab host user r
          = ([Called (Connect Main host) (Raises what)],
             inr (false, Error (ConnectFailed what))))
    /\ exists log res, get_current_crontab host user r = (log, inr res).
Proof.
  intros host user r; split; [|split].
  - intros Hr.
    destruct (Hr (Connect Main host)) as (n & t & Hc).
    rewrite (get_current_crontab_connected r host user n t Hc).
    unfold bind, ret.
    repeat (rewrite (call_quiet r Hr); cbv beta iota; cbn [fst snd]).
    destruct (reply_code (r (RecvExitStatus Main (list_command user))) =? 0);
      repeat (rewrite (call_quiet r Hr); cbv beta iota; cbn [fst snd]);
      (split; [reflexivity|]); cbn [app existsb closes session_eqb];
      now rewrite ?orb_true_r.
  - intros what Hc.
    unfold get_current_crontab, try_except, bind at 1, _get_ssh_client,
      try_except, bind at 1, call.
    rewrite Hc; reflexivity.
  - unfold get_current_crontab, try_except.
    match goal with
    | |- context [bind ?m ?k r] => destruct (bind m k r) as [l [e|a]]
    end; unfold ret; eauto.
Qed.

Lemma current_crontab_failure_reads_as_empty_witness :
  never_raises all_status_3
  /\ snd (get_current_crontab "web-01" "root" all_status_3)
     = inr (true, Content "# No crontab").
Proof.
  assert (H : never_raises all_status_3)
    by (intros o; destruct o; cbn; eauto).
  split; [exact H|].
  exact (proj1 (proj1 (current_crontab_failure_reads_as_empty
                         "web-01" "root" all_status_3) H)).
Defined.

Import CronMain ManagerSpec.

Section StripTwice.

Variable space : ascii -> bool.

Lemma rstrip_rstrip (s : string) :
  rstrip_of space (rstrip_of space s) = rstrip_of space s.
Proof.
  induction s as [|c s IH]; [reflexivity|].
  cbn [rstrip_of].
  destruct (rstrip_of space s) as [|y r'] eqn:E.
  - destruct (space c) eqn:Ec; [reflexivity|].
    cbn [rstrip_of]; now rewrite Ec.
  - cbn [rstrip_of] in IH |- *.
    change (rstrip_of space (String y r')) with
      (match rstrip_of space r' with
       | "" => if space y then "" else String y ""
       | String a b => String y (String a b)
       end) in IH.
    now rewrite IH.
Qed.

Lemma rstrip_head (c : ascii) (s : string) :
  space c = false -> exists t, rstrip_of space (String c s) = String c t.
Proof.
  intros Hc; cbn [rstrip_of].
  destruct (rstrip_of space s); [rewrite Hc|]; eauto.
Qed.

Lemma lstrip_head (s : string) :
  lstrip_of space s = ""
  \/ exists c t, lstrip_of space s = String c t /\ space c = false.
Proof.
  induction s as [|c s IH]; [now left|].
  cbn [lstrip_of]; destruct (space c) eqn:Ec; [exact IH|right; eauto].
Qed.

Lemma strip_strip (s : string) :
  strip_of space (strip_of space s) = strip_of space s.
Proof.
  unfold strip_of.
  destruct (lstrip_head s) as [->|(c & t & -> & Hc)]; [reflexivity|].
  destruct (rstrip_head c t Hc) as [t' E].
  rewrite E at 1; cbn [lstrip_of]; rewrite Hc, <- E.
  apply rstrip_rstrip.
Qed.

End StripTwice.

Section Manager.

Lemma split_on_length (sep : ascii) (s : string) :
  length (split_on sep s) = S (occurrences sep s).
Proof.
  induction s as [|c s IH]; [reflexivity|].
  rewrite split_on_cons; cbn [occurrences].
  destruct (Ascii.eqb c sep); [cbn [length]; now rewrite IH|].
  destruct (split_on sep s) as [|w ws]; [discriminate IH|exact IH].
Qed.

Lemma comma_is_not_space : isspace "," = false.
Proof. reflexivity. Qed.

Lemma hosts_argument_entries (text : string) :
  Forall host_entry (map strip (split_on "," text)).
Proof.
  apply Forall_forall; intros h Hh.
  apply in_map_iff in Hh; destruct Hh as (p & <- & Hp).
  split; [apply strip_strip|].
  unfold strip; rewrite (contains_strip isspace); [|reflexivity].
  exact (proj1 (Forall_forall _ _) (split_on_pieces "," text) p Hp).
Qed.

Lemma filter_partition {A} (p : A -> bool) (l : list A) :
  (length (filter p l) + length (filter (fun x => negb (p x)) l)
   = length l)%nat.
Proof.
  induction l as [|x l IH]; [reflexivity|].
  cbn [filter]; destruct (p x); cbn [negb length]; lia.
Qed.

Lemma no_failure_forallb {A} (p : A -> bool) (l : list A) :
  Nat.eqb (length (filter (fun x => negb (p x)) l)) 0 = forallb p l.
Proof.
  induction l as [|x l IH]; [reflexivity|].
  cbn [filter forallb]; destruct (p x); cbn [negb andb length]; auto.
Qed.

Lemma run_task_returned content ssh_user host r :
  returned_pair (run_task content ssh_user host r).
Proof.
  unfold returned_pair, run_task.
  destruct (deploy_crontab_returns r host content ssh_user true)
    as (log & [ok msg] & -> & _).
  cbn; eauto.
Qed.

Lemma submit_all_returned content ssh_user world hosts :
  forall i, Forall returned_pair (submit_all content ssh_user world i hosts).
Proof.
  induction hosts as [|h hosts IH]; intros i; cbn [submit_all];
    constructor; [apply run_task_returned|apply IH].
Qed.

Lemma submit_all_length content ssh_user world hosts :
  forall i, length (submit_all content ssh_user world i hosts) = length hosts.
Proof.
  induction hosts as [|h hosts IH]; intros i; cbn [submit_all length];
    [reflexivity|now rewrite IH].
Qed.

(** The branches of [deploy] for a configuration that passes validation
    and a list of target hosts that is not empty. *)
Lemma deploy_started config_file cfg hosts ssh_user dry_run max_workers now
      world :
  fst (validate cfg) = true ->
  target_hosts cfg hosts <> [] ->
  exists content,
    generate_crontab now config_file cfg None = Some content
    /\ deploy config_file cfg hosts ssh_user dry_run max_workers now world
       = let hosts := target_hosts cfg hosts in
         let banner := PBanner (length hosts) max_workers in
         if dry_run then
           {| prints := [banner; PDryRun content hosts];
              runs := []; ended := Returned true |}
         else if max_workers <=? 0 then
           {| prints := [banner]; runs := []; ended := ValueError |}
         else
           let rs := submit_all content ssh_user world 0 hosts in
           let success_count := length (filter succeeded rs) in
           let failed_count :=
             length (filter (fun run => negb (succeeded run)) rs) in
           {| prints := [banner; PSummary success_count failed_count];
              runs := rs;
              ended := Returned (Nat.eqb failed_count 0) |}.
Proof.
  intros Hv Hh.
  destruct (validate_generate cfg now config_file None Hv) as [out Hout].
  exists out; split; [exact Hout|].
  unfold deploy.
  destruct (validate cfg) as [valid errors]; cbn [fst] in Hv; subst valid.
  cbn [negb].
  destruct (target_hosts cfg hosts) as [|h hs]; [congruence|].
  cbn [is_nil]; rewrite Hout; reflexivity.
Qed.

Create HintDb written.
#[local] Hint Resolve quiet_ret quiet_raise quiet_warn quiet_bind
  quiet_try_except quiet_try_finally quiet_if quiet_call quiet_run_commands
  quiet_get_ssh_client : written.
#[local] Hint Extern 1 (forall _, _ = false) => intros; reflexivity : written.
#[local] Hint Extern 1 (_ = false) => reflexivity : written.

(** A run writes no temporary file with a content other than the one it
    was given. *)
Lemma deploy_crontab_writes_content host content user backup :
  quiet (writes_other content) (deploy_crontab host content user backup).
Proof.
  unfold deploy_crontab.
  apply quiet_try_except; [|auto with written].
  apply quiet_bind; [auto with written|intros _].
  apply quiet_bind.
  - unfold backup_step, backup_crontab; destruct backup;
      auto 14 with written.
  - intros _; unfold upload_step.
    apply quiet_bind.
    + apply quiet_call; intros rep; cbn [writes_other].
      now rewrite String.eqb_refl.
    + intros tf; apply quiet_try_finally; [|auto with written].
      unfold upload_and_install.
      repeat (apply quiet_bind; [auto with written|intros ?]).
      auto with written.
Qed.

Lemma submit_all_writes_content content ssh_user world hosts :
  forall i,
    Forall (fun run => existsb (writes_other content) (run_log run) = false)
           (submit_all content ssh_user world i hosts).
Proof.
  induction hosts as [|h hs IH]; intros i; cbn [submit_all];
    [constructor|].
  constructor; [|apply IH].
  unfold run_task.
  pose proof (deploy_crontab_writes_content h content ssh_user true
                (world i)) as Hq.
  destruct (deploy_crontab h content ssh_user true (world i)); exact Hq.
Qed.

End Manager.

(** X21.  A dry run of [deploy] touches no host and does not look at the
    worker count.  For a configuration that passes validation and target
    hosts that are not all missing, the dry run starts no task, returns
    true and prints one text and the list of target hosts; this holds for
    every worker count, also for a count of zero or less, with which the
    real deployment ends in the error of the executor.  With a positive
    count the real deployment starts its tasks with the text the dry run
    printed, and no task writes another text to its temporary file. *)
Theorem dry_run_touches_no_host :
  forall config_file cfg hosts ssh_user max_workers now world,
    fst (validate cfg) = true ->
    target_hosts cfg hosts <> [] ->
    exists content,
      deploy config_file cfg hosts ssh_user true max_workers now world
      = {| prints := [PBanner (length (target_hosts cfg hosts)) max_workers;
                      PDryRun content (target_hosts cfg hosts)];
           runs := []; ended := Returned true |}
      /\ (max_workers <= 0 ->
          ended (deploy config_file cfg hosts ssh_user false max_workers now
                        world) = ValueError)
      /\ (0 < max_workers ->
          let rs := runs (deploy config_file cfg hosts ssh_user false
                                 max_workers now world) in
          rs = submit_all content ssh_user world 0 (target_hosts cfg hosts)
          /\ Forall (fun run =>
                       existsb (writes_other content) (run_log run) = false)
                    rs).
Proof.
  intros config_file cfg hosts ssh_user max_workers now world Hv Hh.
  destruct (deploy_started config_file cfg hosts ssh_user true max_workers
              now world Hv Hh) as (content & Hc & Ht).
  destruct (deploy_started config_file cfg hosts ssh_user false max_workers
              now world Hv Hh) as (content' & Hc' & Hf).
  assert (content' = content) by congruence; subst content'.
  exists content; split; [exact Ht|]; rewrite Hf; cbv zeta; split.
  - intros Hw.
    replace (max_workers <=? 0) with true by (symmetry; apply Z.leb_le; lia).
    reflexivity.
  - intros Hw.
    replace (max_workers <=? 0) with false by (symmetry; apply Z.leb_gt; lia).
    cbn [runs]; split; [reflexivity|].
    apply submit_all_writes_content.
Qed.

Lemma dry_run_touches_no_host_witness :
  fst (validate shared_host_config) = true
  /\ target_hosts shared_host_config None <> []
  /\ exists content,
      deploy "config/prod.yaml" shared_host_config None "root" true 0
             "2024-02-12 10:30:00" (fun _ => all_fine)
      = {| prints := [PBanner (length (target_hosts shared_host_config None))
                              0;
                      PDryRun content (target_hosts shared_host_config None)];
           runs := []; ended := Returned true |}
      /\ ended (deploy "config/prod.yaml" shared_host_config None "root"
                       false 0 "2024-02-12 10:30:00" (fun _ => all_fine))
         = ValueError.
Proof.
  assert (Hv : fst (validate shared_host_config) = true) by reflexivity.
  assert (Hh : target_hosts shared_host_config None <> [])
    by (vm_compute; discriminate).
  split; [exact Hv|]; split; [exact Hh|].
  destruct (dry_run_touches_no_host "config/prod.yaml" shared_host_config
              None "root" 0 "2024-02-12 10:30:00" (fun _ => all_fine) Hv Hh)
    as (content & H1 & H2 & _).
  exists content; split; [exact H1|apply H2; lia].
Defined.

(** X22.  A deployment that starts accounts for every target host, and the
    handler for a task that raised is never entered.  For a configuration
    that passes validation, target hosts that are not all missing and a
    positive worker count, every task returns a pair, the two counts of
    the summary add up to the number of target hosts, and [deploy] returns
    true exactly when every task reported a success. *)
Theorem deploy_accounts_for_every_host :
  forall config_file cfg hosts ssh_user max_workers now world,
    fst (validate cfg) = true ->
    target_hosts cfg hosts <> [] ->
    0 < max_workers ->
    let rep := deploy config_file cfg hosts ssh_user false max_workers now
                      world in
    exists success_count failed_count,
      prints rep = [PBanner (length (target_hosts cfg hosts)) max_workers;
                    PSummary success_count failed_count]
      /\ (success_count + failed_count = length (target_hosts cfg hosts))%nat
      /\ success_count = length (filter succeeded (runs rep))
      /\ Forall returned_pair (runs rep)
      /\ ended rep = Returned (forallb succeeded (runs rep)).
Proof.
  intros config_file cfg hosts ssh_user max_workers now world Hv Hh Hw rep.
  destruct (deploy_started config_file cfg hosts ssh_user false max_workers
              now world Hv Hh) as (content & _ & E).
  subst rep; rewrite E; cbv zeta.
  replace (max_workers <=? 0) with false by (symmetry; apply Z.leb_gt; lia).
  cbn [prints runs ended].
  eexists; eexists; split; [reflexivity|].
  split; [|split; [reflexivity|split]].
  - rewrite filter_partition; apply submit_all_length.
  - apply submit_all_returned.
  - now rewrite no_failure_forallb.
Qed.

Lemma deploy_accounts_for_every_host_witness :
  fst (validate shared_host_config) = true
  /\ target_hosts shared_host_config None <> []
  /\ 0 < 10
  /\ exists success_count failed_count,
      prints (deploy "config/prod.yaml" shared_host_config None "root" false
                     10 "2024-02-12 10:30:00" (fun _ => install_fails))
      = [PBanner (length (target_hosts shared_host_config None)) 10;
         PSummary success_count failed_count]
      /\ (success_count + failed_count
          = length (target_hosts shared_host_config None))%nat.
Proof.
  assert (Hv : fst (validate shared_host_config) = true) by reflexivity.
  assert (Hh : target_hosts shared_host_config None <> [])
    by (vm_compute; discriminate).
  split; [exact Hv|]; split; [exact Hh|]; split; [lia|].
  destruct (deploy_accounts_for_every_host "config/prod.yaml"
              shared_host_config None "root" 10 "2024-02-12 10:30:00"
              (fun _ => install_fails) Hv Hh eq_refl)
    as (s & f & H1 & H2 & _).
  exists s, f; split; [exact H1|exact H2].
Defined.

(** X23.  The option [--hosts] never gives an empty host list.  A text
    that is not empty is split at its commas into one entry more than it
    has commas; every entry is stripped and has no comma, and entries that
    are empty are kept.  So [deploy] never reports missing target hosts
    for it. *)
Theorem hosts_option_never_empty :
  forall text,
    text <> "" ->
    exists h hs,
      hosts_argument (Some text) = Some (h :: hs)
      /\ length (h :: hs) = S (occurrences "," text)
      /\ Forall host_entry (h :: hs)
      /\ forall config_file cfg ssh_user dry_run max_workers now world,
          ~ In PNoTargetHosts
               (prints (deploy config_file cfg (hosts_argument (Some text))
                               ssh_user dry_run max_workers now world)).
Proof.
  intros text Ht.
  destruct text as [|c text]; [congruence|].
  cbn [hosts_argument].
  pose proof (split_on_length "," (String c text)) as Hl.
  pose proof (hosts_argument_entries (String c text)) as He.
  destruct (split_on "," (String c text)) as [|p ps]; [discriminate Hl|].
  cbn [map] in *.
  exists (strip p), (map strip ps); split; [reflexivity|].
  split; [cbn [length] in *; now rewrite length_map|].
  split; [exact He|].
  intros config_file cfg ssh_user dry_run max_workers now world.
  unfold deploy.
  destruct (validate cfg) as [[|] errors]; cbn [negb target_hosts is_nil].
  - destruct (generate_crontab now config_file cfg None);
      [destruct dry_run; [|destruct (max_workers <=? 0)]|];
      cbn [prints In]; intros H; repeat destruct H as [H|H];
      try discriminate H; exact H.
  - cbn [prints In]; intros [H|H]; [discriminate H|exact H].
Qed.

Lemma hosts_option_never_empty_witness :
  "web-01,, web-02" <> ""
  /\ exists h hs,
      hosts_argument (Some "web-01,, web-02") = Some (h :: hs)
      /\ length (h :: hs) = 3%nat
      /\ Forall host_entry (h :: hs).
Proof.
  assert (Ht : "web-01,, web-02" <> "") by discriminate.
  split; [exact Ht|].
  destruct (hosts_option_never_empty "web-01,, web-02" Ht)
    as (h & hs & H1 & H2 & H3 & _).
  exists h, hs; split; [exact H1|split; [exact H2|exact H3]].
Defined.

Section ExitStatus.

(** The exit status that the result of [deploy] gives. *)
Lemma deploy_exit_status config_file cfg hosts ssh_user dry_run workers now
      world :
  let rep := deploy config_file cfg hosts ssh_user dry_run workers now
                    world in
  (exit_status (ended rep) = 0 \/ exit_status (ended rep) = 1)
  /\ (exit_status (ended rep) = 0 <->
      fst (validate cfg) = true
      /\ target_hosts cfg hosts <> []
      /\ (dry_run = true
          \/ 0 < workers /\ forallb succeeded (runs rep) = true)).
Proof.
  cbv zeta; split.
  - unfold exit_status; destruct (ended _) as [[|]| |]; auto.
  - destruct (fst (validate cfg)) eqn:Hv.
    + destruct (target_hosts cfg hosts) as [|h hs] eqn:Eh.
      * unfold deploy; rewrite Eh.
        destruct (validate cfg) as [valid errors]; cbn [fst] in Hv;
          subst valid; cbn.
        split; [discriminate|intros (_ & H & _); congruence].
      * assert (Hh : target_hosts cfg hosts <> [])
          by (rewrite Eh; discriminate).
        destruct (deploy_started config_file cfg hosts ssh_user dry_run
                    workers now world Hv Hh) as (content & _ & E).
        rewrite E, Eh; cbv zeta.
        destruct dry_run.
        -- cbn; split; [intros _|reflexivity].
           split; [reflexivity|split; [discriminate|now left]].
        -- destruct (workers <=? 0) eqn:Ew.
           ++ cbn; apply Z.leb_le in Ew.
              split; [discriminate|].
              intros (_ & _ & [H|[H _]]); [discriminate|lia].
           ++ apply Z.leb_gt in Ew; cbn [runs ended exit_status].
              rewrite no_failure_forallb.
              destruct (forallb succeeded _).
              ** split; [intros _|reflexivity].
                 split; [reflexivity|split; [discriminate|right; auto]].
              ** split; [discriminate|].
                 intros (_ & _ & [H|[_ H]]); discriminate.
    + unfold deploy.
      destruct (validate cfg) as [valid errors]; cbn [fst] in Hv;
        subst valid; cbn.
      split; [discriminate|intros (H & _); discriminate].
Qed.

End ExitStatus.

(** X24.  The exit status of the command [deploy], for a run that is not
    interrupted from the keyboard.  The process ends with status 0 or 1,
    and with status 0 exactly when the prompt for the password, if one is
    needed because neither a key nor a password is given, returns; the
    configuration loads and passes validation; there is a target host; and
    either the run is a dry run or the worker count is positive and every
    task reported a success.  When the prompt raises or the configuration
    does not load, nothing is deployed: there is no report. *)
Theorem deploy_command_exit_status :
  forall config_file loaded hosts_option ssh_user ssh_key ssh_password
         getpass dry_run workers now world,
    let out := main_deploy config_file loaded hosts_option ssh_user ssh_key
                           ssh_password getpass dry_run workers now world in
    (snd out = 0 \/ snd out = 1)
    /\ (snd out = 0 <->
        (needs_password ssh_key ssh_password = true ->
         exists password, getpass = Typed password)
        /\ exists cfg,
            loaded = Some cfg
            /\ fst (validate cfg) = true
            /\ target_hosts cfg (hosts_argument hosts_option) <> []
            /\ (dry_run = true
                \/ 0 < workers
                   /\ forallb succeeded
                        (runs (deploy config_file cfg
                                 (hosts_argument hosts_option) ssh_user
                                 dry_run workers now world)) = true))
    /\ (fst out = None <->
        (needs_password ssh_key ssh_password = true
         /\ getpass = PromptRaised)
        \/ loaded = None).
Proof.
  intros config_file loaded hosts_option ssh_user ssh_key ssh_password
         getpass dry_run workers now world out.
  subst out; unfold main_deploy; cbv zeta.
  destruct (needs_password ssh_key ssh_password) eqn:En.
  - destruct getpass as [password|].
    + destruct loaded as [cfg|]; cbn [fst snd].
      * destruct (deploy_exit_status config_file cfg
                    (hosts_argument hosts_option) ssh_user dry_run workers
                    now world) as [H01 Hiff].
        cbv zeta in H01, Hiff.
        split; [exact H01|split].
        -- rewrite Hiff; split.
           ++ intros H; split; [eauto|exists cfg; auto].
           ++ intros (_ & cfg' & E & H); injection E as <-; exact H.
        -- split; [discriminate|].
           intros [[_ H]|H]; discriminate.
      * split; [now right|split].
        -- split; [discriminate|].
           intros (_ & cfg & E & _); discriminate.
        -- split; [now right|reflexivity].
    + cbn [fst snd]; split; [now right|split].
      * split; [discriminate|].
        intros (H & _); destruct (H eq_refl) as [password E]; discriminate.
      * split; [intros _; left; auto|reflexivity].
  - destruct loaded as [cfg|]; cbn [fst snd].
    + destruct (deploy_exit_status config_file cfg
                  (hosts_argument hosts_option) ssh_user dry_run workers
                  now world) as [H01 Hiff].
      cbv zeta in H01, Hiff.
      split; [exact H01|split].
      * rewrite Hiff; split.
        -- intros H; split; [discriminate|exists cfg; auto].
        -- intros (_ & cfg' & E & H); injection E as <-; exact H.
      * split; [discriminate|].
        intros [[H _]|H]; discriminate.
    + split; [now right|split].
      * split; [discriminate|].
        intros (_ & cfg & E & _); discriminate.
      * split; [now right|reflexivity].
Qed.

Lemma deploy_command_exit_status_witness :
  snd (main_deploy "config/prod.yaml" (Some shared_host_config) None "root"
                   None None (Typed "secret") true 10 "2024-02-12 10:30:00"
                   (fun _ => all_fine)) = 0
  /\ snd (main_deploy "config/prod.yaml" (Some shared_host_config) None
                      "root" None None PromptRaised true 10
                      "2024-02-12 10:30:00" (fun _ => all_fine)) = 1.
Proof.
  split.
  - apply (proj2 (proj1 (proj2 (deploy_command_exit_status
                                  "config/prod.yaml" (Some shared_host_config)
                                  None "root" None None (Typed "secret") true
                                  10 "2024-02-12 10:30:00"
                                  (fun _ => all_fine))))).
    split; [intros _; exists "secret"; reflexivity|].
    exists shared_host_config; split; [reflexivity|].
    split; [reflexivity|].
    split; [vm_compute; discriminate|now left].
  - pose proof (deploy_command_exit_status
                  "config/prod.yaml" (Some shared_host_config) None "root"
                  None None PromptRaised true 10 "2024-02-12 10:30:00"
                  (fun _ => all_fine)) as H.
    cbv zeta in H; destruct H as ([H0|H1] & Hiff & _); [|exact H1].
    apply Hiff in H0; destruct H0 as (Hp & _).
    destruct (Hp eq_refl) as [password E]; discriminate E.
Defined.

Import CronMonitor MonitorSpec MonitorExamples.

Section SortedDesc.

Context {A : Type}.
Variable key : A -> Z.

Lemma insert_desc_perm (x : A) (l : list A) :
  Permutation (insert_desc key x l) (x :: l).
Proof.
  induction l as [|y l IH]; cbn [insert_desc]; [reflexivity|].
  destruct (key y <=? key x); [reflexivity|].
  rewrite IH; apply perm_swap.
Qed.

Lemma sorted_desc_perm (l : list A) : Permutation (sorted_desc key l) l.
Proof.
  induction l as [|x l IH]; cbn [sorted_desc fold_right]; [reflexivity|].
  fold (sorted_desc key l); rewrite insert_desc_perm; now constructor.
Qed.

Lemma insert_desc_sorted (x : A) (l : list A) :
  descending key l -> descending key (insert_desc key x l).
Proof.
  unfold descending; induction 1 as [|y l Hl IH Hy]; cbn [insert_desc].
  - repeat constructor.
  - destruct (key y <=? key x) eqn:E.
    + apply Z.leb_le in E.
      constructor; [now constructor|].
      constructor; [exact E|].
      eapply Forall_impl; [|exact Hy]; cbn; intros z Hz; lia.
    + apply Z.leb_gt in E.
      constructor; [exact IH|].
      eapply Permutation_Forall; [symmetry; apply insert_desc_perm|].
      constructor; [lia|exact Hy].
Qed.

Lemma sorted_desc_sorted (l : list A) : descending key (sorted_desc key l).
Proof.
  induction l as [|x l IH]; cbn [sorted_desc fold_right]; [constructor|].
  now apply insert_desc_sorted.
Qed.

Lemma descending_app (a b : list A) :
  descending key (a ++ b) ->
  descending key a /\ descending key b /\ none_above key a b.
Proof.
  unfold descending, none_above; induction a as [|x a IH]; cbn [app].
  - intros H; repeat split; [constructor|exact H|].
    apply Forall_forall; intros; constructor.
  - intros H; inversion H as [|? ? Hs Hx]; subst.
    destruct (IH Hs) as (Ha & Hb & Hab).
    apply Forall_app in Hx; destruct Hx as [Hxa Hxb].
    repeat split; [now constructor|exact Hb|].
    apply Forall_forall; intros e' He'.
    constructor.
    + exact (proj1 (Forall_forall _ _) Hxb e' He').
    + exact (proj1 (Forall_forall _ _) Hab e' He').
Qed.

(** The first [n] entries of the sorted list: as many as there are, up to
    [n], in descending order, and nothing left out is above them. *)
Lemma top_of_sorted (n : nat) (l : list A) :
  let top := firstn n (sorted_desc key l) in
  length top = Nat.min n (length l)
  /\ descending key top
  /\ exists rest, Permutation l (top ++ rest) /\ none_above key top rest.
Proof.
  cbv zeta.
  pose proof (sorted_desc_sorted l) as Hs.
  pose proof (sorted_desc_perm l) as Hp.
  rewrite <- (firstn_skipn n (sorted_desc key l)) in Hs.
  apply descending_app in Hs; destruct Hs as (H1 & _ & H3).
  split; [|split; [exact H1|]].
  - rewrite length_firstn; now rewrite (Permutation_length Hp).
  - exists (skipn n (sorted_desc key l)); split; [|exact H3].
    rewrite firstn_skipn; now symmetry.
Qed.

End SortedDesc.

Section Tally.

Lemma how_many_app p (a b : list execution) :
  how_many p (a ++ b) = (how_many p a + how_many p b)%nat.
Proof. unfold how_many; now rewrite filter_app, length_app. Qed.

Lemma how_many_partition (l : list execution) :
  (how_many is_success l + how_many is_failure l + how_many is_timeout l
   = length l)%nat.
Proof.
  unfold how_many, is_failure, is_timeout.
  induction l as [|e l IH]; [reflexivity|].
  cbn [filter]; destruct (is_success e);
    [|destruct (String.eqb (status e) "TIMEOUT")];
    cbn [negb andb length]; lia.
Qed.

Lemma how_many_job_partition job (l : list execution) :
  (how_many (fun e => of_job job e && is_success e) l
   + how_many (fun e => of_job job e && is_failure e) l
   + how_many (fun e => of_job job e && is_timeout e) l
   = how_many (of_job job) l)%nat.
Proof.
  unfold how_many, is_failure, is_timeout.
  induction l as [|e l IH]; [reflexivity|].
  cbn [filter]; destruct (of_job job e); cbn [andb]; [|exact IH].
  destruct (is_success e);
    [|destruct (String.eqb (status e) "TIMEOUT")];
    cbn [negb andb length]; lia.
Qed.

Lemma how_many_none p (l : list execution) :
  how_many p l = 0%nat <-> Forall (fun e => p e = false) l.
Proof.
  unfold how_many; induction l as [|e l IH]; cbn [filter].
  - split; [constructor|reflexivity].
  - destruct (p e) eqn:E; cbn [length].
    + split; [discriminate|intros H; inversion H; congruence].
    + rewrite IH; split; [now constructor|now inversion 1].
Qed.

Lemma how_many_of_job job (l : list execution) :
  (0 < how_many (of_job job) l)%nat <-> In job (map job_name l).
Proof.
  unfold how_many, of_job; induction l as [|e l IH]; cbn [filter map In].
  - cbn; lia.
  - destruct (String.eqb (job_name e) job) eqn:E.
    + apply String.eqb_eq in E; cbn [length]; split; [auto|lia].
    + apply String.eqb_neq in E; rewrite IH; tauto.
Qed.

Lemma lookup_keys (d : by_job_dict) (job : string) :
  lookup d job = None <-> ~ In job (map fst d).
Proof.
  induction d as [|[k v] d IH]; cbn [lookup map fst In]; [tauto|].
  destruct (String.eqb k job) eqn:E.
  - apply String.eqb_eq in E; split; [discriminate|tauto].
  - apply String.eqb_neq in E; rewrite IH; tauto.
Qed.

Lemma lookup_in (d : by_job_dict) (job : string) (js : job_stats) :
  NoDup (map fst d) -> In (job, js) d -> lookup d job = Some js.
Proof.
  induction d as [|[k v] d IH]; cbn [lookup map fst In]; [tauto|].
  intros Hn [H|H]; inversion Hn as [|? ? Hk Hd]; subst.
  - injection H as -> ->; now rewrite String.eqb_refl.
  - destruct (String.eqb k job) eqn:E; [|auto].
    apply String.eqb_eq in E; subst k.
    exfalso; apply Hk; apply in_map_iff; exists (job, js); auto.
Qed.

Lemma update_keys (d : by_job_dict) job f (k : string) :
  In k (map fst (update d job f)) <-> k = job \/ In k (map fst d).
Proof.
  induction d as [|[k' v] d IH]; cbn [update map fst In].
  - intuition congruence.
  - destruct (String.eqb k' job) eqn:E; cbn [map fst In].
    + apply String.eqb_eq in E; subst k'; intuition congruence.
    + rewrite IH; tauto.
Qed.

Lemma update_nodup (d : by_job_dict) job f :
  NoDup (map fst d) -> NoDup (map fst (update d job f)).
Proof.
  induction d as [|[k v] d IH]; cbn [update map fst].
  - intros _; repeat constructor; intros [].
  - intros Hn; inversion Hn as [|? ? Hk Hd]; subst.
    destruct (String.eqb k job) eqn:E; cbn [map fst].
    + now constructor.
    + apply String.eqb_neq in E.
      constructor; [|auto].
      rewrite update_keys; intros [->|H]; [congruence|contradiction].
Qed.

Lemma stats_of_update (d : by_job_dict) job f (k : string) :
  stats_of (update d job f) k
  = if String.eqb job k then f (stats_of d job) else stats_of d k.
Proof.
  unfold stats_of; induction d as [|[k' v] d IH]; cbn [update lookup].
  - destruct (String.eqb job k) eqn:E; reflexivity.
  - destruct (String.eqb k' job) eqn:E; cbn [lookup].
    + apply String.eqb_eq in E; subst k'.
      destruct (String.eqb job k); reflexivity.
    + destruct (String.eqb k' k) eqn:E'; [|exact IH].
      apply String.eqb_eq in E'; subst k'.
      apply String.eqb_neq in E.
      replace (String.eqb job k) with false; [reflexivity|].
      symmetry; apply String.eqb_neq; congruence.
Qed.

Lemma job_counts_snoc job (l : list execution) (e : execution) :
  job_counts job (l ++ [e])
  = if String.eqb (job_name e) job then
      (if is_success e then bump_success
       else if String.eqb (status e) "TIMEOUT" then bump_timeout
            else bump_failed) (bump_total (job_counts job l))
    else job_counts job l.
Proof.
  unfold job_counts; rewrite !how_many_app.
  unfold how_many at 2 4 6 8; cbn [filter].
  unfold of_job, is_failure, is_timeout.
  destruct (String.eqb (job_name e) job); cbn [andb];
    [|cbn [length]; now rewrite !Nat.add_0_r].
  destruct (is_success e);
    [|destruct (String.eqb (status e) "TIMEOUT")];
    cbn [negb andb length bump_total bump_success bump_timeout bump_failed
         job_total job_success job_failed job_timeout];
    rewrite ?Nat.add_0_r, ?Nat.add_1_r; reflexivity.
Qed.

(** One turn of the loop keeps the invariant. *)
Lemma count_tallied (l : list execution) (st : stats) (e : execution) :
  tallied l st -> tallied (l ++ [e]) (count st e).
Proof.
  intros (Hs & Hf & Ht & Hn & Hk & Hj).
  assert (Hkeys : forall f g job,
             In job (map fst (update (update (by_job st) (job_name e) f)
                                     (job_name e) g))
             <-> In job (map job_name (l ++ [e]))).
  { intros f g job; rewrite !update_keys, Hk, map_app, in_app_iff.
    cbn [map In]; intuition congruence. }
  assert (Hstats : forall g job,
             stats_of (update (update (by_job st) (job_name e) bump_total)
                              (job_name e) g) job
             = if String.eqb (job_name e) job
               then g (bump_total (job_counts (job_name e) l))
               else job_counts job l).
  { intros g job; rewrite !stats_of_update, String.eqb_refl, !Hj.
    now destruct (String.eqb (job_name e) job). }
  unfold tallied, count.
  rewrite !how_many_app; unfold how_many at 2 4 6; cbn [filter].
  unfold is_failure, is_timeout, is_success in *.
  destruct (String.eqb (status e) "SUCCESS") eqn:E1;
    [|destruct (String.eqb (status e) "TIMEOUT") eqn:E2];
    cbn [success failed timeout by_job negb andb length];
    (repeat split;
     [lia|lia|lia|now do 2 apply update_nodup|apply Hkeys|apply Hkeys|]);
    intros job; rewrite Hstats, job_counts_snoc;
    unfold is_success; rewrite E1, ?E2;
    destruct (String.eqb (job_name e) job) eqn:Ej; try reflexivity;
    apply String.eqb_eq in Ej; now subst job.
Qed.

Lemma fold_count_tallied (l : list execution) (n : nat) :
  tallied l
    (fold_left count l
       {| total := n; success := 0; failed := 0; timeout := 0;
          by_job := []; slowest := []; recent_failures := [] |}).
Proof.
  induction l as [|e l IH] using rev_ind.
  - cbn; repeat split; try constructor; cbn; tauto.
  - rewrite fold_left_app; cbn [fold_left]; now apply count_tallied.
Qed.

Lemma fold_count_total (l : list execution) (st : stats) :
  total (fold_left count l st) = total st.
Proof.
  revert st; induction l as [|e l IH]; intros st; cbn [fold_left];
    [reflexivity|].
  rewrite IH; unfold count.
  destruct (String.eqb (status e) "SUCCESS");
    [|destruct (String.eqb (status e) "TIMEOUT")]; reflexivity.
Qed.

Lemma get_stats_eq (l : list execution) :
  l <> [] ->
  get_stats l
  = let st :=
      fold_left count l
        {| total := length l; success := 0; failed := 0; timeout := 0;
           by_job := []; slowest := []; recent_failures := [] |} in
    Some
      {| total := total st; success := success st; failed := failed st;
         timeout := timeout st; by_job := by_job st;
         slowest := firstn 10 (sorted_desc duration l);
         recent_failures :=
           firstn 10
             (sorted_desc timestamp
                (filter (fun e => negb (String.eqb (status e) "SUCCESS"))
                        l)) |}.
Proof. destruct l; [congruence|reflexivity]. Qed.

(** What [get_stats] returns for executions that are not empty. *)
Lemma get_stats_tallied (l : list execution) (st : stats) :
  get_stats l = Some st ->
  l <> [] /\ total st = length l /\ tallied l st
  /\ slowest st = firstn 10 (sorted_desc duration l)
  /\ recent_failures st
     = firstn 10 (sorted_desc timestamp
                    (filter (fun e => negb (is_success e)) l)).
Proof.
  intros H.
  assert (Hne : l <> []) by (destruct l; [discriminate H|discriminate]).
  rewrite (get_stats_eq l Hne) in H; cbv zeta in H.
  pose proof (fold_count_tallied l (length l)) as Ht.
  pose proof (fold_count_total l
                {| total := length l; success := 0; failed := 0;
                   timeout := 0; by_job := []; slowest := [];
                   recent_failures := [] |}) as Hn.
  set (st0 := fold_left count l _) in *.
  assert (E : st = {| total := total st0; success := success st0;
                      failed := failed st0; timeout := timeout st0;
                      by_job := by_job st0;
                      slowest := firstn 10 (sorted_desc duration l);
                      recent_failures :=
                        firstn 10
                          (sorted_desc timestamp
                             (filter
                                (fun e =>
                                   negb (String.eqb (status e) "SUCCESS"))
                                l)) |}) by congruence.
  subst st; cbn [total slowest recent_failures].
  split; [exact Hne|split; [exact Hn|split; [exact Ht|split; reflexivity]]].
Qed.

Lemma get_stats_some (l : list execution) :
  l <> [] -> exists st, get_stats l = Some st.
Proof. destruct l; [congruence|intros _; eexists; reflexivity]. Qed.

End Tally.

(** X25.  The counters of [get_stats] partition the executions.  The
    total is the number of executions and the sum of the three counters;
    the dictionary of the jobs has one key per job name that occurs, each
    once, and the entry of a job holds the counts of the executions of
    that job, whose three counters add up to its total, which is not
    zero. *)
Theorem stats_counters_partition :
  forall executions st,
    get_stats executions = Some st ->
    total st = length executions
    /\ (success st + failed st + timeout st = total st)%nat
    /\ NoDup (map fst (by_job st))
    /\ (forall job,
          In job (map fst (by_job st)) <-> In job (map job_name executions))
    /\ forall job js,
        In (job, js) (by_job st) ->
        js = job_counts job executions
        /\ (job_success js + job_failed js + job_timeout js
            = job_total js)%nat
        /\ (0 < job_total js)%nat.
Proof.
  intros l st H.
  destruct (get_stats_tallied l st H)
    as (_ & Htotal & (Hs & Hf & Ht & Hn & Hk & Hj) & _).
  split; [exact Htotal|].
  split; [rewrite Hs, Hf, Ht, Htotal; apply how_many_partition|].
  split; [exact Hn|split; [exact Hk|]].
  intros job js Hin.
  assert (E : js = job_counts job l).
  { rewrite <- Hj; unfold stats_of; now rewrite (lookup_in _ _ _ Hn Hin). }
  subst js; split; [reflexivity|split].
  - apply how_many_job_partition.
  - apply how_many_of_job, Hk, in_map_iff; exists (job, job_counts job l).
    auto.
Qed.

Lemma stats_counters_partition_witness :
  exists st,
    get_stats one_timeout = Some st
    /\ total st = 3%nat
    /\ (success st + failed st + timeout st = total st)%nat.
Proof.
  destruct (get_stats one_timeout) as [st|] eqn:E; [|discriminate E].
  exists st; split; [reflexivity|].
  destruct (stats_counters_partition one_timeout st E) as (H1 & H2 & _).
  split; [exact H1|exact H2].
Defined.

(** X26.  [check_health] never takes a subscript of the empty dictionary,
    and it returns true exactly when every execution has the status
    [SUCCESS], letter for letter: a status in another case, or any other
    text, makes the check fail. *)
Theorem health_means_all_success :
  forall executions,
    (exists b, check_health executions = Some b)
    /\ (check_health executions = Some true
        <-> Forall (fun e => status e = "SUCCESS") executions).
Proof.
  intros l; destruct l as [|e l].
  - split; [eexists; reflexivity|split; [constructor|reflexivity]].
  - set (ex := e :: l).
    destruct (get_stats_some ex) as [st Hst]; [discriminate|].
    destruct (get_stats_tallied ex st Hst)
      as (_ & _ & (Hs & Hf & Ht & _) & _).
    unfold check_health; fold ex; rewrite Hst, Hf, Ht.
    split; [eexists; reflexivity|].
    assert (Hall : Forall (fun e => status e = "SUCCESS") ex
                   <-> how_many is_failure ex = 0%nat
                       /\ how_many is_timeout ex = 0%nat).
    { split.
      - intros HF; split; apply how_many_none;
          (eapply Forall_impl; [|exact HF]); intros x Hx;
          unfold is_failure, is_timeout, is_success; now rewrite Hx.
      - intros [H1 H2]; apply how_many_none in H1, H2.
        apply Forall_forall; intros x Hx.
        pose proof (proj1 (Forall_forall _ _) H1 x Hx) as F1.
        pose proof (proj1 (Forall_forall _ _) H2 x Hx) as F2.
        unfold is_failure, is_timeout, is_success in F1, F2.
        destruct (String.eqb (status x) "SUCCESS") eqn:E1;
          [now apply String.eqb_eq|].
        destruct (String.eqb (status x) "TIMEOUT"); discriminate. }
    rewrite Hall.
    destruct (how_many is_failure ex), (how_many is_timeout ex); cbn;
      intuition congruence.
Qed.

(** X27.  The list of the slowest executions holds the ten longest.  It
    has ten entries, or all executions when there are fewer; it is in
    descending order of duration; and the executions are these entries
    and others, none of which lasted longer than an entry of the list. *)
Theorem slowest_are_the_longest :
  forall executions st,
    get_stats executions = Some st ->
    length (slowest st) = Nat.min 10 (length executions)
    /\ descending duration (slowest st)
    /\ exists rest,
        Permutation executions (slowest st ++ rest)
        /\ none_above duration (slowest st) rest.
Proof.
  intros l st H.
  destruct (get_stats_tallied l st H) as (_ & _ & _ & -> & _).
  exact (top_of_sorted duration 10 l).
Qed.

Lemma slowest_are_the_longest_witness :
  exists st,
    get_stats one_timeout = Some st
    /\ length (slowest st) = 3%nat
    /\ descending duration (slowest st).
Proof.
  destruct (get_stats one_timeout) as [st|] eqn:E; [|discriminate E].
  exists st; split; [reflexivity|].
  destruct (slowest_are_the_longest one_timeout st E) as (H1 & H2 & _).
  split; [exact H1|exact H2].
Defined.

(** X28.  The list of recent failures is wider than the counter of
    failures.  Its entries are the executions whose status is not
    [SUCCESS], time-outs included, the ten latest of them in descending
    order of time; so its length is ten or the sum of the counters of
    failures and of time-outs, whichever is smaller. *)
Theorem recent_failures_include_timeouts :
  forall executions st,
    get_stats executions = Some st ->
    length (recent_failures st) = Nat.min 10 (failed st + timeout st)
    /\ descending timestamp (recent_failures st)
    /\ Forall (fun e => In e executions /\ status e <> "SUCCESS")
              (recent_failures st)
    /\ exists rest,
        Permutation (filter (fun e => negb (is_success e)) executions)
                    (recent_failures st ++ rest)
        /\ none_above timestamp (recent_failures st) rest.
Proof.
  intros l st H.
  destruct (get_stats_tallied l st H)
    as (_ & Htotal & (Hs & Hf & Ht & _) & _ & ->).
  destruct (top_of_sorted timestamp 10
              (filter (fun e => negb (is_success e)) l))
    as (H1 & H2 & rest & H3 & H4).
  split; [|split; [exact H2|split; [|exists rest; auto]]].
  - rewrite H1; f_equal.
    pose proof (how_many_partition l) as Hp.
    assert (Hc : (how_many is_success l
                  + length (filter (fun e => negb (is_success e)) l)
                  = length l)%nat)
      by (unfold how_many; clear; induction l as [|e l IH];
          [reflexivity|cbn [filter]; destruct (is_success e);
                       cbn [negb length]; lia]).
    lia.
  - apply Forall_forall; intros e He.
    assert (Hin : In e (filter (fun e => negb (is_success e)) l)).
    { eapply Permutation_in; [symmetry; exact H3|].
      apply in_or_app; now left. }
    apply filter_In in Hin; destruct Hin as [Hin Hne].
    split; [exact Hin|].
    unfold is_success in Hne; intros Heq; rewrite Heq in Hne.
    discriminate Hne.
Qed.

Lemma recent_failures_include_timeouts_witness :
  exists st,
    get_stats one_timeout = Some st
    /\ failed st = 1%nat
    /\ length (recent_failures st) = 2%nat.
Proof.
  destruct (get_stats one_timeout) as [st|] eqn:E; [|discriminate E].
  exists st; split; [reflexivity|].
  destruct (recent_failures_include_timeouts one_timeout st E) as (H1 & _).
  assert (Hf : failed st = 1%nat)
    by (injection E as <-; reflexivity).
  assert (Ht : timeout st = 1%nat)
    by (injection E as <-; reflexivity).
  split; [exact Hf|].
  rewrite H1, Hf, Ht; reflexivity.
Defined.
